(** * Maamar search: a shallow embedding of [search_maamar_with_openai.py]
    and of the search endpoint of [app.py]

    The development follows the Python module function by function:
    strings are lists of Unicode code points (what a Python [str] is),
    dictionaries whose iteration order matters are association lists,
    the keyword cache and the alias table are finite maps, and Python
    floats are the kernel's binary64 numbers. *)

From Stdlib Require Import ZArith List Bool Lia Ascii String Floats Uint63 Permutation Sorted.
From stdpp Require Import base option list gmap.
Import ListNotations.

Local Open Scope Z_scope.
Local Open Scope list_scope.

(* 0.7 and 0.3 are read as the nearest binary64 values, as Python reads them. *)
Set Warnings "-inexact-float".

(* ===================================================================== *)
(** ** Python strings *)
(* ===================================================================== *)

Module PyStr.

(** A Python [str] is a sequence of code points. *)
Abbreviation pystr := (list Z).

(** UTF-8 decoding, only so that literals can be written readably:
    [u "abc"] is the code-point list of the literal. *)
Fixpoint utf8_decode (bytes : list Z) (pending acc : Z) : pystr :=
  match bytes with
  | [] => []
  | b :: rest =>
      if pending =? 0 then
        if b <? 128 then b :: utf8_decode rest 0 0
        else if b <? 224 then utf8_decode rest 1 (b - 192)
        else if b <? 240 then utf8_decode rest 2 (b - 224)
        else utf8_decode rest 3 (b - 240)
      else
        let acc' := acc * 64 + (b - 128) in
        if pending =? 1 then acc' :: utf8_decode rest 0 0
        else utf8_decode rest (pending - 1) acc'
  end.

Fixpoint bytes_of_string (s : string) : list Z :=
  match s with
  | EmptyString => []
  | String c s' => Z.of_nat (nat_of_ascii c) :: bytes_of_string s'
  end.

Definition u (s : string) : pystr := utf8_decode (bytes_of_string s) 0 0.

Definition str_eqb (a b : pystr) : bool := bool_decide (a = b).

(** [str.isspace()] per code point; also what [\s] matches in a [str]
    pattern and what [str.split()] / [str.strip()] treat as blank. *)
Definition is_space (c : Z) : bool :=
  ((9 <=? c) && (c <=? 13)) || ((28 <=? c) && (c <=? 32))
  || (c =? 133) || (c =? 160) || (c =? 5760)
  || ((8192 <=? c) && (c <=? 8202))
  || (c =? 8232) || (c =? 8233) || (c =? 8239) || (c =? 8287) || (c =? 12288).

Definition SPACE : Z := 32.

(** [s.split()] : maximal runs of non-blank characters.  [cur] holds the
    run being read, most recent character first. *)
Fixpoint split_ws_from (cur : pystr) (s : pystr) : list pystr :=
  match s with
  | [] => match cur with [] => [] | _ => [rev cur] end
  | c :: s' =>
      if is_space c then
        match cur with
        | [] => split_ws_from [] s'
        | _ => rev cur :: split_ws_from [] s'
        end
      else split_ws_from (c :: cur) s'
  end.

Definition split_ws (s : pystr) : list pystr := split_ws_from [] s.

(** [sep.join(parts)] *)
Fixpoint join (sep : pystr) (parts : list pystr) : pystr :=
  match parts with
  | [] => []
  | [p] => p
  | p :: ps => p ++ sep ++ join sep ps
  end.

Fixpoint lstrip (s : pystr) : pystr :=
  match s with
  | c :: s' => if is_space c then lstrip s' else s
  | [] => []
  end.

Definition rstrip (s : pystr) : pystr := rev (lstrip (rev s)).

(** [s.strip()] *)
Definition strip (s : pystr) : pystr := rstrip (lstrip s).

(** [s.startswith(p)] *)
Fixpoint startswith (s p : pystr) : bool :=
  match p, s with
  | [], _ => true
  | _ :: _, [] => false
  | a :: p', b :: s' => (a =? b) && startswith s' p'
  end.

(** [p in s] for strings. *)
Fixpoint contains (s p : pystr) : bool :=
  startswith s p ||
  match s with
  | [] => false
  | _ :: s' => contains s' p
  end.

(** [s.replace(old, new)]: every non-overlapping occurrence, left to
    right.  With an empty [old] Python inserts [new] around every
    character. [fuel] bounds the scan by the length of the input. *)
Fixpoint replace_from (fuel : nat) (s old new : pystr) : pystr :=
  match fuel with
  | O => s
  | S fuel' =>
      match s with
      | [] => []
      | c :: s' =>
          if startswith s old
          then new ++ replace_from fuel' (drop (length old) s) old new
          else c :: replace_from fuel' s' old new
      end
  end.

Definition replace (s old new : pystr) : pystr :=
  match old with
  | [] => new ++ flat_map (fun c => c :: new) s
  | _ => replace_from (length s) s old new
  end.

(** [len(re.findall(re.escape(p), s))]: how many non-overlapping
    occurrences of the literal [p] the scan of [s] meets.  The empty
    pattern matches once at every position, the end included. *)
Fixpoint count_from (fuel : nat) (s p : pystr) : Z :=
  match fuel with
  | O => 0
  | S fuel' =>
      match s with
      | [] => 0
      | _ :: s' =>
          if startswith s p
          then 1 + count_from fuel' (drop (length p) s) p
          else count_from fuel' s' p
      end
  end.

Definition count_occurrences (s p : pystr) : Z :=
  match p with
  | [] => Z.of_nat (length s) + 1
  | _ => count_from (length s) s p
  end.

End PyStr.
Import PyStr.

(* ===================================================================== *)
(** ** Hebrew code points and the character classes of the patterns *)
(* ===================================================================== *)

Module Chars.

Definition VAV : Z := 1493.    (* U+05D5 *)
Definition YOD : Z := 1497.    (* U+05D9 *)
Definition HEH : Z := 1492.    (* U+05D4 *)
Definition TAV : Z := 1514.    (* U+05EA *)
Definition SHIN : Z := 1513.   (* U+05E9 *)
Definition DALET : Z := 1491.  (* U+05D3 *)
Definition GERESH : Z := 1523.     (* U+05F3 *)
Definition GERSHAYIM : Z := 1524.  (* U+05F4 *)
Definition DQUOTE : Z := 34.
Definition SQUOTE : Z := 39.
Definition BACKTICK : Z := 96.
Definition PRIME : Z := 8242.
Definition DPRIME : Z := 8243.
Definition TPRIME : Z := 8244.

(** [[א-ת]] *)
Definition is_heb (c : Z) : bool := (1488 <=? c) && (c <=? 1514).

(** [[֑-ׇ]] *)
Definition is_nikud (c : Z) : bool := (1425 <=? c) && (c <=? 1479).

(** The eight glyphs of the quote class used throughout the module. *)
Definition is_quote (c : Z) : bool :=
  (c =? GERSHAYIM) || (c =? DQUOTE) || (c =? GERESH) || (c =? SQUOTE)
  || (c =? BACKTICK) || (c =? PRIME) || (c =? DPRIME) || (c =? TPRIME).

(** [[,.\-:;!?()[\]{}]] *)
Definition is_punct (c : Z) : bool :=
  (c =? 44) || (c =? 46) || (c =? 45) || (c =? 58) || (c =? 59) || (c =? 33)
  || (c =? 63) || (c =? 40) || (c =? 41) || (c =? 91) || (c =? 93)
  || (c =? 123) || (c =? 125).

(** The code points of the digit zero of every script: the decimal
    digits of Unicode (category Nd, here of Unicode 14.0, the database
    of Python 3.11) come in runs of ten, each starting at its zero. *)
Definition DECIMAL_ZEROS : list Z :=
  [48; 1632; 1776; 1984; 2406; 2534; 2662; 2790;
   2918; 3046; 3174; 3302; 3430; 3558; 3664; 3792;
   3872; 4160; 4240; 6112; 6160; 6470; 6608; 6784;
   6800; 6992; 7088; 7232; 7248; 42528; 43216; 43264;
   43472; 43504; 43600; 44016; 65296; 66720; 68912; 69734;
   69872; 69942; 70096; 70384; 70736; 70864; 71248; 71360;
   71472; 71904; 72016; 72784; 73040; 73120; 92768; 92864;
   93008; 120782; 120792; 120802; 120812; 120822; 123200; 123632;
   125264; 130032].

(** [\d] in a [str] pattern: any decimal digit of Unicode, the ASCII
    digits 0-9 among them. *)
Definition is_digit (c : Z) : bool :=
  existsb (fun zero => (zero <=? c) && (c <=? zero + 9)) DECIMAL_ZEROS.

End Chars.
Import Chars.

(* ===================================================================== *)
(** ** normalize_text *)
(* ===================================================================== *)

(** [re.sub(r'([א-ת])X([א-ת])', r'\1\2', text)] for a letter [X]: the
    scan is left to right and a match consumes its three characters, so
    the letter that closes one match cannot open the next. *)
Fixpoint elide_internal (x : Z) (s : pystr) : pystr :=
  match s with
  | a :: ((v :: b :: rest) as tl) =>
      if is_heb a && (v =? x) && is_heb b
      then a :: b :: elide_internal x rest
      else a :: elide_internal x tl
  | _ => s
  end.

Definition normalize_text (text : pystr) (level : Z) : pystr :=
  match text with
  | [] => []
  | _ =>
      let text := List.filter (fun c => negb (is_nikud c)) text in
      let text := List.filter (fun c => negb (is_quote c)) text in
      let text := if 1 <=? level then elide_internal VAV text else text in
      let text := if 2 <=? level then elide_internal YOD text else text in
      let text := if 3 <=? level then elide_internal HEH text else text in
      let text := List.map (fun c => if is_punct c then SPACE else c) text in
      let text := join [SPACE] (split_ws text) in
      strip text
  end.

(* ===================================================================== *)
(** ** Python numbers *)
(* ===================================================================== *)

Module PyNum.

(** [float(n)] for an [int] below 2^63 in magnitude. *)
Definition float_of_Z (n : Z) : float :=
  if n <? 0 then PrimFloat.opp (PrimFloat.of_uint63 (Uint63.of_Z (- n)))
  else PrimFloat.of_uint63 (Uint63.of_Z n).

(** [a / b] on two [int]s (true division): for operands below 2^53, as
    every count here is, the correctly rounded quotient of the two
    floats. *)
Definition truediv (a b : Z) : float :=
  PrimFloat.div (float_of_Z a) (float_of_Z b).

(** [int(x)]: truncation toward zero; Python raises on an infinity or a
    NaN, which is [None] here. *)
Definition int_of_float_opt (x : float) : option Z :=
  match Prim2SF x with
  | S754_zero _ => Some 0
  | S754_finite s m e =>
      let mag := if 0 <=? e then Z.pos m * 2 ^ e else Z.pos m / 2 ^ (- e) in
      Some (if s then - mag else mag)
  | _ => None
  end.

(** [int(x)] where the source applies it to a quotient of two counts
    scaled by a constant, which is always finite. *)
Definition int_of_float (x : float) : Z := default 0 (int_of_float_opt x).

(** [int((a / b) * 100)], the shape of every percentage in the module. *)
Definition percent (a b : Z) : Z :=
  int_of_float (PrimFloat.mul (truediv a b) (float_of_Z 100)).

(** Python's [round(x)]: to the nearest integer, ties to even.  Used
    only to compare the code with a rounding reading of a percentage. *)
Definition round_half_even (num den : Z) : Z :=
  let q := num / den in
  let r := num mod den in
  if 2 * r <? den then q
  else if den <? 2 * r then q + 1
  else if Z.even q then q else q + 1.

End PyNum.
Import PyNum.

(* ===================================================================== *)
(** ** The patterns of the module, as scanners *)
(* ===================================================================== *)

Module Patterns.

(** The quote class of the year pattern: gershayim, ASCII double
    quote, geresh, apostrophe. *)
Definition is_year_quote (c : Z) : bool :=
  (c =? GERSHAYIM) || (c =? DQUOTE) || (c =? GERESH) || (c =? SQUOTE).

(** The optional tail of the year pattern at the head of [s]: a year
    quote and a letter, or one letter, or nothing. *)
Definition year_tail (s : pystr) : pystr :=
  match s with
  | q :: c :: _ =>
      if is_year_quote q && is_heb c then [q; c]
      else if is_heb q then [q] else []
  | [c] => if is_heb c then [c] else []
  | [] => []
  end.

(** The year pattern, tav shin, one or two letters of [[א-ת]], then
    the optional tail, anchored at the head of [s]: the text it matches.  The counted letter class is greedy and the
    tail is optional, so the first alternative tried always succeeds. *)
Definition year_match_at (s : pystr) : option pystr :=
  match s with
  | t :: sh :: a :: rest =>
      if (t =? TAV) && (sh =? SHIN) && is_heb a then
        match rest with
        | b :: rest' =>
            if is_heb b then Some ([t; sh; a; b] ++ year_tail rest')
            else Some ([t; sh; a] ++ year_tail rest)
        | [] => Some [t; sh; a]
        end
      else None
  | _ => None
  end.

(** [re.search(year_pattern, s)]: the text before the leftmost match,
    and the match. *)
Fixpoint year_search (s : pystr) : option (pystr * pystr) :=
  match year_match_at s with
  | Some m => Some ([], m)
  | None =>
      match s with
      | [] => None
      | c :: s' =>
          match year_search s' with
          | Some (pre, m) => Some (c :: pre, m)
          | None => None
          end
      end
  end.

(** How a year is compared: a leading heh, with the apostrophe or
    geresh after it if any, is dropped; then every year quote and every
    slash is deleted. *)
Definition normalize_year (y : pystr) : pystr :=
  let y1 :=
    match y with
    | h :: rest =>
        if h =? HEH then
          match rest with
          | q :: rest' => if (q =? SQUOTE) || (q =? GERESH) then rest' else rest
          | [] => rest
          end
        else y
    | [] => y
    end in
  List.filter (fun c => negb (is_year_quote c || (c =? 47))) y1.

(** The pattern that removes the dibur-hamatchil marker: an optional
    bar, dalet, one of the eight quote glyphs, heh, an optional bar,
    blanks.  Anchored at the head of [s]: what is left after the match. *)
Definition dibur_hamatchil_at (s : pystr) : option pystr :=
  let core (s : pystr) : option pystr :=
    match s with
    | d :: q :: h :: rest =>
        if (d =? DALET) && is_quote q && (h =? HEH) then
          let rest := match rest with
                      | p :: rest' => if p =? 124 then rest' else rest
                      | [] => rest
                      end in
          Some (lstrip rest)
        else None
    | _ => None
    end in
  match s with
  | p :: s' =>
      if p =? 124 then
        match core s' with Some r => Some r | None => core s end
      else core s
  | [] => None
  end.

(** [re.sub] of that pattern by the empty string. *)
Fixpoint strip_dibur_hamatchil_from (fuel : nat) (s : pystr) : pystr :=
  match fuel with
  | O => s
  | S fuel' =>
      match dibur_hamatchil_at s with
      | Some rest => strip_dibur_hamatchil_from fuel' rest
      | None =>
          match s with
          | [] => []
          | c :: s' => c :: strip_dibur_hamatchil_from fuel' s'
          end
      end
  end.

Definition strip_dibur_hamatchil (s : pystr) : pystr :=
  strip_dibur_hamatchil_from (length s) s.

Definition MAAMAR : pystr := [1502; 1488; 1502; 1512].

(** [\S*מאמר] anchored at the head of [s], the star taking as much as
    it can: what follows the literal. *)
Fixpoint maamar_word_at (s : pystr) : option pystr :=
  match s with
  | [] => None
  | c :: s' =>
      let deeper := if is_space c then None else maamar_word_at s' in
      match deeper with
      | Some r => Some r
      | None => if startswith s MAAMAR then Some (drop 4 s) else None
      end
  end.

(** [re.sub(r'\S*מאמר\s*', '', s)] *)
Fixpoint strip_maamar_words_from (fuel : nat) (s : pystr) : pystr :=
  match fuel with
  | O => s
  | S fuel' =>
      match maamar_word_at s with
      | Some rest => strip_maamar_words_from fuel' (lstrip rest)
      | None =>
          match s with
          | [] => []
          | c :: s' => c :: strip_maamar_words_from fuel' s'
          end
      end
  end.

Definition strip_maamar_words (s : pystr) : pystr :=
  strip_maamar_words_from (length s) s.

End Patterns.
Import Patterns.

(* ===================================================================== *)
(** ** Cleaning the query *)
(* ===================================================================== *)

Definition clean_maamar_name (text : pystr) : pystr :=
  match text with
  | [] => text
  | _ =>
      let text := strip_maamar_words (strip text) in
      let text := List.filter (fun c => negb (is_digit c)) text in
      join [SPACE] (split_ws text)
  end.

(** Returns the text without its first year token, and the token. *)
Definition extract_year_from_text (text : pystr) : pystr * option pystr :=
  match text with
  | [] => (text, None)
  | _ =>
      match year_search text with
      | Some (pre, y) =>
          let cleaned := pre ++ drop (length y) (drop (length pre) text) in
          (join [SPACE] (split_ws cleaned), Some y)
      | None => (text, None)
      end
  end.

(** The loop of [extract_maamar_name_only]: keep words up to the first
    one carrying ״ or ׳, skipping those of them that start with תש. *)
Fixpoint name_words_until_reference (words : list pystr) : list pystr :=
  match words with
  | [] => []
  | w :: ws =>
      if existsb (fun c => (c =? GERSHAYIM) || (c =? GERESH)) w then
        if startswith w [TAV; SHIN] then name_words_until_reference ws
        else []
      else w :: name_words_until_reference ws
  end.

Definition extract_maamar_name_only (text : pystr) : pystr :=
  match text with
  | [] => text
  | _ =>
      let text := strip (strip_dibur_hamatchil text) in
      strip (join [SPACE] (name_words_until_reference (split_ws text)))
  end.

(* ===================================================================== *)
(** ** The corpus, the environment and the candidates *)
(* ===================================================================== *)

(** What a record holds under [year]: no such key, a stored [None], or
    a string. *)
Inductive year_field :=
  | YearMissing
  | YearNone
  | YearStr (y : pystr).

(** One record of the corpus; a missing [name], [filename] or [text] is
    the empty string, a missing [embedding] is [None]. *)
Record maamar := Maamar {
  m_name : pystr;
  m_year_field : year_field;
  m_filename : pystr;
  m_text : pystr;
  m_keywords_all : list pystr;
  m_embedding : option (list float)
}.

(** [maamar.get('year')]: [None] for a missing key and for a stored
    [None]. *)
Definition m_year (m : maamar) : option pystr :=
  match m_year_field m with
  | YearStr y => Some y
  | YearMissing | YearNone => None
  end.

(** Does the record hold [None] under [year]? *)
Definition year_is_none (m : maamar) : bool :=
  match m_year_field m with YearNone => true | _ => false end.

(** [maamar.get('year', '')]: the default stands in for a missing key
    only, a stored [None] comes back as it is. *)
Definition m_year_or_empty (m : maamar) : option pystr :=
  match m_year_field m with
  | YearStr y => Some y
  | YearMissing => Some []
  | YearNone => None
  end.

(** The loaded corpus, in the iteration order of the dictionary. *)
Abbreviation corpus := (list (pystr * maamar)).

(** What a POST to the chat-completions endpoint can come to. *)
Inductive http_outcome :=
| TransportError                       (* [requests.post] raised *)
| Response (status : Z) (content : option pystr).
    (* [content]: the text at choices[0].message.content, [None] when
       the body does not have that shape and reading it raises *)

(** The module-level state that is fixed during a query, and the two
    services and the string-similarity function the module calls. *)
Record Env := {
  ABBREVIATIONS : list (pystr * pystr);
  KEYWORD_ALIASES : gmap pystr (list pystr);
  HAS_REQUESTS : bool;
  KIMI_API_KEY : pystr;
  ENABLE_SEMANTIC_SEARCH : bool;
  HAS_OPENAI : bool;
  HAS_NUMPY : bool;
  (** the answer to the n-th request posted, for a given question *)
  chat_completions : nat -> pystr -> http_outcome;
  (** the embedding of a question, [None] when the call raises *)
  embeddings_create : pystr -> option (list float);
  (** [fuzz.ratio]: a float between 0 and 100 with rapidfuzz, an [int]
      with fuzzywuzzy, which is the same number as a float *)
  fuzz_ratio : pystr -> pystr -> float;
  (** [np.dot] on two vectors of one length, summed in the order the
      library chooses *)
  np_dot : list float -> list float -> float;
  (** [np.linalg.norm] on a vector *)
  np_linalg_norm : list float -> float
}.

(** The underscore fields the title branch leaves on a result. *)
Record title_rank := TitleRank {
  matched_keywords_count : Z;
  matched_keywords_total : Z;
  title_keyword_counts : gmap pystr Z;
  has_all_keywords : bool
}.

(** A result dictionary.  Keys that a branch does not set are [None]. *)
Record candidate := Candidate {
  c_key : pystr;
  c_name : pystr;
  c_year : option pystr;
  c_filename : pystr;
  c_text : pystr;
  c_keywords_all : list pystr;
  c_keywords_all_normalized : list pystr;
  c_embedding : option (list float);
  c_score : Z;
  c_fuzzy_score : Z;
  c_keyword_score : Z;
  c_semantic_score : Z;
  c_words_found : option Z;
  c_total_words : option Z;
  c_matched_keywords : option (list pystr);
  c_matched_keyword_counts : option (gmap pystr Z);
  c_min_kw_count : option Z;
  c_sum_kw_count : option Z;
  c_title_rank : option title_rank
}.

Definition set_score (c : candidate) (s : Z) : candidate :=
  Candidate (c_key c) (c_name c) (c_year c) (c_filename c) (c_text c)
    (c_keywords_all c) (c_keywords_all_normalized c) (c_embedding c)
    s (c_fuzzy_score c) (c_keyword_score c) (c_semantic_score c)
    (c_words_found c) (c_total_words c) (c_matched_keywords c)
    (c_matched_keyword_counts c) (c_min_kw_count c) (c_sum_kw_count c)
    (c_title_rank c).

Definition set_keyword_score (c : candidate) (s : Z) : candidate :=
  Candidate (c_key c) (c_name c) (c_year c) (c_filename c) (c_text c)
    (c_keywords_all c) (c_keywords_all_normalized c) (c_embedding c)
    (c_score c) (c_fuzzy_score c) s (c_semantic_score c)
    (c_words_found c) (c_total_words c) (c_matched_keywords c)
    (c_matched_keyword_counts c) (c_min_kw_count c) (c_sum_kw_count c)
    (c_title_rank c).

Definition set_semantic_score (c : candidate) (s : Z) : candidate :=
  Candidate (c_key c) (c_name c) (c_year c) (c_filename c) (c_text c)
    (c_keywords_all c) (c_keywords_all_normalized c) (c_embedding c)
    (c_score c) (c_fuzzy_score c) (c_keyword_score c) s
    (c_words_found c) (c_total_words c) (c_matched_keywords c)
    (c_matched_keyword_counts c) (c_min_kw_count c) (c_sum_kw_count c)
    (c_title_rank c).

Definition set_matched (c : candidate) (kws : list pystr)
    (counts : gmap pystr Z) : candidate :=
  Candidate (c_key c) (c_name c) (c_year c) (c_filename c) (c_text c)
    (c_keywords_all c) (c_keywords_all_normalized c) (c_embedding c)
    (c_score c) (c_fuzzy_score c) (c_keyword_score c) (c_semantic_score c)
    (c_words_found c) (c_total_words c) (Some kws) (Some counts)
    (c_min_kw_count c) (c_sum_kw_count c) (c_title_rank c).

Definition set_kw_counts (c : candidate) (mn sm : option Z) : candidate :=
  Candidate (c_key c) (c_name c) (c_year c) (c_filename c) (c_text c)
    (c_keywords_all c) (c_keywords_all_normalized c) (c_embedding c)
    (c_score c) (c_fuzzy_score c) (c_keyword_score c) (c_semantic_score c)
    (c_words_found c) (c_total_words c) (c_matched_keywords c)
    (c_matched_keyword_counts c) mn sm (c_title_rank c).

Definition set_title_rank (c : candidate) (t : title_rank) : candidate :=
  Candidate (c_key c) (c_name c) (c_year c) (c_filename c) (c_text c)
    (c_keywords_all c) (c_keywords_all_normalized c) (c_embedding c)
    (c_score c) (c_fuzzy_score c) (c_keyword_score c) (c_semantic_score c)
    (c_words_found c) (c_total_words c) (c_matched_keywords c)
    (c_matched_keyword_counts c) (c_min_kw_count c) (c_sum_kw_count c)
    (Some t).

(** A result without the underscore fields of the title branch. *)
Definition forget_title_rank (c : candidate) : candidate :=
  Candidate (c_key c) (c_name c) (c_year c) (c_filename c) (c_text c)
    (c_keywords_all c) (c_keywords_all_normalized c) (c_embedding c)
    (c_score c) (c_fuzzy_score c) (c_keyword_score c) (c_semantic_score c)
    (c_words_found c) (c_total_words c) (c_matched_keywords c)
    (c_matched_keyword_counts c) (c_min_kw_count c) (c_sum_kw_count c)
    None.

(** [r.get('words_found') or 0] and the like. *)
Definition words_found_of (c : candidate) : Z := default 0 (c_words_found c).
Definition total_words_of (c : candidate) : Z := default 0 (c_total_words c).

(** Truthiness of [c.get('embedding')]. *)
Definition has_embedding (c : candidate) : bool :=
  match c_embedding c with
  | Some (_ :: _) => true
  | _ => false
  end.

(* ===================================================================== *)
(** ** list.sort *)
(* ===================================================================== *)

Module PySort.
Section Sort.
Context {A : Type}.
(** [before y x]: [y] has to come strictly ahead of [x]. *)
Variable before : A -> A -> bool.

(** [x] came ahead of all of [l] in the input: it passes only the
    elements that have to precede it, so equal keys keep their order. *)
Fixpoint insert_stable (x : A) (l : list A) : list A :=
  match l with
  | [] => [x]
  | y :: l' => if before y x then y :: insert_stable x l' else x :: l
  end.

Definition sort_stable (l : list A) : list A :=
  fold_right insert_stable [] l.
End Sort.

(** [l.sort(key=key, reverse=True)] *)
Definition sort_desc {A K : Type} (ltb : K -> K -> bool) (key : A -> K)
    (l : list A) : list A :=
  sort_stable (fun y x => ltb (key x) (key y)) l.

(** [l.sort(key=key)] *)
Definition sort_asc {A K : Type} (ltb : K -> K -> bool) (key : A -> K)
    (l : list A) : list A :=
  sort_stable (fun y x => ltb (key y) (key x)) l.

(** [<] on tuples compares the first components that differ. *)
Definition lt_pair (a b : Z * Z) : bool :=
  (a.1 <? b.1) || ((a.1 =? b.1) && (a.2 <? b.2)).

Definition lt_triple (a b : Z * Z * Z) : bool :=
  lt_pair a.1 b.1 || (bool_decide (a.1 = b.1) && (a.2 <? b.2)).

Definition lt_bool (a b : bool) : bool := negb a && b.

(** The key of the title branch: a float, a bool, an int. *)
Definition lt_rank (a b : float * bool * Z) : bool :=
  let '(a1, a2, a3) := a in
  let '(b1, b2, b3) := b in
  if negb (PrimFloat.eqb a1 b1) then PrimFloat.ltb a1 b1
  else if negb (Bool.eqb a2 b2) then lt_bool a2 b2
  else a3 <? b3.

(** [<] on strings: by code point, a proper prefix first. *)
Fixpoint lt_str (a b : pystr) : bool :=
  match a, b with
  | _, [] => false
  | [], _ :: _ => true
  | x :: a', y :: b' => (x <? y) || ((x =? y) && lt_str a' b')
  end.

End PySort.
Import PySort.

(** [l[:n]] for an [int] [n]: a negative [n] counts from the end. *)
Definition slice_to {A : Type} (n : Z) (l : list A) : list A :=
  if 0 <=? n then take (Z.to_nat n) l
  else take (length l - Z.to_nat (- n))%nat l.

(* ===================================================================== *)
(** ** expand_abbreviations *)
(* ===================================================================== *)

Definition replace_char (old new : Z) (s : pystr) : pystr :=
  List.map (fun c => if c =? old then new else c) s.

(** [abbr.replace(dq, q).replace(sq, q).replace(gershayim, q).replace(geresh, q)] *)
Definition abbreviation_variant (abbr : pystr) (q : Z) : pystr :=
  replace_char GERESH q
    (replace_char GERSHAYIM q (replace_char SQUOTE q (replace_char DQUOTE q abbr))).

Definition quote_chars : list Z :=
  [DQUOTE; SQUOTE; GERSHAYIM; GERESH; BACKTICK; PRIME; DPRIME; TPRIME].

(** The inner loop over [quote_chars], left at the first variant found. *)
Fixpoint expand_variants (result abbr meaning : pystr) (qs : list Z) : pystr :=
  match qs with
  | [] => result
  | q :: qs' =>
      let v := abbreviation_variant abbr q in
      if contains result v then replace result v meaning
      else expand_variants result abbr meaning qs'
  end.

Definition expand_one (result : pystr) (entry : pystr * pystr) : pystr :=
  let '(abbr, meaning) := entry in
  match abbr, meaning with
  | [], _ | _, [] => result
  | _, _ =>
      if contains result abbr then replace result abbr meaning
      else if existsb (fun c => bool_decide (c ∈ [DQUOTE; SQUOTE; GERSHAYIM; GERESH])) abbr
      then expand_variants result abbr meaning quote_chars
      else result
  end.

Definition expand_abbreviations (E : Env) (text : pystr) : pystr :=
  match text, ABBREVIATIONS E with
  | [], _ | _, [] => text
  | _, _ => fold_left expand_one (ABBREVIATIONS E) text
  end.

(* ===================================================================== *)
(** ** Keyword extraction and its cache *)
(* ===================================================================== *)

(** What a query can change: the process-wide keyword cache, and the
    requests that went out to the chat service (the question each
    carried), oldest first. *)
Record world := World {
  cache : gmap pystr (list pystr);
  posted : list pystr
}.

(** [s.split(sep)] for a non-empty separator; [cur] is the piece being
    read, most recent character first. *)
Fixpoint split_on_from (fuel : nat) (sep : pystr) (cur s : pystr) : list pystr :=
  match fuel with
  | O => [rev cur ++ s]
  | S fuel' =>
      match s with
      | [] => [rev cur]
      | c :: s' =>
          if startswith s sep
          then rev cur :: split_on_from fuel' sep [] (drop (length sep) s)
          else split_on_from fuel' sep (c :: cur) s'
      end
  end.

Definition split_on (sep s : pystr) : list pystr :=
  split_on_from (S (length s)) sep [] s.

Definition number_phrases : list pystr :=
  [u "אחד עשרה"; u "אחד עשר"; u "שתיים עשרה"; u "שתיים עשר";
   u "שלוש עשרה"; u "שלוש עשר"; u "ארבע עשרה"; u "ארבע עשר";
   u "חמש עשרה"; u "חמש עשר"; u "שש עשרה"; u "שש עשר";
   u "שבע עשרה"; u "שבע עשר"; u "שמונה עשרה"; u "שמונה עשר";
   u "תשע עשרה"; u "תשע עשר";
   u "שלוש מאות"; u "ארבע מאות"; u "חמש מאות"; u "שש מאות";
   u "שבע מאות"; u "שמונה מאות"; u "תשע מאות"].

Definition number_words : list pystr :=
  [u "אחד"; u "שתיים"; u "שלוש"; u "ארבע"; u "חמש"; u "שש"; u "שבע";
   u "שמונה"; u "תשע"; u "עשר";
   u "עשרה"; u "עשרים"; u "שלושים"; u "ארבעים"; u "חמישים"; u "שישים";
   u "שבעים"; u "שמונים"; u "תשעים";
   u "מאה"; u "מאתיים";
   u "יא"; u "יב"; u "יג"; u "יד"; u "טו"; u "טז"; u "יז"; u "יח"; u "יט";
   u "כ"; u "ל"].

Definition str_in (s : pystr) (l : list pystr) : bool := bool_decide (s ∈ l).

Definition remove_number_phrase (result phrase : pystr) : pystr :=
  if contains result phrase then
    replace
      (replace (replace result ([SPACE] ++ phrase ++ [SPACE]) [SPACE])
               (phrase ++ [SPACE]) [])
      ([SPACE] ++ phrase) []
  else result.

Definition _remove_numbers_from_keyword (keyword : pystr) : pystr :=
  match keyword with
  | [] => keyword
  | _ =>
      let phrases :=
        sort_desc Z.ltb (fun p : pystr => Z.of_nat (length p)) number_phrases in
      let result := fold_left remove_number_phrase phrases keyword in
      let filtered_words :=
        List.filter (fun w => negb (str_in w number_words)) (split_ws result) in
      let result_final := strip (join [SPACE] filtered_words) in
      match result_final with
      | [] => keyword
      | _ => if str_eqb result_final keyword then keyword else result_final
      end
  end.

Definition is_empty {A : Type} (l : list A) : bool :=
  match l with [] => true | _ => false end.

Definition NONE_ANSWER : pystr := u "אין".

(** [str.lower] on the ASCII letters; the module only compares the
    result with a Hebrew literal, which no case mapping produces. *)
Definition lower (s : pystr) : pystr :=
  List.map (fun c => if (65 <=? c) && (c <=? 90) then c + 32 else c) s.

(** A keyword joined by a conjunction is split at each blank followed by
    vav; a keyword that starts with vav loses it. *)
Definition split_conjunction (kw : pystr) : list pystr :=
  if contains kw [SPACE; VAV] then
    List.filter (fun p => negb (is_empty p)) (List.map strip (split_on [SPACE; VAV] kw))
  else if startswith kw [VAV] && (1 <? Z.of_nat (length kw)) then
    [strip (drop 1 kw)]
  else [kw].

Definition clean_numbers (kw : pystr) : pystr :=
  let kw_cleaned := _remove_numbers_from_keyword kw in
  if negb (is_empty kw_cleaned) && negb (is_empty (strip kw_cleaned))
     && negb (str_eqb kw_cleaned kw)
  then kw_cleaned else kw.

(** Too short to be a keyword unless it carries a quote glyph. *)
Definition long_enough (kw : pystr) : bool :=
  let kw_no_quotes := strip (List.filter (fun c => negb (is_quote c)) kw) in
  (3 <=? Z.of_nat (length kw_no_quotes)) || existsb is_quote kw.

(** The keyword list read from a successful answer that is not the
    literal [NONE_ANSWER]. *)
Definition parse_keywords (answer : pystr) : list pystr :=
  let nonblank (pieces : list pystr) :=
    List.filter (fun kw => negb (is_empty kw)) (List.map strip pieces) in
  let keywords := nonblank (split_on [44] answer) in
  let keywords :=
    if is_empty keywords
    then List.filter (fun kw => negb (str_eqb kw NONE_ANSWER))
           (nonblank (split_on [10] answer))
    else keywords in
  let keywords := flat_map split_conjunction keywords in
  let keywords := List.map clean_numbers keywords in
  let keywords := sort_asc lt_str (fun kw : pystr => kw) keywords in
  List.filter long_enough keywords.

Definition cache_store (w : world) (q_key : pystr) (kws : list pystr) : world :=
  World (<[q_key := kws]> (cache w)) (posted w).

Definition post (w : world) (question : pystr) : world :=
  World (cache w) (posted w ++ [question]).

(** Returns the keywords, or [None] as the failure signal, and the
    world after the call. *)
Definition extract_keywords_from_question (E : Env) (question : pystr)
    (w : world) : option (list pystr) * world :=
  let q_key := strip question in
  match (if is_empty q_key then None else cache w !! q_key) with
  | Some kws => (Some kws, w)
  | None =>
      if negb (HAS_REQUESTS E) then (None, w)
      else if is_empty (KIMI_API_KEY E) then (None, w)
      else
        let w1 := post w question in
        match chat_completions E (length (posted w)) question with
        | TransportError => (None, w1)
        | Response status content =>
            if status =? 200 then
              match content with
              | None => (None, w1)
              | Some body =>
                  let answer := strip body in
                  if str_eqb (lower answer) NONE_ANSWER
                  then (Some [], cache_store w1 q_key [])
                  else
                    let keywords := parse_keywords answer in
                    (Some keywords,
                     if is_empty q_key then w1 else cache_store w1 q_key keywords)
              end
            else (None, w1)
        end
  end.

(* ===================================================================== *)
(** ** Title matching *)
(* ===================================================================== *)

Definition year_pattern_in (name : pystr) : option pystr :=
  match year_search name with
  | Some (_, y) => Some y
  | None => None
  end.

(** [sum(1 for w in query_words if w in name_words)] *)
Definition count_words_found (query_words name_words : list pystr) : Z :=
  Z.of_nat (length (List.filter (fun w => str_in w name_words) query_words)).

(** The words of a title as the word-set matcher reads them. *)
Definition title_words (E : Env) (name : pystr) : list pystr :=
  split_ws (normalize_text (expand_abbreviations E name) 3).

(** The query words of [mara_makom_word_match_search]. *)
Definition mara_makom_query_words (E : Env) (maamar_name : pystr) : list pystr :=
  title_words E (strip (strip_dibur_hamatchil maamar_name)).

(** The year a record is listed under: its [year] field, else the first
    year token of its name. *)
Definition year_value_of (m : maamar) : option pystr :=
  match m_year m with
  | Some (_ :: _) => m_year m
  | _ =>
      match year_pattern_in (m_name m) with
      | Some y => Some y
      | None => m_year m
      end
  end.

(** The body of the loop of [mara_makom_word_match_search] for one
    record: the result it appends, if any. *)
Definition mara_makom_candidate (E : Env) (query_words : list pystr)
    (entry : pystr * maamar) : option candidate :=
  let '(key, m) := entry in
  match m_name m with
  | [] => None
  | name =>
      let name_words := title_words E name in
      let words_found := count_words_found query_words name_words in
      if words_found <=? 0 then None
      else
        let total_words := Z.of_nat (length query_words) in
        let score := if total_words =? 0 then 0 else percent words_found total_words in
        Some {| c_key := key; c_name := name; c_year := year_value_of m;
                c_filename := m_filename m; c_text := m_text m;
                c_keywords_all := m_keywords_all m;
                c_keywords_all_normalized := [];
                c_embedding := m_embedding m;
                c_score := score; c_fuzzy_score := score;
                c_keyword_score := 0; c_semantic_score := 0;
                c_words_found := Some words_found;
                c_total_words := Some total_words;
                c_matched_keywords := None; c_matched_keyword_counts := None;
                c_min_kw_count := None; c_sum_kw_count := None;
                c_title_rank := None |}
  end.

(** The sort key of the word-set matcher. *)
Definition mara_makom_key (r : candidate) : Z * Z * Z :=
  (words_found_of r, c_score r, - Z.of_nat (length (c_name r))).

(** All the matches of the word-set matcher, ranked, before the cut to
    [top_n]. *)
Definition mara_makom_ranked (E : Env) (maamar_name : pystr)
    (maamarim : corpus) : list candidate :=
  match maamar_name with
  | [] => []
  | _ =>
      let query_words := mara_makom_query_words E maamar_name in
      match query_words with
      | [] => []
      | _ =>
          sort_desc lt_triple mara_makom_key
            (omap (mara_makom_candidate E query_words) maamarim)
      end
  end.

Definition mara_makom_word_match_search (E : Env) (maamar_name : pystr)
    (maamarim : corpus) (top_n : Z) : list candidate :=
  slice_to top_n (mara_makom_ranked E maamar_name maamarim).

(** [exact_search_name]: the normalized query as a whole-word-bounded
    substring of the normalized name.  [is_word] is the class [\w]. *)
Section Exact.
Variable is_word : Z -> bool.

(** Is there a word boundary between a character and the next one?
    [None] stands for the edge of the string. *)
Definition boundary (prev next : option Z) : bool :=
  let w (c : option Z) := match c with Some c => is_word c | None => false end in
  negb (Bool.eqb (w prev) (w next)).

(** Does the bounded pattern match at some position of [s], the
    character before [s] being [prev]? *)
Fixpoint bounded_search (prev : option Z) (s q : pystr) : bool :=
  (boundary prev (head q)
   && startswith s q
   && boundary (last q) (head (drop (length q) s)))
  ||
  match s with
  | [] => false
  | c :: s' => bounded_search (Some c) s' q
  end.

Definition exact_candidate (query_normalized : pystr)
    (entry : pystr * maamar) : option candidate :=
  let '(key, m) := entry in
  match m_name m with
  | [] => None
  | name =>
      if bounded_search None (normalize_text name 0) query_normalized then
        Some {| c_key := key; c_name := name;
                c_year := m_year_or_empty m;
                c_filename := m_filename m; c_text := m_text m;
                c_keywords_all := m_keywords_all m;
                c_keywords_all_normalized := [];
                c_embedding := m_embedding m;
                c_score := 100; c_fuzzy_score := 100;
                c_keyword_score := 0; c_semantic_score := 0;
                c_words_found := None; c_total_words := None;
                c_matched_keywords := None; c_matched_keyword_counts := None;
                c_min_kw_count := None; c_sum_kw_count := None;
                c_title_rank := None |}
      else None
  end.

Definition exact_search_name (maamar_name : pystr) (maamarim : corpus)
    (top_n : Z) : list candidate :=
  let query_normalized := normalize_text maamar_name 0 in
  match strip query_normalized with
  | [] => []
  | _ =>
      slice_to top_n
        (sort_asc Z.ltb (fun r => Z.of_nat (length (c_name r)))
           (omap (exact_candidate query_normalized) maamarim))
  end.
End Exact.

(* ===================================================================== *)
(** ** Counting mentions in the text *)
(* ===================================================================== *)

(** [_KEYWORD_ALIASES.get(ph0) or []], then the phrase itself when that
    is empty. *)
Definition aliases_of (E : Env) (ph0 : pystr) : list pystr :=
  match default [] (KEYWORD_ALIASES E !! ph0) with
  | [] => [ph0]
  | aliases => aliases
  end.

Definition count_alias (norm_text : pystr) (total : Z) (a : pystr) : Z :=
  match normalize_text a 3 with
  | [] => total
  | a_norm => total + count_occurrences norm_text a_norm
  end.

Definition count_phrase (E : Env) (norm_text : pystr)
    (counts : gmap pystr Z) (ph : pystr) : gmap pystr Z :=
  match ph with
  | [] => counts
  | _ =>
      let ph0 := strip ph in
      <[ph0 := fold_left (count_alias norm_text) (aliases_of E ph0) 0]> counts
  end.

Definition _count_phrase_mentions_in_text (E : Env) (text : pystr)
    (phrases : list pystr) : gmap pystr Z :=
  match text, phrases with
  | [], _ | _, [] => ∅
  | _, _ => fold_left (count_phrase E (normalize_text text 3)) phrases ∅
  end.

(** [int(counts.get(kw, 0) or 0)] *)
Definition count_of (counts : gmap pystr Z) (kw : pystr) : Z :=
  default 0 (counts !! kw).

(** The pattern of [_count_keyword_mentions_in_text]: the token with no
    non-blank character on either side.  [prev] is the character before
    [s], if any. *)
Fixpoint count_token_from (fuel : nat) (prev : option Z) (s tok : pystr) : Z :=
  match fuel with
  | O => 0
  | S fuel' =>
      match s with
      | [] => 0
      | c :: s' =>
          let blank (x : option Z) :=
            match x with Some x => is_space x | None => true end in
          if blank prev && startswith s tok
             && blank (head (drop (length tok) s))
          then 1 + count_token_from fuel' (last tok) (drop (length tok) s) tok
          else count_token_from fuel' (Some c) s' tok
      end
  end.

Definition _count_keyword_mentions_in_text (text : pystr)
    (tokens : list pystr) : Z :=
  match text, tokens with
  | [], _ | _, [] => 0
  | _, _ =>
      match normalize_text text 3 with
      | [] => 0
      | norm_text =>
          fold_left
            (fun total tok =>
               match tok with
               | [] => total
               | _ => total + count_token_from (length norm_text) None norm_text tok
               end)
            tokens 0
      end
  end.

(* ===================================================================== *)
(** ** keyword_search *)
(* ===================================================================== *)

Definition stop_words : list pystr :=
  [u "מה"; u "מי"; u "איך"; u "למה"; u "האם"; u "איפה"; u "מתי"; u "כמה";
   u "של"; u "על"; u "את"; u "עם"; u "לפי"; u "אל"; u "מן"; u "ב"; u "ל";
   u "כ"; u "מ";
   u "הרב"; u "רב"; u "דעת"; u "אומר"; u "מסביר"; u "מדבר"; u "אומרים";
   u "זה"; u "זו"; u "זאת"; u "אלה"; u "אלו";
   u "כל"; u "כולם"; u "כולן"; u "הכל";
   u "יש"; u "אין"; u "יהיה"; u "היה";
   u "או"; u "וגם"; u "אבל"; u "רק"; u "גם"; u "אף"; u "כי"; u "אם"; u "ש"].

(** The question words the fallback uses. *)
Definition question_words (question : pystr) : list pystr :=
  List.filter
    (fun w => negb (str_in w stop_words) && (1 <? Z.of_nat (length w)))
    (split_ws (normalize_text question 3)).

(** The loop that keeps the first spelling of each normalized keyword. *)
Fixpoint dedup_keywords (seen_norm : list pystr) (kws : list pystr) : list pystr :=
  match kws with
  | [] => []
  | kw :: rest =>
      let kw := strip kw in
      let norm := strip (normalize_text kw 3) in
      if is_empty kw || is_empty norm || str_in norm seen_norm
      then dedup_keywords seen_norm rest
      else kw :: dedup_keywords (norm :: seen_norm) rest
  end.

(** Which list the candidates are scored against. *)
Inductive keyword_mode :=
| AiKeywords (ai_keywords_dedup : list pystr)
| FallbackWords (question_words_list : list pystr)
| Unbound.
    (* keywords were extracted but none survived the de-duplication:
       [ai_keywords_dedup] is [None] and the fallback names were never
       assigned *)

Definition keyword_mode_of (ai_keywords : option (list pystr))
    (question : pystr) : keyword_mode :=
  match ai_keywords with
  | Some ((_ :: _) as kws) =>
      match dedup_keywords [] kws with
      | [] => Unbound
      | dedup => AiKeywords dedup
      end
  | _ => FallbackWords (question_words question)
  end.

(** A lookup of a question keyword in the keyword table of a record. *)
Inductive resolution :=
| Raises                       (* the index ran past [cand_norm_kws] *)
| Missing
| Mapped (table_kw : pystr).

(** The column of precomputed normalized keywords is used when it is
    present and as long as [keywords_all]. *)
Definition has_normalized_column (c : candidate) : bool :=
  negb (is_empty (c_keywords_all_normalized c))
  && (length (c_keywords_all_normalized c) =? length (c_keywords_all c))%nat.

Definition normalized_keywords (c : candidate) : list pystr :=
  if has_normalized_column c then c_keywords_all_normalized c
  else List.map (fun kw => normalize_text kw 3) (c_keywords_all c).

Definition cand_norm_kws (c : candidate) : list pystr :=
  if has_normalized_column c then c_keywords_all_normalized c
  else List.map (fun kw => normalize_text kw 3)
         (List.filter (fun kw => negb (is_empty kw)) (c_keywords_all c)).

Fixpoint normalized_match (qn : pystr) (i : nat) (keywords norm_kws : list pystr)
    : resolution :=
  match keywords with
  | [] => Missing
  | table_kw :: rest =>
      if is_empty table_kw then normalized_match qn (S i) rest norm_kws
      else
        match norm_kws !! i with
        | None => Raises
        | Some table_norm =>
            if str_eqb qn table_norm then Mapped table_kw
            else normalized_match qn (S i) rest norm_kws
        end
  end.

Fixpoint fuzzy_best (E : Env) (qn : pystr) (keywords : list pystr) (i : nat)
    (norm_kws : list pystr) (best : float) (best_table_kw : option pystr)
    : float * option pystr :=
  match norm_kws with
  | [] => (best, best_table_kw)
  | cn :: rest =>
      if is_empty cn then fuzzy_best E qn keywords (S i) rest best best_table_kw
      else
        let s := fuzz_ratio E qn cn in
        if PrimFloat.ltb best s then
          if PrimFloat.leb (float_of_Z 100) s then (s, keywords !! i)
          else fuzzy_best E qn keywords (S i) rest s (keywords !! i)
        else fuzzy_best E qn keywords (S i) rest best best_table_kw
  end.

Definition FUZZY_THRESHOLD : Z := 85.

(** How one question keyword is looked up in the keyword table of a
    record: literally, then normalized, then by similarity. *)
Definition resolve_keyword (E : Env) (c : candidate) (kw : pystr) : resolution :=
  let qn := strip (normalize_text kw 3) in
  if is_empty qn then Missing
  else if str_in kw (c_keywords_all c) then Mapped kw
  else
    match normalized_match qn 0 (c_keywords_all c) (cand_norm_kws c) with
    | Raises => Raises
    | Mapped table_kw => Mapped table_kw
    | Missing =>
        match fuzzy_best E qn (c_keywords_all c) 0 (cand_norm_kws c)
                (float_of_Z 0) None with
        | (best, Some ((_ :: _) as table_kw)) =>
            if PrimFloat.leb (float_of_Z FUZZY_THRESHOLD) best
            then Mapped table_kw else Missing
        | _ => Missing
        end
    end.

(** The question keywords resolved in the table, each with the table
    keyword it maps to; [None] when a lookup raises. *)
Fixpoint resolve_all (E : Env) (c : candidate) (kws : list pystr)
    : option (list (pystr * pystr)) :=
  match kws with
  | [] => Some []
  | kw :: rest =>
      match resolve_keyword E c kw with
      | Raises => None
      | Missing => resolve_all E c rest
      | Mapped t =>
          match resolve_all E c rest with
          | Some l => Some ((kw, t) :: l)
          | None => None
          end
      end
  end.

Definition assoc (l : list (pystr * pystr)) (k : pystr) : option pystr :=
  match List.find (fun e => str_eqb e.1 k) l with
  | Some e => Some e.2
  | None => None
  end.

(** Set union on lists without repetition. *)
Definition add_all (s extra : list pystr) : list pystr :=
  remove_dups (s ++ extra).

(** [int((keyword_score / 100) * 20)] *)
Definition keyword_bonus (keyword_score : Z) : Z :=
  int_of_float (PrimFloat.mul (truediv keyword_score 100) (float_of_Z 20)).

(** The score update at the end of the loop body. *)
Definition rescored (c : candidate) (keyword_score : Z) : Z :=
  if (c_fuzzy_score c =? 0) && (c_score c =? 50) then keyword_score
  else Z.min 100 (c_score c + keyword_bonus keyword_score).

(** Stage 1 of the loop body in AI-keyword mode: the question keywords
    found in the keyword table, each with the table keyword it maps to;
    [None] when a lookup raises. *)
Definition ai_table (E : Env) (ai : list pystr) (c : candidate)
    : option (list (pystr * pystr)) :=
  if is_empty (c_keywords_all c) then Some [] else resolve_all E c ai.

(** Stage 2: the mentions of each question keyword in the text, counted
    under the table keyword it maps to when it has one. *)
Definition ai_counts (E : Env) (ai : list pystr) (c : candidate)
    (table : list (pystr * pystr)) : gmap pystr Z :=
  match c_text c with
  | [] => ∅
  | text =>
      let phrase_of kw := default kw (assoc table kw) in
      let raw := _count_phrase_mentions_in_text E text (List.map phrase_of ai) in
      fold_left (fun m kw => <[kw := count_of raw (phrase_of kw)]> m) ai ∅
  end.

(** [matching_words] at the end of the loop body: found in the table,
    or mentioned in the text. *)
Definition ai_matching_words (E : Env) (ai : list pystr) (c : candidate)
    (table : list (pystr * pystr)) : list pystr :=
  let in_table := remove_dups (List.map fst table) in
  match c_text c with
  | [] => in_table
  | _ => add_all in_table
           (List.filter (fun kw => 0 <? count_of (ai_counts E ai c table) kw) ai)
  end.

(** The loop body in AI-keyword mode. *)
Definition rerank_ai (E : Env) (ai : list pystr) (c : candidate)
    : option candidate :=
  let total := if (length ai =? 0)%nat then 1 else Z.of_nat (length ai) in
  match ai_table E ai c with
  | None => None
  | Some table =>
      let counts_all := ai_counts E ai c table in
      let matching_words := ai_matching_words E ai c table in
      if is_empty matching_words then Some c
      else
        let keyword_score := percent (Z.of_nat (length matching_words)) total in
        let all_counts := List.map (count_of counts_all) ai in
        let c := set_keyword_score c keyword_score in
        let c := set_matched c
                   (List.filter (fun kw => str_in kw matching_words) ai)
                   (list_to_map (List.map (fun kw => (kw, count_of counts_all kw)) ai)) in
        let c := set_kw_counts c
                   (Some (fold_right Z.min (default 0 (head all_counts)) all_counts))
                   (Some (fold_right Z.add 0 all_counts)) in
        Some (set_score c (rescored c keyword_score))
  end.

(** normalized keyword, or word of one, to the table keyword that first
    produced it. *)
Definition normalized_to_original (c : candidate) : gmap pystr pystr :=
  let kn := c_keywords_all_normalized c in
  let add (m : gmap pystr pystr) (k v : pystr) :=
    match k, m !! k with
    | _ :: _, None => <[k := v]> m
    | _, _ => m
    end in
  (fix go (i : nat) (kws : list pystr) (m : gmap pystr pystr) :=
     match kws with
     | [] => m
     | kw :: rest =>
         let normalized :=
           match kn, kn !! i with
           | _ :: _, Some n => n
           | _, _ => normalize_text kw 3
           end in
         let m := add m normalized kw in
         go (S i) rest (fold_left (fun m t => add m t kw) (split_ws normalized) m)
     end) O (c_keywords_all c) ∅.

(** [matching_words] in fallback mode: the distinct question words among
    the words of the normalized keyword table. *)
Definition fallback_matching_words (question_words_list : list pystr)
    (c : candidate) : list pystr :=
  match c_keywords_all c with
  | [] => []
  | _ =>
      let keywords_set := split_ws (join [SPACE] (normalized_keywords c)) in
      List.filter (fun w => str_in w keywords_set) (remove_dups question_words_list)
  end.

(** The loop body in fallback mode. *)
Definition rerank_fallback (E : Env) (question_words_list : list pystr)
    (c : candidate) : candidate :=
  let matching_words := fallback_matching_words question_words_list c in
  if is_empty matching_words then c
  else
    let keyword_score :=
      percent (Z.of_nat (length matching_words))
              (Z.of_nat (length question_words_list)) in
    let matching_original :=
      List.map (fun w => default w (normalized_to_original c !! w)) matching_words in
    let matched_list :=
      sort_asc lt_str (fun kw : pystr => kw) (remove_dups matching_original) in
    let c := set_keyword_score c keyword_score in
    let c := set_matched c matched_list
               (_count_phrase_mentions_in_text E (c_text c) matched_list) in
    set_score c (rescored c keyword_score).

(** The keywords of the question that a record matches, by mode; [None]
    when the lookup raises. *)
Definition matching_words_of (E : Env) (mode : keyword_mode) (c : candidate)
    : option (list pystr) :=
  match mode with
  | AiKeywords ai =>
      match ai_table E ai c with
      | Some table => Some (ai_matching_words E ai c table)
      | None => None
      end
  | FallbackWords qw => Some (fallback_matching_words qw c)
  | Unbound => if is_empty (c_keywords_all c) then Some [] else None
  end.

(** The number of keywords a score is taken over, by mode. *)
Definition keyword_total (mode : keyword_mode) : Z :=
  match mode with
  | AiKeywords ai => if (length ai =? 0)%nat then 1 else Z.of_nat (length ai)
  | FallbackWords qw => Z.of_nat (length qw)
  | Unbound => 0
  end.

(** The loop body, by mode; [None] when it raises. *)
Definition rerank_candidate (E : Env) (mode : keyword_mode) (c : candidate)
    : option candidate :=
  match mode with
  | AiKeywords ai => rerank_ai E ai c
  | FallbackWords qw => Some (rerank_fallback E qw c)
  | Unbound => if is_empty (c_keywords_all c) then Some c else None
  end.

Definition keyword_sort_key (c : candidate) : Z * Z * Z :=
  (c_score c, default 0 (c_min_kw_count c), default 0 (c_sum_kw_count c)).

(** The final sort of [keyword_search] and the removal of the two
    underscore fields. *)
Definition keyword_resort (mode : keyword_mode) (cs : list candidate)
    : list candidate :=
  match mode with
  | AiKeywords _ =>
      List.map (fun c => set_kw_counts c None None)
        (sort_desc lt_triple keyword_sort_key cs)
  | _ => sort_desc Z.ltb c_score cs
  end.

(** [dict.fromkeys]-style de-duplication that keeps the first
    occurrence and the order. *)
Definition ordered_unique (l : list pystr) : list pystr :=
  rev (fold_left (fun seen w => if str_in w seen then seen else w :: seen) l []).

(** The keywords reported back: the extracted ones, or the fallback
    words without repetition. *)
Definition reported_keywords (ai_keywords : option (list pystr))
    (question : pystr) : list pystr :=
  match ai_keywords with
  | Some ((_ :: _) as kws) => kws
  | _ => ordered_unique (question_words question)
  end.

(** What a call can come to: a value, or an exception that leaves the
    function. *)
Inductive outcome (A : Type) :=
| Returns (a : A)
| Raised.
Arguments Returns {A} a.
Arguments Raised {A}.

Definition keyword_search (E : Env) (question : pystr)
    (candidates : list candidate) (require_ai_keywords : bool)
    (forced_keywords : option (list pystr)) (w : world)
    : outcome (list candidate * option (list pystr)) * world :=
  if is_empty question || is_empty candidates
  then (Returns (candidates, None), w)
  else
    let '(ai_keywords, w) :=
      match forced_keywords with
      | Some ((_ :: _) as kws) => (Some kws, w)
      | _ => extract_keywords_from_question E question w
      end in
    let ai_present :=
      match ai_keywords with Some (_ :: _) => true | _ => false end in
    if negb ai_present && require_ai_keywords then (Raised, w)
    else
      let mode := keyword_mode_of ai_keywords question in
      match mapM (rerank_candidate E mode) candidates with
      | None => (Raised, w)
      | Some cs =>
          (Returns (keyword_resort mode cs,
                    Some (reported_keywords ai_keywords question)), w)
      end.

(* ===================================================================== *)
(** ** semantic_search *)
(* ===================================================================== *)

(** The products summed from left to right: one of the orders [np.dot]
    can take, and exact on vectors whose sums are. *)
Definition float_sum (l : list float) : float :=
  fold_left PrimFloat.add l 0%float.

Definition dot (v1 v2 : list float) : float :=
  float_sum (zip_with PrimFloat.mul v1 v2).

(** [None]: the two vectors differ in length and [np.dot] raises. *)
Definition cosine_similarity (E : Env) (vec1 vec2 : list float) : option float :=
  if negb (HAS_NUMPY E) then Some 0%float
  else if negb (length vec1 =? length vec2)%nat then None
  else
    let dot_product := np_dot E vec1 vec2 in
    let norm1 := np_linalg_norm E vec1 in
    let norm2 := np_linalg_norm E vec2 in
    if PrimFloat.eqb norm1 0 || PrimFloat.eqb norm2 0 then Some 0%float
    else Some (PrimFloat.div dot_product (PrimFloat.mul norm1 norm2)).

(** [int(score * 0.7 + semantic_score * 0.3)] *)
Definition blended_score (score semantic_score : Z) : option Z :=
  int_of_float_opt
    (PrimFloat.add (PrimFloat.mul (float_of_Z score) 0.7%float)
                   (PrimFloat.mul (float_of_Z semantic_score) 0.3%float)).

(** The loop body of [semantic_search]; [None] when it raises. *)
Definition blend (E : Env) (question_embedding : list float) (c : candidate)
    : option candidate :=
  similarity ← cosine_similarity E question_embedding (default [] (c_embedding c));
  semantic_score ← int_of_float_opt (PrimFloat.mul similarity (float_of_Z 100));
  score ← blended_score (c_score c) semantic_score;
  Some (set_semantic_score (set_score c score) semantic_score).

(** The loop over the candidates that carry an embedding, run on the
    whole list: the list after the loop, and whether the loop raised
    (the results it had already updated stay updated). *)
Fixpoint blend_all (E : Env) (question_embedding : list float)
    (cs : list candidate) : list candidate * bool :=
  match cs with
  | [] => ([], false)
  | c :: rest =>
      if has_embedding c then
        match blend E question_embedding c with
        | None => (cs, true)
        | Some c' =>
            let '(rest', raised) := blend_all E question_embedding rest in
            (c' :: rest', raised)
        end
      else
        let '(rest', raised) := blend_all E question_embedding rest in
        (c :: rest', raised)
  end.

Definition semantic_search (E : Env) (question : pystr)
    (candidates : list candidate) : list candidate :=
  if is_empty question || is_empty candidates then candidates
  else if negb (ENABLE_SEMANTIC_SEARCH E) then candidates
  else if negb (existsb has_embedding candidates) then candidates
  else if negb (HAS_OPENAI E) || negb (HAS_NUMPY E) then candidates
  else
    match embeddings_create E question with
    | None => candidates
    | Some question_embedding =>
        let '(cs, raised) := blend_all E question_embedding candidates in
        if raised then cs
        else sort_desc Z.ltb c_score (List.filter has_embedding cs)
    end.

(* ===================================================================== *)
(** ** Breaking ties by mentions *)
(* ===================================================================== *)

Definition _tokenize_query_keywords (question : pystr)
    (extracted_keywords : option (list pystr)) : list pystr :=
  match extracted_keywords with
  | Some ((_ :: _) as kws) =>
      ordered_unique
        (flat_map (fun kw => List.map strip (split_ws (normalize_text kw 3))) kws)
  | _ =>
      let expanded :=
        flat_map
          (fun w => if startswith w [VAV] && (2 <? Z.of_nat (length w))
                    then [w; drop 1 w] else [w])
          (question_words question) in
      ordered_unique (List.filter (fun t => negb (is_empty t)) expanded)
  end.

Definition _rank_ties_by_keyword_mentions (results : list candidate)
    (tokens : list pystr) : list candidate :=
  match results, tokens with
  | [], _ | _, [] => results
  | _, _ =>
      sort_desc lt_pair
        (fun r => (c_score r, _count_keyword_mentions_in_text (c_text r) tokens))
        results
  end.

(* ===================================================================== *)
(** ** search_maamar *)
(* ===================================================================== *)

(** [s[1:-1]] *)
Definition strip_ends (s : pystr) : pystr := removelast (drop 1 s).

Definition ends_with (s : pystr) (c : Z) : bool :=
  match last s with Some x => x =? c | None => false end.

(** Is the title wrapped in ASCII double quotes? *)
Definition is_quoted (maamar_name : pystr) : bool :=
  negb (is_empty maamar_name)
  && startswith (strip maamar_name) [DQUOTE]
  && ends_with (strip maamar_name) DQUOTE.

(** The parameters after the first block of [search_maamar]: the flag
    [exact_match_only], the cleaned title and the normalized year. *)
Definition prepare (maamar_name : pystr) (year : option pystr)
    : bool * pystr * option pystr :=
  let exact_match_only := is_quoted maamar_name in
  let maamar_name :=
    if exact_match_only then strip_ends (strip maamar_name) else maamar_name in
  let maamar_name :=
    if is_empty maamar_name then maamar_name
    else clean_maamar_name (strip maamar_name) in
  let year_given := match year with Some (_ :: _) => true | _ => false end in
  let '(maamar_name, year) :=
    if negb (is_empty maamar_name) && negb year_given then
      match extract_year_from_text maamar_name with
      | (cleaned, Some ((_ :: _) as y)) => (cleaned, Some y)
      | _ => (maamar_name, year)
      end
    else (maamar_name, year) in
  let year_normalized :=
    match year with
    | Some ((_ :: _) as y) => Some (normalize_year y)
    | _ => None
    end in
  (exact_match_only, maamar_name, year_normalized).

Definition year_only_candidate (entry : pystr * maamar) : candidate :=
  let '(key, m) := entry in
  {| c_key := key; c_name := m_name m;
     c_year := m_year_or_empty m;
     c_filename := m_filename m; c_text := m_text m;
     c_keywords_all := m_keywords_all m; c_keywords_all_normalized := [];
     c_embedding := m_embedding m;
     c_score := 100; c_fuzzy_score := 0;
     c_keyword_score := 0; c_semantic_score := 0;
     c_words_found := None; c_total_words := None;
     c_matched_keywords := None; c_matched_keyword_counts := None;
     c_min_kw_count := None; c_sum_kw_count := None; c_title_rank := None |}.

Definition general_candidate (entry : pystr * maamar) : candidate :=
  let '(key, m) := entry in
  {| c_key := key; c_name := m_name m; c_year := None;
     c_filename := m_filename m; c_text := m_text m;
     c_keywords_all := m_keywords_all m; c_keywords_all_normalized := [];
     c_embedding := m_embedding m;
     c_score := 50; c_fuzzy_score := 0;
     c_keyword_score := 0; c_semantic_score := 0;
     c_words_found := None; c_total_words := None;
     c_matched_keywords := None; c_matched_keyword_counts := None;
     c_min_kw_count := None; c_sum_kw_count := None; c_title_rank := None |}.

(** The stages shared by the year-only and the question-only branch:
    keyword reranking, the semantic blend when asked for, and the
    ordering of ties. *)
Definition rank_by_question (E : Env) (question : pystr) (use_semantic : bool)
    (results : list candidate) (w : world) : outcome (list candidate) * world :=
  match keyword_search E question results false None w with
  | (Raised, w) => (Raised, w)
  | (Returns (results, extracted_keywords), w) =>
      let results :=
        if use_semantic && existsb has_embedding results
        then semantic_search E question results else results in
      let tokens := _tokenize_query_keywords question extracted_keywords in
      (Returns (_rank_ties_by_keyword_mentions results tokens), w)
  end.

(** The filter of the year-only branch. *)
Definition apply_min_score (min_score : Z) (results : list candidate)
    : list candidate :=
  if 0 <? min_score
  then List.filter (fun r => min_score <=? c_score r) results
  else results.

(** The loop of the year-only branch over the corpus.  The year of each
    record goes through [re.sub], which raises [TypeError] on a stored
    [None]: the loop stops at the first such record. *)
Fixpoint year_only_scan (year_normalized : pystr) (maamarim : corpus)
    : outcome (list candidate) :=
  match maamarim with
  | [] => Returns []
  | entry :: rest =>
      match m_year_or_empty entry.2 with
      | None => Raised
      | Some maamar_year =>
          match year_only_scan year_normalized rest with
          | Raised => Raised
          | Returns results =>
              Returns
                (if str_eqb (normalize_year maamar_year) year_normalized
                 then year_only_candidate entry :: results
                 else results)
          end
      end
  end.

Definition year_only_branch (E : Env) (maamarim : corpus)
    (year_normalized question : pystr) (max_results min_score : Z)
    (use_semantic : bool) (w : world) : outcome (list candidate) * world :=
  match year_only_scan year_normalized maamarim with
  | Raised => (Raised, w)
  | Returns results =>
      let '(ranked, w) :=
        if negb (is_empty question) && negb (is_empty results)
        then rank_by_question E question use_semantic results w
        else (Returns results, w) in
      match ranked with
      | Raised => (Raised, w)
      | Returns results =>
          (Returns (slice_to max_results (apply_min_score min_score results)), w)
      end
  end.

(** The year filter of the title branch. *)
Definition matches_year (year_normalized : pystr) (r : candidate) : bool :=
  let maamar_year :=
    match c_year r with
    | Some ((_ :: _) as y) => Some y
    | _ => year_pattern_in (c_name r)
    end in
  match maamar_year with
  | Some y => str_eqb (normalize_year y) year_normalized
  | None => false
  end.

Definition filter_by_year (year_normalized : option pystr)
    (results : list candidate) : list candidate :=
  match year_normalized, results with
  | Some ((_ :: _) as y), _ :: _ => List.filter (matches_year y) results
  | _, _ => results
  end.

(** The underscore fields computed for one result from the extracted
    keywords. *)
Definition title_rank_of (E : Env) (extracted_keywords : list pystr)
    (r : candidate) : title_rank :=
  let keyword_counts :=
    _count_phrase_mentions_in_text E (c_text r) extracted_keywords in
  let found :=
    Z.of_nat (length (List.filter (fun kw => 0 <? count_of keyword_counts kw)
                        extracted_keywords)) in
  {| matched_keywords_count := found;
     matched_keywords_total :=
       fold_right Z.add 0 (List.map (count_of keyword_counts) extracted_keywords);
     title_keyword_counts := keyword_counts;
     has_all_keywords := found =? Z.of_nat (length extracted_keywords) |}.

(** [sort_key] of the title branch. *)
Definition title_sort_key (r : candidate) : float * bool * Z :=
  let words_found := words_found_of r in
  let total_words := total_words_of r in
  let words_percentage :=
    if 0 <? total_words
    then PrimFloat.mul (truediv words_found total_words) (float_of_Z 100)
    else float_of_Z (if words_found =? 0 then 0 else 100) in
  (words_percentage,
   match c_title_rank r with Some t => has_all_keywords t | None => false end,
   match c_title_rank r with Some t => matched_keywords_total t | None => 0 end).

(** The re-ranking of the title branch when a question came with the
    title. *)
Definition rank_title_by_question (E : Env) (question : pystr)
    (results : list candidate) (w : world) : list candidate * world :=
  if negb (is_empty question) && negb (is_empty results) then
    match extract_keywords_from_question E question w with
    | (Some ((_ :: _) as kws), w) =>
        (sort_desc lt_rank title_sort_key
           (List.map (fun r => set_title_rank r (title_rank_of E kws r)) results),
         w)
    | (_, w) => (sort_desc Z.ltb words_found_of results, w)
    end
  else (results, w).

Definition is_perfect_match (total_words : Z) (r : candidate) : bool :=
  total_words <=? words_found_of r.

(** The title the word-set matcher is called with: the text before the
    first quote-marked word, or the whole title when that is empty. *)
Definition clean_name_of (maamar_name : pystr) : pystr :=
  match extract_maamar_name_only maamar_name with
  | [] => maamar_name
  | n => n
  end.

(** The candidates the title branch works on: the word-set matches cut
    to [top_n], then filtered by year. *)
Definition title_candidates (E : Env) (maamarim : corpus)
    (maamar_name : pystr) (year_normalized : option pystr) (max_results : Z)
    : list candidate :=
  let top_n := if 0 <? max_results then max_results * 2 else 1000 in
  filter_by_year year_normalized
    (mara_makom_word_match_search E (clean_name_of maamar_name) maamarim top_n).

Definition title_branch (E : Env) (maamarim : corpus) (maamar_name : pystr)
    (year_normalized : option pystr) (question : pystr) (max_results : Z)
    (w : world) : list candidate * world :=
  match title_candidates E maamarim maamar_name year_normalized max_results with
  | [] => ([], w)
  | (first :: _) as results =>
      let max_words_found :=
        fold_right Z.max (words_found_of first) (List.map words_found_of results) in
      let total_words := total_words_of first in
      let is_perfect := negb (total_words =? 0) && (total_words <=? max_words_found) in
      let '(results, w) := rank_title_by_question E question results w in
      if is_perfect then
        let perfect_results := List.filter (is_perfect_match total_words) results in
        if max_results <=? 0 then (perfect_results, w)
        else (slice_to max_results perfect_results, w)
      else
        let limit := if 0 <? max_results then max_results else 3 in
        (slice_to limit results, w)
  end.

Definition question_only_branch (E : Env) (maamarim : corpus)
    (question : pystr) (max_results : Z) (use_semantic : bool) (w : world)
    : outcome (list candidate) * world :=
  match question with
  | [] => (Returns [], w)
  | _ =>
      match rank_by_question E question use_semantic
              (List.map general_candidate maamarim) w with
      | (Raised, w) => (Raised, w)
      | (Returns results, w) => (Returns (slice_to max_results results), w)
      end
  end.

Definition search_maamar (E : Env) (maamarim : corpus) (maamar_name : pystr)
    (year : option pystr) (question : pystr) (max_results min_score : Z)
    (use_semantic : bool) (w : world) : outcome (list candidate) * world :=
  let '(exact_match_only, maamar_name, year_normalized) :=
    prepare maamar_name year in
  let has_maamar_name := negb (is_empty (strip maamar_name)) in
  match year_normalized, has_maamar_name with
  | Some ((_ :: _) as y), false =>
      year_only_branch E maamarim y question max_results min_score use_semantic w
  | _, true =>
      let '(results, w) :=
        title_branch E maamarim maamar_name year_normalized question max_results w in
      (Returns results, w)
  | _, false =>
      question_only_branch E maamarim question max_results use_semantic w
  end.

(* ===================================================================== *)
(** ** fuzzy_search_name *)
(* ===================================================================== *)

(** An inner loop of the positional matcher: the index at which the
    scan of the name words stops, if it meets the query word. *)
Fixpoint find_word (q : pystr) (j : nat) (name_words : list pystr) : option nat :=
  match name_words with
  | [] => None
  | name_word :: rest =>
      if str_eqb q name_word then Some j else find_word q (S j) rest
  end.

(** What the three rounds settle for one query word. *)
Record word_match := WordMatch {
  wm_found : bool;
  wm_position : option nat;
  wm_penalty : Z
}.

(** The body of the loop over the query words. *)
Definition match_query_word (q0 q1 q2 : pystr)
    (name_words_level0 name_words_level1 name_words_level2 : list pystr)
    : word_match :=
  match find_word q0 0 name_words_level0 with
  | Some j => WordMatch true (Some j) 0
  | None =>
      match (if negb (str_eqb q1 q0) then find_word q1 0 name_words_level1
             else None) with
      | Some j => WordMatch true (Some j) 5
      | None =>
          match (if negb (str_eqb q2 q1) then find_word q2 0 name_words_level2
                 else None) with
          | Some j => WordMatch true (Some j) 5
          | None => WordMatch false None 0
          end
      end
  end.

(** [words[i] if i < len(words) else fallback] *)
Definition word_at (words : list pystr) (i : nat) (fallback : pystr) : pystr :=
  default fallback (words !! i).

(** The loop over the query words: found count, in-order count, total
    penalty. *)
Fixpoint match_query_words (i : nat) (query_words ql1 ql2 n0 n1 n2 : list pystr)
    : Z * Z * Z :=
  match query_words with
  | [] => (0, 0, 0)
  | q0 :: rest =>
      let m := match_query_word q0 (word_at ql1 i q0) (word_at ql2 i q0) n0 n1 n2 in
      let '(found, in_order, penalty) :=
        match_query_words (S i) rest ql1 ql2 n0 n1 n2 in
      ((if wm_found m then 1 else 0) + found,
       (if bool_decide (wm_position m = Some i) then 1 else 0) + in_order,
       wm_penalty m + penalty)
  end.

Definition fuzzy_candidate (E : Env) (q0s q1s q2s : list pystr)
    (entry : pystr * maamar) : option candidate :=
  let '(key, m) := entry in
  match m_name m with
  | [] => None
  | name =>
      let name_expanded := expand_abbreviations E name in
      let n0 := split_ws (normalize_text name_expanded 0) in
      let n1 := split_ws (normalize_text name_expanded 1) in
      let n2 := split_ws (normalize_text name_expanded 2) in
      match n0 with
      | [] => None
      | first_name_word :: _ =>
          let '(words_found_count, words_in_order, total_penalty) :=
            match_query_words 0 q0s q1s q2s n0 n1 n2 in
          if words_found_count =? 0 then None
          else
            let n := Z.of_nat (length q0s) in
            let base_score := percent words_found_count n in
            let order_bonus :=
              int_of_float (PrimFloat.mul (truediv words_in_order n) (float_of_Z 10)) in
            let first_word_bonus :=
              if bool_decide (head q0s = Some first_name_word) then 10 else 0 in
            let score :=
              Z.max 0 (Z.min 100
                (base_score + order_bonus + first_word_bonus - total_penalty)) in
            if 0 <? score then
              Some {| c_key := key; c_name := name; c_year := m_year m;
                      c_filename := m_filename m; c_text := m_text m;
                      c_keywords_all := m_keywords_all m;
                      c_keywords_all_normalized := [];
                      c_embedding := m_embedding m;
                      c_score := score; c_fuzzy_score := score;
                      c_keyword_score := 0; c_semantic_score := 0;
                      c_words_found := Some words_found_count;
                      c_total_words := Some n;
                      c_matched_keywords := None;
                      c_matched_keyword_counts := None;
                      c_min_kw_count := None; c_sum_kw_count := None;
                      c_title_rank := None |}
            else None
      end
  end.

Definition fuzzy_search_name (E : Env) (maamar_name : pystr)
    (maamarim : corpus) (top_n : Z) : list candidate :=
  let expanded := expand_abbreviations E maamar_name in
  let q0s := split_ws (normalize_text expanded 0) in
  let q1s := split_ws (normalize_text expanded 1) in
  let q2s := split_ws (normalize_text expanded 2) in
  match q0s with
  | [] => []
  | _ =>
      slice_to top_n
        (sort_desc Z.ltb c_score (omap (fuzzy_candidate E q0s q1s q2s) maamarim))
  end.

(* ===================================================================== *)
(** ** Tables checked by evaluation *)
(* ===================================================================== *)

(** The integers [lo, lo + n). *)
Definition Zrange (lo : Z) (n : nat) : list Z :=
  List.map (fun i => lo + Z.of_nat i) (seq 0 n).

(** For up to 49 query words the float percentage is the integer
    quotient. *)
Definition percent_table : bool :=
  forallb
    (fun tw => forallb (fun wf => percent wf tw =? 100 * wf / tw)
                       (Zrange 0 (Z.to_nat tw + 1)))
    (Zrange 1 49).

(** For a keyword score within 0..100 the float bonus is a fifth of it. *)
Definition bonus_table : bool :=
  forallb (fun ks => keyword_bonus ks =? ks / 5) (Zrange 0 101).

(* ===================================================================== *)
(** ** The worlds a process can be in *)
(* ===================================================================== *)

(** The cache starts empty and only [extract_keywords_from_question]
    touches it. *)
Inductive reachable (E : Env) : world -> Prop :=
| reachable_start : reachable E (World ∅ [])
| reachable_call (w : world) (question : pystr) :
    reachable E w ->
    reachable E (extract_keywords_from_question E question w).2.

(** Nothing is cached under the key of this question. *)
Definition cache_miss (w : world) (question : pystr) : Prop :=
  strip question = [] \/ cache w !! strip question = None.

(** A word as [split] returns it: not empty, no blank inside. *)
Definition is_word_of_split (w : pystr) : Prop :=
  w <> [] /\ Forall (fun c => is_space c = false) w.

(* ===================================================================== *)
(** ** The chat-completions URL *)
(* ===================================================================== *)

(** [s.endswith(p)] *)
Definition endswith (s p : pystr) : bool := startswith (rev s) (rev p).

Fixpoint lstrip_char (c : Z) (s : pystr) : pystr :=
  match s with
  | x :: s' => if x =? c then lstrip_char c s' else s
  | [] => []
  end.

(** [s.rstrip(c)] for a one-character set. *)
Definition rstrip_char (c : Z) (s : pystr) : pystr :=
  rev (lstrip_char c (rev s)).

Definition SLASH : Z := 47.

(** The base is trimmed of blanks, then of trailing slashes; the version
    segment is added unless the base ends with it. *)
Definition _build_kimi_chat_completions_url (base_url : pystr) : pystr :=
  let base := rstrip_char SLASH (strip base_url) in
  if endswith base (u "/openai/v1") || endswith base (u "/v1")
  then base ++ u "/chat/completions"
  else base ++ u "/v1/chat/completions".

(* ===================================================================== *)
(** ** normalize_quotes *)
(* ===================================================================== *)

Definition normalize_quotes (text : pystr) : pystr :=
  match text with
  | [] => text
  | _ =>
      let text := replace text [GERESH] [SQUOTE] in
      let text := replace text [BACKTICK] [SQUOTE] in
      let text := replace text [PRIME] [SQUOTE] in
      let text := replace text [GERSHAYIM] [DQUOTE] in
      replace text [DPRIME] [DQUOTE]
  end.

(* ===================================================================== *)
(** ** search_by_year *)
(* ===================================================================== *)

(** The body of the loop of [search_by_year] for one record: the result
    it appends, if any.  The year is the [year] field when the record
    has one, else the first year token of the name. *)
Definition search_by_year_candidate (year_normalized : pystr)
    (entry : pystr * maamar) : option candidate :=
  let '(key, m) := entry in
  match m_name m with
  | [] => None
  | name =>
      let maamar_year :=
        match m_year m with
        | Some ((_ :: _) as y) => Some y
        | _ => year_pattern_in name
        end in
      match maamar_year with
      | Some y =>
          if str_eqb (normalize_year y) year_normalized then
            Some {| c_key := key; c_name := name; c_year := Some y;
                    c_filename := key; c_text := m_text m;
                    c_keywords_all := m_keywords_all m;
                    c_keywords_all_normalized := [];
                    c_embedding := None;
                    c_score := 100; c_fuzzy_score := 0;
                    c_keyword_score := 0; c_semantic_score := 0;
                    c_words_found := None; c_total_words := None;
                    c_matched_keywords := None;
                    c_matched_keyword_counts := None;
                    c_min_kw_count := None; c_sum_kw_count := None;
                    c_title_rank := None |}
          else None
      | None => None
      end
  end.

Definition search_by_year (maamarim : corpus) (year : pystr) (max_results : Z)
    : list candidate :=
  match maamarim with
  | [] => []
  | _ =>
      let year_normalized := normalize_year year in
      let results :=
        sort_asc lt_str c_name
          (omap (search_by_year_candidate year_normalized) maamarim) in
      if max_results <? Z.of_nat (length results)
      then slice_to max_results results
      else results
  end.

(* ===================================================================== *)
(** ** Vocabulary of the properties *)
(* ===================================================================== *)

(** Two results describe the same record of the corpus. *)
Definition same_record (r r' : candidate) : Prop :=
  c_key r = c_key r' /\ c_name r = c_name r' /\ c_year r = c_year r'
  /\ c_filename r = c_filename r' /\ c_text r = c_text r'
  /\ c_keywords_all r = c_keywords_all r'
  /\ c_embedding r = c_embedding r'.

(** A result was built from this record of the corpus. *)
Definition from_record (entry : pystr * maamar) (r : candidate) : Prop :=
  c_key r = entry.1 /\ c_name r = m_name entry.2
  /\ c_filename r = m_filename entry.2 /\ c_text r = m_text entry.2
  /\ c_keywords_all r = m_keywords_all entry.2
  /\ c_embedding r = m_embedding entry.2.

(** Best score first. *)
Definition score_descending (results : list candidate) : Prop :=
  StronglySorted (fun a b => c_score b <= c_score a) results.

(** For up to 200 keywords the float percentage of a part lies within
    0..100. *)
Definition percent_bounds_table : bool :=
  forallb
    (fun tw => forallb (fun wf => (0 <=? percent wf tw) && (percent wf tw <=? 100))
                       (Zrange 0 (Z.to_nat tw + 1)))
    (Zrange 1 200).

(** The blend of a score within 0..100 with a semantic score within
    -100..100 is an integer between -30 and 100, and is not negative
    when the semantic score is not. *)
Definition blend_bounds_table : bool :=
  forallb
    (fun s =>
       forallb
         (fun sem =>
            match blended_score s sem with
            | Some v => (-30 <=? v) && (v <=? 100) && ((sem <? 0) || (0 <=? v))
            | None => false
            end)
         (Zrange (-100) 201))
    (Zrange 0 101).

(** The world [w'] is [w], or [w] after one request that carried
    [question], with at most the cache entry of that question written. *)
Definition at_most_one_request (question : pystr) (w w' : world) : Prop :=
  w' = w
  \/ (posted w' = posted w ++ [question]
      /\ (cache w' = cache w
          \/ exists kws, cache w' = <[strip question := kws]> (cache w))).

(** Some alias of the phrase -- the phrase itself when it has none --
    occurs, normalized, in the normalized text. *)
Definition mentioned (E : Env) (text ph : pystr) : Prop :=
  Exists
    (fun a => normalize_text a 3 <> []
              /\ contains (normalize_text text 3) (normalize_text a 3) = true)
    (aliases_of E (strip ph)).

(* ===================================================================== *)
(** ** The search endpoint of [app.py] *)
(* ===================================================================== *)



(** What the handler hands to [inject_response] for a Humains request:
    a text under the key server_search, or the message of the exception
    under the key answer. *)
Inductive injection :=
| ServerSearch (text : pystr)
| AnswerError.





(* ===================================================================== *)
(** ** Sample environments and corpora *)
(* ===================================================================== *)

Module Examples.

Local Open Scope string_scope.

(** No abbreviation or alias table, the chat service unreachable, the
    semantic blend switched off.  In the sample data below no two
    distinct normalized keywords come near the similarity threshold of
    85, so a constant 0 stands for [fuzz.ratio]; the sample vectors have
    exact sums, so the products are summed from left to right. *)
Definition E_plain : Env := {|
  ABBREVIATIONS := [];
  KEYWORD_ALIASES := ∅;
  HAS_REQUESTS := true;
  KIMI_API_KEY := u "key";
  ENABLE_SEMANTIC_SEARCH := false;
  HAS_OPENAI := false;
  HAS_NUMPY := false;
  chat_completions := fun _ _ => TransportError;
  embeddings_create := fun _ => None;
  fuzz_ratio := fun _ _ => 0%float;
  np_dot := dot;
  np_linalg_norm := fun v => PrimFloat.sqrt (dot v v)
|}.

(** The chat service answers every question with the same three
    keywords; the semantic blend is on and every question embeds to the
    unit vector. *)
Definition E_service : Env := {|
  ABBREVIATIONS := [];
  KEYWORD_ALIASES := ∅;
  HAS_REQUESTS := true;
  KIMI_API_KEY := u "key";
  ENABLE_SEMANTIC_SEARCH := true;
  HAS_OPENAI := true;
  HAS_NUMPY := true;
  chat_completions := fun _ _ => Response 200 (Some (u "שכינה, דוד, מלך"));
  embeddings_create := fun _ => Some [1%float; 0%float];
  fuzz_ratio := fun _ _ => 0%float;
  np_dot := dot;
  np_linalg_norm := fun v => PrimFloat.sqrt (dot v v)
|}.

Definition w0 : world := World ∅ [].

Definition titled (name : pystr) : maamar :=
  Maamar name YearMissing [] [] [] None.

Definition titled_year (name year : pystr) : maamar :=
  Maamar name (YearStr year) [] [] [] None.

(** Three titles, two of which share a first word. *)
Definition three_titles : corpus :=
  [(u "a", titled (u "באתי לגני תשי״א"));
   (u "b", titled (u "ואברהם זקן תשל״ו"));
   (u "c", titled (u "באתי לביתי"))].

(** Two records that carry a year field. *)
Definition two_years : corpus :=
  [(u "a", titled_year (u "ואברהם זקן") (u "תשל״ו"));
   (u "b", titled_year (u "באתי לגני") (u "תשי״א"))].

(** Four titles that each share one or two words with the query
    [באתי לגני היום]. *)
Definition four_partial : corpus :=
  [(u "a", titled (u "באתי לגני"));
   (u "b", titled (u "באתי לביתי"));
   (u "c", titled (u "באתי אל העיר"));
   (u "d", titled (u "לגני ירדתי"))].

(** One thousand and one records that all carry the same title. *)
Definition many_same_title : corpus :=
  List.map (fun i => ([Z.of_nat i], titled (u "באתי לגני"))) (seq 0 1001).

(** A keyword table hit, an opposite embedding; no hit; a text hit. *)
Definition three_texts : corpus :=
  [(u "a", Maamar (u "א") YearMissing [] (u "שכינה בתחתונים") [u "שכינה"]
             (Some [(-1)%float; 0%float]));
   (u "b", Maamar (u "ב") YearMissing [] (u "דבר אחר") [u "משה"]
             (Some [1%float; 0%float]));
   (u "c", Maamar (u "ג") YearMissing [] (u "דוד") [] None)].

(** The same three records, each with the year field of one year. *)
Definition three_texts_of_year : corpus :=
  [(u "a", Maamar (u "א") (YearStr (u "תשי״א")) [] (u "שכינה בתחתונים") [u "שכינה"]
             (Some [(-1)%float; 0%float]));
   (u "b", Maamar (u "ב") (YearStr (u "תשי״א")) [] (u "דבר אחר") [u "משה"]
             (Some [1%float; 0%float]));
   (u "c", Maamar (u "ג") (YearStr (u "תשי״א")) [] (u "דוד") [] None)].

(** One title under three years, the year written in the name. *)
Definition one_title_three_years : corpus :=
  [(u "a", titled (u "באתי לגני תשי״א"));
   (u "b", titled (u "באתי לגני תשי״ב"));
   (u "c", titled (u "באתי לגני תשי״ג"))].

(** A record that holds [None] under [year], between two that hold a
    string. *)
Definition one_year_none : corpus :=
  [(u "a", titled_year (u "ואברהם זקן") (u "תשל״ו"));
   (u "b", Maamar (u "באתי לגני") YearNone [] [] [] None);
   (u "c", titled_year (u "באתי לגני") (u "תשי״א"))].

Definition scored (score fuzzy : Z) (text : pystr) (kws : list pystr) : candidate :=
  {| c_key := []; c_name := []; c_year := None; c_filename := [];
     c_text := text; c_keywords_all := kws; c_keywords_all_normalized := [];
     c_embedding := None;
     c_score := score; c_fuzzy_score := fuzzy;
     c_keyword_score := 0; c_semantic_score := 0;
     c_words_found := None; c_total_words := None;
     c_matched_keywords := None; c_matched_keyword_counts := None;
     c_min_kw_count := None; c_sum_kw_count := None; c_title_rank := None |}.

End Examples.

(* ===================================================================== *)
(** * Properties *)
(* ===================================================================== *)

(** ** Sorting keeps the elements *)

Section SortFacts.
Context {A : Type} (before : A -> A -> bool).

Lemma insert_stable_perm (x : A) (l : list A) :
  insert_stable before x l ≡ₚ x :: l.
Proof.
  induction l as [|y l IH]; simpl; [done|].
  destruct (before y x); [|done].
  rewrite IH. apply Permutation_swap.
Qed.

Lemma sort_stable_perm (l : list A) : sort_stable before l ≡ₚ l.
Proof.
  induction l as [|x l IH]; simpl; [done|].
  by rewrite insert_stable_perm, IH.
Qed.
End SortFacts.

Lemma sort_desc_perm {A K} (ltb : K -> K -> bool) (key : A -> K) (l : list A) :
  sort_desc ltb key l ≡ₚ l.
Proof. apply sort_stable_perm. Qed.

Lemma sort_asc_perm {A K} (ltb : K -> K -> bool) (key : A -> K) (l : list A) :
  sort_asc ltb key l ≡ₚ l.
Proof. apply sort_stable_perm. Qed.

Lemma Forall_slice_to {A} (P : A -> Prop) (n : Z) (l : list A) :
  Forall P l -> Forall P (slice_to n l).
Proof. intros H. unfold slice_to. destruct (0 <=? n); by apply Forall_take. Qed.

(** ** Counting query words *)

Lemma count_words_found_bounds (qw nw : list pystr) :
  0 <= count_words_found qw nw <= Z.of_nat (length qw).
Proof.
  unfold count_words_found. split; [lia|].
  apply inj_le. induction qw as [|w qw IH]; simpl; [lia|].
  destruct (str_in w nw); simpl; lia.
Qed.

Lemma count_words_found_full (qw nw : list pystr) :
  count_words_found qw nw = Z.of_nat (length qw) <-> Forall (fun w => w ∈ nw) qw.
Proof.
  unfold count_words_found. rewrite Nat2Z.inj_iff.
  induction qw as [|w qw IH]; simpl.
  - split; [constructor|done].
  - pose proof (List.filter_length_le (fun w => str_in w nw) qw) as Hle.
    unfold str_in at 1. destruct (bool_decide_reflect (w ∈ nw)) as [Hin|Hout]; simpl.
    + rewrite Forall_cons. split.
      * intros H. split; [done|]. apply IH. lia.
      * intros [_ H]. f_equal. by apply IH.
    + split; [lia|]. rewrite Forall_cons. tauto.
Qed.

(** The count depends on the name words only as a set: neither their
    order nor their repetitions matter. *)
Lemma count_words_found_set (qw nw nw' : list pystr) :
  (forall w, w ∈ nw <-> w ∈ nw') ->
  count_words_found qw nw = count_words_found qw nw'.
Proof.
  intros Hset. unfold count_words_found. do 2 f_equal.
  apply List.filter_ext. intros w. unfold str_in.
  apply bool_decide_ext, Hset.
Qed.

(** ** The word-set matcher *)

Lemma mara_makom_candidate_spec E qw key m r :
  qw <> [] ->
  mara_makom_candidate E qw (key, m) = Some r ->
  m_name m <> [] /\ c_key r = key /\ c_name r = m_name m /\ c_text r = m_text m
  /\ 0 < count_words_found qw (title_words E (m_name m))
  /\ c_words_found r = Some (count_words_found qw (title_words E (m_name m)))
  /\ c_total_words r = Some (Z.of_nat (length qw))
  /\ c_score r = percent (count_words_found qw (title_words E (m_name m)))
                         (Z.of_nat (length qw))
  /\ c_title_rank r = None.
Proof.
  intros Hqw. unfold mara_makom_candidate.
  destruct (m_name m) as [|ch name] eqn:Hname; [done|].
  destruct (count_words_found qw (title_words E (ch :: name)) <=? 0) eqn:Hwf; [done|].
  apply Z.leb_gt in Hwf.
  destruct (Z.of_nat (length qw) =? 0) eqn:Hlen.
  { apply Z.eqb_eq in Hlen. destruct qw; [done|simpl in Hlen; lia]. }
  intros [= <-]. simpl. by repeat split.
Qed.

Lemma mara_makom_candidate_complete E qw key m :
  m_name m <> [] ->
  0 < count_words_found qw (title_words E (m_name m)) ->
  is_Some (mara_makom_candidate E qw (key, m)).
Proof.
  intros Hname Hwf. unfold mara_makom_candidate.
  destruct (m_name m) as [|ch name]; [done|].
  destruct (count_words_found qw (title_words E (ch :: name)) <=? 0) eqn:Hle.
  { apply Z.leb_le in Hle. lia. }
  eauto.
Qed.

Lemma mara_makom_ranked_perm E name maamarim :
  name <> [] -> mara_makom_query_words E name <> [] ->
  mara_makom_ranked E name maamarim
    ≡ₚ omap (mara_makom_candidate E (mara_makom_query_words E name)) maamarim.
Proof.
  intros Hname Hqw. unfold mara_makom_ranked.
  destruct name; [done|].
  destruct (mara_makom_query_words E (z :: name)) eqn:Hq; [done|].
  apply sort_desc_perm.
Qed.

Lemma mara_makom_ranked_elem E name maamarim r :
  r ∈ mara_makom_ranked E name maamarim ->
  name <> [] /\ mara_makom_query_words E name <> []
  /\ exists key m, (key, m) ∈ maamarim
       /\ mara_makom_candidate E (mara_makom_query_words E name) (key, m) = Some r.
Proof.
  intros Hr.
  assert (name <> []) as Hname.
  { intros ->. by apply elem_of_nil in Hr. }
  assert (mara_makom_query_words E name <> []) as Hqw.
  { intros Hq. unfold mara_makom_ranked in Hr. destruct name; [done|].
    rewrite Hq in Hr. by apply elem_of_nil in Hr. }
  repeat split; [done..|].
  rewrite (mara_makom_ranked_perm E name maamarim Hname Hqw) in Hr.
  apply list_elem_of_omap in Hr as ([key m] & Hin & Hc). eauto.
Qed.

Lemma elem_of_slice_to {A} (x : A) (n : Z) (l : list A) :
  x ∈ slice_to n l -> x ∈ l.
Proof.
  unfold slice_to. destruct (0 <=? n); intros H;
    apply elem_of_take in H as (i & H & _); by eapply list_elem_of_lookup_2.
Qed.

(** ** Percentages *)

Lemma Zrange_In (lo : Z) (n : nat) (x : Z) :
  lo <= x < lo + Z.of_nat n -> In x (Zrange lo n).
Proof.
  intros Hx. unfold Zrange. apply in_map_iff.
  exists (Z.to_nat (x - lo)). split; [rewrite Z2Nat.id; lia|]. apply in_seq. lia.
Qed.

Lemma percent_floor_upto_49 (wf tw : Z) :
  1 <= tw <= 49 -> 0 <= wf <= tw -> percent wf tw = 100 * wf / tw.
Proof.
  intros Htw Hwf.
  assert (percent_table = true) as Htable by (vm_compute; reflexivity).
  unfold percent_table in Htable. rewrite forallb_forall in Htable.
  specialize (Htable tw (Zrange_In 1 49 tw ltac:(lia))).
  rewrite forallb_forall in Htable.
  specialize (Htable wf (Zrange_In 0 (Z.to_nat tw + 1) wf ltac:(lia))).
  by apply Z.eqb_eq in Htable.
Qed.

Lemma keyword_bonus_fifth (ks : Z) :
  0 <= ks <= 100 -> keyword_bonus ks = ks / 5.
Proof.
  intros Hks.
  assert (bonus_table = true) as Htable by (vm_compute; reflexivity).
  unfold bonus_table in Htable. rewrite forallb_forall in Htable.
  specialize (Htable ks (Zrange_In 0 101 ks ltac:(lia))).
  by apply Z.eqb_eq in Htable.
Qed.

(** ** C3 *)

(** C3, counterexample: a title that shares two of the three query
    words scores 66, where rounding two thirds of a hundred gives 67
    (and one of three scores 33). *)
Lemma mara_makom_score_not_rounded :
  List.map (fun r => (c_key r, c_score r, words_found_of r, total_words_of r))
    (mara_makom_word_match_search Examples.E_plain (u "באתי לגני דוד")
       Examples.three_titles 10)
  = [(u "a", 66, 2, 3); (u "c", 33, 1, 3)]
  /\ round_half_even (2 * 100) 3 = 67.
Proof. split; vm_compute; reflexivity. Qed.

(** C3, as amended: in mareh-makom word-set mode every result comes from
    a record that shares at least one normalized word with the query,
    its wordsFound is the number of query words present in the word set
    of the record's normalized name, and its score is
    int(wordsFound / totalWords * 100), the float quotient truncated
    toward zero, not rounded; every record with a non-empty name that
    shares a word is among the ranked matches; the count does not depend
    on the order or repetition of the name words; and for up to 49 query
    words the score is the integer quotient 100 * wordsFound div
    totalWords. *)
Theorem mara_makom_score_truncates E name maamarim top_n :
  let qw := mara_makom_query_words E name in
  let overlap (m : maamar) := count_words_found qw (title_words E (m_name m)) in
  Forall
    (fun r => exists key m,
       (key, m) ∈ maamarim /\ c_key r = key /\ c_name r = m_name m
       /\ 0 < overlap m
       /\ c_words_found r = Some (overlap m)
       /\ c_total_words r = Some (Z.of_nat (length qw))
       /\ c_score r = percent (overlap m) (Z.of_nat (length qw)))
    (mara_makom_word_match_search E name maamarim top_n)
  /\ (forall key m,
        (key, m) ∈ maamarim -> name <> [] -> m_name m <> [] -> 0 < overlap m ->
        exists r, r ∈ mara_makom_ranked E name maamarim
                  /\ c_key r = key /\ c_name r = m_name m
                  /\ c_score r = percent (overlap m) (Z.of_nat (length qw)))
  /\ (forall nw nw', (forall w, w ∈ nw <-> w ∈ nw') ->
        count_words_found qw nw = count_words_found qw nw')
  /\ (forall wf tw, 1 <= tw <= 49 -> 0 <= wf <= tw ->
        percent wf tw = 100 * wf / tw).
Proof.
  intros qw overlap. repeat split.
  - apply Forall_forall. intros r Hr.
    apply elem_of_slice_to, mara_makom_ranked_elem in Hr
      as (Hname & Hqw & key & m & Hin & Hc).
    apply mara_makom_candidate_spec in Hc as (_ & ? & ? & _ & ? & ? & ? & ? & _); [|done].
    exists key, m. by repeat split.
  - intros key m Hin Hname Hm Hpos.
    assert (qw <> []) as Hqw.
    { intros Hq. subst overlap. simpl in Hpos. rewrite Hq in Hpos.
      unfold count_words_found in Hpos. simpl in Hpos. lia. }
    destruct (mara_makom_candidate_complete E qw key m Hm Hpos) as [r Hr].
    exists r. split.
    + rewrite (mara_makom_ranked_perm E name maamarim Hname Hqw).
      apply list_elem_of_omap. by exists (key, m).
    + apply mara_makom_candidate_spec in Hr as (_ & ? & ? & _ & _ & _ & _ & ? & _); done.
  - apply count_words_found_set.
  - apply percent_floor_upto_49.
Qed.

(** C3, witness: the first of the three titles shares two of the three
    query words. *)
Lemma mara_makom_score_truncates_witness :
  exists r,
    r ∈ mara_makom_ranked Examples.E_plain (u "באתי לגני דוד") Examples.three_titles
    /\ c_key r = u "a" /\ c_score r = 66.
Proof.
  pose proof (mara_makom_score_truncates Examples.E_plain
                (u "באתי לגני דוד") Examples.three_titles 10) as H.
  cbv zeta in H. destruct H as (_ & H & _).
  destruct (H (u "a") (Examples.titled (u "באתי לגני תשי״א")))
    as (r & Hr & Hk & Hn & Hs).
  - constructor.
  - discriminate.
  - discriminate.
  - vm_compute. reflexivity.
  - exists r. split; [exact Hr|]. split; [exact Hk|].
    rewrite Hs. vm_compute. reflexivity.
Defined.

(** ** The title branch *)

Lemma filter_by_year_elem yn results r :
  r ∈ filter_by_year yn results -> r ∈ results.
Proof.
  unfold filter_by_year. destruct yn as [[|ch y]|]; [done| |done].
  destruct results; [done|].
  intros H. apply list_elem_of_In, filter_In in H as [H _]. by apply list_elem_of_In.
Qed.

(** What every candidate of the title branch carries. *)
Lemma title_candidates_elem E maamarim name yn L r :
  r ∈ title_candidates E maamarim name yn L ->
  let qw := mara_makom_query_words E (clean_name_of name) in
  qw <> []
  /\ exists key m,
       (key, m) ∈ maamarim /\ c_key r = key /\ c_name r = m_name m
       /\ words_found_of r = count_words_found qw (title_words E (m_name m))
       /\ total_words_of r = Z.of_nat (length qw)
       /\ c_title_rank r = None.
Proof.
  intros Hr qw. unfold title_candidates in Hr.
  apply filter_by_year_elem, elem_of_slice_to, mara_makom_ranked_elem in Hr
    as (_ & Hqw & key & m & Hin & Hc).
  split; [done|]. exists key, m.
  apply mara_makom_candidate_spec in Hc
    as (_ & ? & ? & _ & _ & Hwf & Htw & _ & ?); [|done].
  unfold words_found_of, total_words_of. rewrite Hwf, Htw. by repeat split.
Qed.

Lemma title_candidates_words E maamarim name yn L r :
  r ∈ title_candidates E maamarim name yn L ->
  let tw := Z.of_nat (length (mara_makom_query_words E (clean_name_of name))) in
  total_words_of r = tw /\ words_found_of r <= tw /\ 0 < tw.
Proof.
  intros Hr tw.
  apply title_candidates_elem in Hr as (Hqw & key & m & _ & _ & _ & Hwf & Htw & _).
  rewrite Hwf, Htw. repeat split.
  - apply count_words_found_bounds.
  - subst tw. destruct (mara_makom_query_words E (clean_name_of name)); [done|simpl; lia].
Qed.

(** The re-ranking rearranges the candidates and at most annotates them. *)
Lemma rank_title_by_question_perm E question results w :
  exists annotate,
    (forall r, forget_title_rank (annotate r) = forget_title_rank r)
    /\ (rank_title_by_question E question results w).1 ≡ₚ List.map annotate results.
Proof.
  unfold rank_title_by_question.
  destruct (negb (is_empty question) && negb (is_empty results)).
  - destruct (extract_keywords_from_question E question w) as [[[|kw kws]|] w'].
    + exists (fun r => r). split; [done|]. simpl. rewrite map_id. apply sort_desc_perm.
    + exists (fun r => set_title_rank r (title_rank_of E (kw :: kws) r)).
      split; [done|]. simpl. apply sort_desc_perm.
    + exists (fun r => r). split; [done|]. simpl. rewrite map_id. apply sort_desc_perm.
  - exists (fun r => r). split; [done|]. simpl. by rewrite map_id.
Qed.

Lemma forget_words_found r r' :
  forget_title_rank r = forget_title_rank r' ->
  words_found_of r = words_found_of r' /\ total_words_of r = total_words_of r'
  /\ c_key r = c_key r' /\ c_name r = c_name r' /\ c_score r = c_score r'.
Proof.
  intros H.
  change (words_found_of (forget_title_rank r) = words_found_of (forget_title_rank r')
          /\ total_words_of (forget_title_rank r) = total_words_of (forget_title_rank r')
          /\ c_key (forget_title_rank r) = c_key (forget_title_rank r')
          /\ c_name (forget_title_rank r) = c_name (forget_title_rank r')
          /\ c_score (forget_title_rank r) = c_score (forget_title_rank r')).
  by rewrite H.
Qed.

(** Every ranked result is a candidate, up to the annotation. *)
Lemma ranked_elem E question results w r :
  r ∈ (rank_title_by_question E question results w).1 ->
  exists r0, r0 ∈ results /\ forget_title_rank r = forget_title_rank r0.
Proof.
  intros Hr.
  destruct (rank_title_by_question_perm E question results w) as (ann & Hann & Hperm).
  rewrite Hperm in Hr. apply list_elem_of_fmap in Hr as (r0 & -> & Hr0).
  eauto.
Qed.

Lemma fold_max_bounds (x0 : Z) (xs : list Z) :
  (forall x, x ∈ xs -> x <= fold_right Z.max x0 xs)
  /\ (forall b, x0 <= b -> (forall x, x ∈ xs -> x <= b) -> fold_right Z.max x0 xs <= b).
Proof.
  induction xs as [|y xs [IH1 IH2]]; simpl.
  - split; [intros x Hx; by apply elem_of_nil in Hx|auto].
  - split.
    + intros x Hx. apply elem_of_cons in Hx as [->|Hx]; [lia|].
      specialize (IH1 x Hx). lia.
    + intros b Hb Hall. apply Z.max_lub.
      * apply Hall. constructor.
      * apply IH2; [done|]. intros x Hx. apply Hall. by constructor.
Qed.

(** The two ways out of the title branch, by whether some candidate
    has every query word. *)
Lemma title_branch_cases E maamarim name yn question L w :
  let cands := title_candidates E maamarim name yn L in
  let ranked := (rank_title_by_question E question cands w).1 in
  let tw := Z.of_nat (length (mara_makom_query_words E (clean_name_of name))) in
  cands <> [] ->
  (title_branch E maamarim name yn question L w).1
  = if existsb (fun r => tw <=? words_found_of r) cands
    then (if L <=? 0 then List.filter (is_perfect_match tw) ranked
          else slice_to L (List.filter (is_perfect_match tw) ranked))
    else slice_to (if 0 <? L then L else 3) ranked.
Proof.
  intros cands ranked tw Hne. unfold title_branch.
  fold cands. subst ranked.
  assert (forall r, r ∈ cands -> total_words_of r = tw /\ words_found_of r <= tw /\ 0 < tw)
    as Hwords by (intros r Hr; by apply title_candidates_words in Hr).
  destruct cands as [|first rest] eqn:Hc; [done|].
  destruct (Hwords first ltac:(constructor)) as (Htw & Hle & Hpos).
  rewrite Htw.
  set (mx := fold_right Z.max _ _).
  assert ((negb (tw =? 0) && (tw <=? mx))
          = existsb (fun r => tw <=? words_found_of r) (first :: rest)) as ->.
  { destruct (fold_max_bounds (words_found_of first)
                (List.map words_found_of (first :: rest))) as [Hub Hlub].
    fold mx in Hub, Hlub.
    replace (tw =? 0) with false by (symmetry; apply Z.eqb_neq; lia). simpl negb.
    rewrite andb_true_l.
    destruct (existsb _ (first :: rest)) eqn:Hex.
    - apply existsb_exists in Hex as (r & Hr & Hrw). apply Z.leb_le in Hrw.
      apply Z.leb_le. etrans; [exact Hrw|]. apply Hub.
      apply list_elem_of_fmap. exists r. split; [done|]. by apply list_elem_of_In.
    - apply Z.leb_gt.
      assert (forall r, r ∈ first :: rest -> words_found_of r <= tw - 1) as Hlt.
      { intros r Hr.
        assert (existsb (fun r => tw <=? words_found_of r) (first :: rest) = true
                \/ words_found_of r <= tw - 1) as [Habs|]; [|congruence|done].
        destruct (tw <=? words_found_of r) eqn:Hrw.
        - left. apply existsb_exists. exists r. split; [by apply list_elem_of_In|done].
        - right. apply Z.leb_gt in Hrw. lia. }
      assert (mx <= tw - 1); [|lia].
      apply Hlub.
      + apply Hlt. constructor.
      + intros x Hx. apply list_elem_of_fmap in Hx as (r & -> & Hr). by apply Hlt. }
  destruct (rank_title_by_question E question (first :: rest) w) as [ranked w'].
  destruct (existsb _ (first :: rest)); [destruct (L <=? 0)|]; reflexivity.
Qed.

(** ** C1 *)

(** C1, at two inputs where perfect matches are lost.  The word-set
    matcher is asked for 2 * resultLimit results, or for 1000 when
    resultLimit is non-positive, before the year filter runs and before
    the perfect matches are picked.  First input: 1001 records carry a
    title that holds the only query word and the limit is 0; 1000 records
    come back, each a perfect match, not all 1001.  Second input: three
    records carry the title of the query under three years, the query
    names the third year and the limit is 1; the matcher hands on the
    first two records, the year filter drops both and nothing comes
    back, although the third record holds every query word and is of the
    year asked for; with limit 2 that record is returned. *)
Theorem perfect_matches_lost_before_selection :
  (length
     (List.filter
        (fun e => forallb (fun w => str_in w (title_words Examples.E_plain (m_name e.2)))
                    (mara_makom_query_words Examples.E_plain
                       (clean_name_of (u "באתי"))))
        Examples.many_same_title) = 1001%nat
   /\ exists results,
        search_maamar Examples.E_plain Examples.many_same_title (u "באתי")
          None [] 0 0 true Examples.w0 = (Returns results, Examples.w0)
        /\ length results = 1000%nat
        /\ Forall (fun r => words_found_of r = total_words_of r) results)
  /\ (prepare (u "באתי לגני תשי״ג") None
      = (false, u "באתי לגני", Some (u "תשיג"))
     /\ List.map c_key
          (mara_makom_word_match_search Examples.E_plain
             (clean_name_of (u "באתי לגני")) Examples.one_title_three_years 2)
        = [u "a"; u "b"]
     /\ search_maamar Examples.E_plain Examples.one_title_three_years
          (u "באתי לגני תשי״ג") None [] 1 0 true Examples.w0
        = (Returns [], Examples.w0)
     /\ exists results,
          search_maamar Examples.E_plain Examples.one_title_three_years
            (u "באתי לגני תשי״ג") None [] 2 0 true Examples.w0
          = (Returns results, Examples.w0)
          /\ List.map (fun r => (c_key r, words_found_of r, total_words_of r))
               results = [(u "c", 2, 2)]).
Proof.
  split.
  - split; [vm_compute; reflexivity|].
    eexists. split; [vm_compute; reflexivity|].
    split; [vm_compute; reflexivity|].
    apply (bool_decide_unpack _). vm_compute. exact I.
  - split; [vm_compute; reflexivity|].
    split; [vm_compute; reflexivity|].
    split; [vm_compute; reflexivity|].
    eexists. split; vm_compute; reflexivity.
Qed.

Lemma slice_to_positive {A} (n : Z) (l : list A) :
  0 < n -> slice_to n l = take (Z.to_nat n) l.
Proof. intros Hn. unfold slice_to. by replace (0 <=? n) with true by (symmetry; apply Z.leb_le; lia). Qed.

(** What the title branch returns once the matcher has been cut and
    the year filter has run: whenever the candidates left include a
    record with wordsFound == totalWords, the returned list consists
    exactly of the perfect-overlap records among those candidates, in
    ranked order: all of them when resultLimit is non-positive,
    otherwise the first resultLimit of them.  The ranked list is a
    rearrangement of the candidates, and every returned record comes
    from a corpus record whose normalized name holds every normalized
    query word. *)
Lemma title_branch_perfect_match E maamarim name yn question L w :
  let cands := title_candidates E maamarim name yn L in
  let ranked := (rank_title_by_question E question cands w).1 in
  let perfect :=
    List.filter (fun r => words_found_of r =? total_words_of r) ranked in
  let result := (title_branch E maamarim name yn question L w).1 in
  Exists (fun r => words_found_of r = total_words_of r) cands ->
  result = (if L <=? 0 then perfect else take (Z.to_nat L) perfect)
  /\ (exists annotate,
        (forall r, forget_title_rank (annotate r) = forget_title_rank r)
        /\ ranked ≡ₚ List.map annotate cands)
  /\ Forall
       (fun r => exists key m,
          (key, m) ∈ maamarim /\ c_key r = key /\ c_name r = m_name m
          /\ Forall (fun w => w ∈ title_words E (m_name m))
               (mara_makom_query_words E (clean_name_of name)))
       result.
Proof.
  intros cands ranked perfect result Hex.
  set (tw := Z.of_nat (length (mara_makom_query_words E (clean_name_of name)))).
  assert (forall r, r ∈ ranked ->
            exists r0, r0 ∈ cands /\ forget_title_rank r = forget_title_rank r0
                       /\ total_words_of r = tw /\ words_found_of r <= tw) as Hranked.
  { intros r Hr. apply ranked_elem in Hr as (r0 & Hr0 & Hf).
    exists r0. split; [done|]. split; [done|].
    apply forget_words_found in Hf as (-> & -> & _).
    by apply title_candidates_words in Hr0 as (? & ? & _). }
  assert (List.filter (is_perfect_match tw) ranked = perfect) as Hperfect.
  { apply List.filter_ext_in. intros r Hr. apply list_elem_of_In in Hr.
    destruct (Hranked r Hr) as (_ & _ & _ & Htw & Hle).
    unfold is_perfect_match. rewrite Htw.
    destruct (Z.eqb_spec (words_found_of r) tw); [apply Z.leb_le|apply Z.leb_gt]; lia. }
  assert (result = if L <=? 0 then perfect else take (Z.to_nat L) perfect) as Hres.
  { subst result. rewrite title_branch_cases.
    - fold cands tw ranked.
      replace (existsb _ cands) with true.
      + rewrite Hperfect. destruct (Z.leb_spec L 0); [done|].
        by apply slice_to_positive.
      + symmetry. apply Exists_exists in Hex as (r & Hr & Hrw).
        apply existsb_exists. exists r. split; [by apply list_elem_of_In|].
        apply title_candidates_words in Hr as (Htw & _).
        apply Z.leb_le. fold tw in Htw. lia.
    - fold cands. intros Hnil. rewrite Hnil in Hex. by apply Exists_nil in Hex. }
  split; [done|]. split; [apply rank_title_by_question_perm|].
  rewrite Hres. apply Forall_forall. intros r Hr.
  assert (r ∈ perfect) as Hp.
  { destruct (L <=? 0); [done|].
    apply elem_of_take in Hr as (i & Hi & _). by eapply list_elem_of_lookup_2. }
  subst perfect. apply list_elem_of_In, filter_In in Hp as [Hin Heq].
  apply Z.eqb_eq in Heq. apply list_elem_of_In in Hin.
  destruct (Hranked r Hin) as (r0 & Hr0 & Hf & _).
  apply forget_words_found in Hf as (Hwf & Htw & Hkey & Hname & _).
  apply title_candidates_elem in Hr0
    as (_ & key & m & Hm & Hk & Hn & Hwf0 & Htw0 & _).
  exists key, m. repeat split; [done|congruence|congruence|].
  apply count_words_found_full. congruence.
Qed.

(** Two query words, both in the first of three titles. *)
Lemma title_branch_perfect_match_witness :
  List.map c_key
    (title_branch Examples.E_plain Examples.three_titles (u "באתי לגני") None []
       5 Examples.w0).1
  = [u "a"].
Proof.
  pose proof (title_branch_perfect_match Examples.E_plain Examples.three_titles
                (u "באתי לגני") None [] 5 Examples.w0) as H.
  cbv zeta in H. destruct H as (Hres & _).
  - apply (bool_decide_unpack _). vm_compute. exact I.
  - rewrite Hres. vm_compute. reflexivity.
Defined.

(** ** C8 *)

(** C8, counterexample: four titles share one or two of three query
    words, none all three; with resultLimit 2 the first two of the four
    ranked candidates come back, not the first max(2, 3). *)
Lemma title_branch_partial_limit_two :
  let cands :=
    title_candidates Examples.E_plain Examples.four_partial
      (u "באתי לגני היום") None 2 in
  let ranked := (rank_title_by_question Examples.E_plain [] cands Examples.w0).1 in
  let result :=
    (title_branch Examples.E_plain Examples.four_partial (u "באתי לגני היום")
       None [] 2 Examples.w0).1 in
  List.map (fun r => (c_key r, words_found_of r, total_words_of r)) ranked
  = [(u "a", 2, 3); (u "b", 1, 3); (u "d", 1, 3); (u "c", 1, 3)]
  /\ List.map c_key result = [u "a"; u "b"]
  /\ List.map c_key (take (Z.to_nat (Z.max 2 3)) ranked) = [u "a"; u "b"; u "d"].
Proof. repeat split; vm_compute; reflexivity. Qed.

(** C8, as amended: in the title-present branch, when some candidate
    remains after ranking and year filtering and none attains perfect
    word overlap, the returned list is the first resultLimit elements of
    the ranked candidate list for a positive resultLimit, and the first
    3 for a non-positive one. *)
Theorem title_branch_partial_match E maamarim name yn question L w :
  let cands := title_candidates E maamarim name yn L in
  let ranked := (rank_title_by_question E question cands w).1 in
  cands <> [] ->
  Forall (fun r => words_found_of r < total_words_of r) cands ->
  (title_branch E maamarim name yn question L w).1
  = take (Z.to_nat (if 0 <? L then L else 3)) ranked.
Proof.
  intros cands ranked Hne Hall.
  rewrite title_branch_cases by done. fold cands ranked.
  replace (existsb _ cands) with false.
  - apply slice_to_positive. destruct (Z.ltb_spec 0 L); lia.
  - symmetry. apply not_true_is_false. intros Hex.
    apply existsb_exists in Hex as (r & Hr & Hrw). apply Z.leb_le in Hrw.
    apply list_elem_of_In in Hr.
    rewrite Forall_forall in Hall. specialize (Hall r Hr).
    apply title_candidates_words in Hr as (Htw & _). lia.
Qed.

(** C8, witness: the four partial matches, resultLimit 2. *)
Lemma title_branch_partial_match_witness :
  List.map c_key
    (title_branch Examples.E_plain Examples.four_partial (u "באתי לגני היום")
       None [] 2 Examples.w0).1
  = [u "a"; u "b"].
Proof.
  pose proof (title_branch_partial_match Examples.E_plain Examples.four_partial
                (u "באתי לגני היום") None [] 2 Examples.w0) as H.
  cbv zeta in H. rewrite H.
  - vm_compute. reflexivity.
  - vm_compute. discriminate.
  - apply (bool_decide_unpack _). vm_compute. exact I.
Defined.

(** ** The keyword cache *)

Lemma lookup_key_miss (w : world) (question : pystr) :
  cache_miss w question ->
  (if is_empty (strip question) then None else cache w !! strip question) = None.
Proof. intros [->|H]; [done|]. by destruct (is_empty _). Qed.

(** A hit answers from the cache and changes nothing. *)
Lemma extract_hit E question w kws :
  strip question <> [] -> cache w !! strip question = Some kws ->
  extract_keywords_from_question E question w = (Some kws, w).
Proof.
  intros Hne Hhit. unfold extract_keywords_from_question.
  destruct (strip question); [done|]. simpl. by rewrite Hhit.
Qed.

(** Without the dependency or the credentials a miss fails at once. *)
Lemma extract_unavailable E question w :
  cache_miss w question ->
  HAS_REQUESTS E = false \/ KIMI_API_KEY E = [] ->
  extract_keywords_from_question E question w = (None, w).
Proof.
  intros Hmiss Hcred. unfold extract_keywords_from_question.
  rewrite (lookup_key_miss _ _ Hmiss).
  destruct Hcred as [-> | ->]; [done|]. by destruct (HAS_REQUESTS E).
Qed.

(** With both, a miss posts the question and the answer decides. *)
Lemma extract_posts E question w :
  cache_miss w question ->
  HAS_REQUESTS E = true -> KIMI_API_KEY E <> [] ->
  extract_keywords_from_question E question w
  = let w1 := post w question in
    match chat_completions E (length (posted w)) question with
    | TransportError => (None, w1)
    | Response status content =>
        if status =? 200 then
          match content with
          | None => (None, w1)
          | Some body =>
              if str_eqb (lower (strip body)) NONE_ANSWER
              then (Some [], cache_store w1 (strip question) [])
              else (Some (parse_keywords (strip body)),
                    if is_empty (strip question) then w1
                    else cache_store w1 (strip question) (parse_keywords (strip body)))
          end
        else (None, w1)
    end.
Proof.
  intros Hmiss Hreq Hkey. unfold extract_keywords_from_question.
  rewrite (lookup_key_miss _ _ Hmiss), Hreq.
  destruct (KIMI_API_KEY E); [done|]. reflexivity.
Qed.

Lemma hit_or_miss (w : world) (question : pystr) :
  (strip question <> [] /\ exists kws, cache w !! strip question = Some kws)
  \/ cache_miss w question.
Proof.
  unfold cache_miss. destruct (strip question) as [|c s] eqn:Hs; [by right; left|].
  destruct (cache w !! (c :: s)) as [kws|] eqn:Hc; [left; eauto|by right; right].
Qed.

(** While the dependency or the credentials are missing the cache stays
    empty. *)
Lemma reachable_unavailable E w :
  reachable E w ->
  HAS_REQUESTS E = false \/ KIMI_API_KEY E = [] ->
  cache w = ∅.
Proof.
  intros Hreach Hcred. induction Hreach as [|w question Hreach IH]; [done|].
  destruct (hit_or_miss w question) as [(Hne & kws & Hhit)|Hmiss].
  - by rewrite (extract_hit E question w kws).
  - by rewrite extract_unavailable.
Qed.

Lemma credentials_cases E :
  (HAS_REQUESTS E = false \/ KIMI_API_KEY E = [])
  \/ (HAS_REQUESTS E = true /\ KIMI_API_KEY E <> []).
Proof.
  destruct (HAS_REQUESTS E); [|by left; left].
  destruct (KIMI_API_KEY E); [by left; right|by right].
Qed.

(** A call that reaches the service records the request. *)
Lemma extract_posted E question w :
  cache_miss w question ->
  HAS_REQUESTS E = true -> KIMI_API_KEY E <> [] ->
  posted (extract_keywords_from_question E question w).2 = posted w ++ [question].
Proof.
  intros Hmiss Hreq Hkey. rewrite extract_posts by done. cbv zeta.
  destruct (chat_completions E (length (posted w)) question) as [|status [body|]];
    [done| |by destruct (status =? 200)].
  destruct (status =? 200); [|done].
  destruct (str_eqb _ _); [done|]. by destruct (is_empty _).
Qed.

(** The cache changes only after a 200 answer with a readable body. *)
Lemma cache_write_needs_success E question w :
  reachable E w ->
  cache (extract_keywords_from_question E question w).2 <> cache w ->
  exists body kws,
    chat_completions E (length (posted w)) question = Response 200 (Some body)
    /\ posted (extract_keywords_from_question E question w).2 = posted w ++ [question]
    /\ (extract_keywords_from_question E question w).1 = Some kws
    /\ cache (extract_keywords_from_question E question w).2
       = <[strip question := kws]> (cache w).
Proof.
  intros Hreach Hchanged.
  destruct (hit_or_miss w question) as [(Hne & kws & Hhit)|Hmiss].
  { by rewrite (extract_hit E question w kws) in Hchanged. }
  destruct (credentials_cases E) as [Hcred|[Hreq Hkey]].
  { by rewrite extract_unavailable in Hchanged. }
  pose proof (extract_posted E question w Hmiss Hreq Hkey) as Hposted.
  revert Hposted Hchanged. rewrite extract_posts by done. cbv zeta.
  destruct (chat_completions E (length (posted w)) question) as [|status [body|]];
    [done| |by destruct (status =? 200)].
  destruct (Z.eqb_spec status 200) as [->|]; [|done].
  destruct (str_eqb _ _); [by eauto 10|].
  destruct (is_empty (strip question)); [done|]. by eauto 10.
Qed.

(** The literal none answer is a success: the empty list is returned and
    cached. *)
Lemma none_answer_cached E question w body :
  cache_miss w question ->
  HAS_REQUESTS E = true -> KIMI_API_KEY E <> [] ->
  chat_completions E (length (posted w)) question = Response 200 (Some body) ->
  lower (strip body) = NONE_ANSWER ->
  (extract_keywords_from_question E question w).1 = Some []
  /\ cache (extract_keywords_from_question E question w).2 !! strip question = Some [].
Proof.
  intros Hmiss Hreq Hkey Hans Hnone.
  rewrite extract_posts by done. cbv zeta. rewrite Hans. simpl.
  unfold str_eqb. rewrite bool_decide_eq_true_2 by done. simpl.
  split; [done|]. apply lookup_insert_eq.
Qed.

(** A transport failure or a status other than 200 is the failure
    signal, and the cache is left alone. *)
Lemma failed_call_not_cached E question w :
  cache_miss w question ->
  chat_completions E (length (posted w)) question = TransportError
  \/ (exists status content,
        chat_completions E (length (posted w)) question = Response status content
        /\ status <> 200) ->
  (extract_keywords_from_question E question w).1 = None
  /\ cache (extract_keywords_from_question E question w).2 = cache w.
Proof.
  intros Hmiss Hfail.
  destruct (credentials_cases E) as [Hcred|[Hreq Hkey]].
  { by rewrite extract_unavailable. }
  rewrite extract_posts by done. cbv zeta.
  destruct Hfail as [->|(status & content & -> & Hst)]; [done|].
  by replace (status =? 200) with false by (symmetry; by apply Z.eqb_neq).
Qed.

(** After the failure signal the question is still a miss. *)
Lemma failure_keeps_miss E question w :
  (extract_keywords_from_question E question w).1 = None ->
  cache_miss (extract_keywords_from_question E question w).2 question.
Proof.
  intros Hnone.
  destruct (hit_or_miss w question) as [(Hne & kws & Hhit)|Hmiss].
  { by rewrite (extract_hit E question w kws) in Hnone. }
  destruct (credentials_cases E) as [Hcred|[Hreq Hkey]].
  { by rewrite extract_unavailable. }
  revert Hnone. rewrite extract_posts by done. cbv zeta.
  destruct (chat_completions E (length (posted w)) question) as [|status [body|]];
    [done| |by destruct (status =? 200)].
  destruct (status =? 200); [|done].
  by destruct (str_eqb _ _).
Qed.

(** ** C10 *)

(** C10: the keyword-extraction adapter writes to its cache only when
    the call to the service succeeds (status 200 with a readable body),
    the literal none answer included, which caches the empty list; when
    the dependency or the credentials are missing, when the transport
    fails or when the status is not 200 it returns the failure signal
    and leaves the cache as it was; and after a failure the same
    question is posted to the service again on the next call. *)
Theorem keyword_cache_only_on_success E question w :
  reachable E w ->
  let r := extract_keywords_from_question E question w in
  let answer := chat_completions E (length (posted w)) question in
  (cache r.2 <> cache w ->
     exists body kws,
       answer = Response 200 (Some body)
       /\ posted r.2 = posted w ++ [question]
       /\ r.1 = Some kws
       /\ cache r.2 = <[strip question := kws]> (cache w))
  /\ (forall body,
        cache_miss w question ->
        HAS_REQUESTS E = true -> KIMI_API_KEY E <> [] ->
        answer = Response 200 (Some body) ->
        lower (strip body) = NONE_ANSWER ->
        r.1 = Some [] /\ cache r.2 !! strip question = Some [])
  /\ (HAS_REQUESTS E = false \/ KIMI_API_KEY E = [] -> r = (None, w))
  /\ (cache_miss w question ->
      answer = TransportError
      \/ (exists status content, answer = Response status content /\ status <> 200) ->
      r.1 = None /\ cache r.2 = cache w)
  /\ (r.1 = None ->
      HAS_REQUESTS E = true -> KIMI_API_KEY E <> [] ->
      posted (extract_keywords_from_question E question r.2).2
      = posted r.2 ++ [question]).
Proof.
  intros Hreach r answer. subst r answer.
  split; [by apply cache_write_needs_success|].
  split; [intros body; by apply none_answer_cached|].
  split.
  { intros Hcred. apply extract_unavailable; [|done].
    right. by rewrite (reachable_unavailable E w Hreach Hcred). }
  split; [by apply failed_call_not_cached|].
  intros Hnone Hreq Hkey. apply extract_posted; [|done..].
  by apply failure_keeps_miss.
Qed.

(** C10, witness: a fresh process, the service unreachable. *)
Lemma keyword_cache_only_on_success_witness :
  (extract_keywords_from_question Examples.E_plain (u "מה זה שכינה") Examples.w0).1
    = None
  /\ cache (extract_keywords_from_question Examples.E_plain (u "מה זה שכינה")
              Examples.w0).2 = cache Examples.w0.
Proof.
  pose proof (keyword_cache_only_on_success Examples.E_plain (u "מה זה שכינה")
                Examples.w0 (reachable_start Examples.E_plain)) as H.
  cbv zeta in H. destruct H as (_ & _ & _ & H & _).
  apply H.
  - right. reflexivity.
  - left. reflexivity.
Defined.

(** ** C4 *)

(** With a positive floor the filter keeps the scores at or above it. *)
Lemma apply_min_score_floor (min_score : Z) (results : list candidate) :
  0 < min_score ->
  Forall (fun r => min_score <= c_score r) (apply_min_score min_score results).
Proof.
  intros Hpos. unfold apply_min_score.
  replace (0 <? min_score) with true by (symmetry; by apply Z.ltb_lt).
  apply Forall_forall. intros r Hr.
  apply list_elem_of_In, filter_In in Hr as [_ Hr]. by apply Z.leb_le.
Qed.

Lemma m_year_or_empty_spec (m : maamar) :
  m_year_or_empty m
  = if year_is_none m then None else Some (default [] (m_year m)).
Proof. unfold m_year_or_empty, year_is_none, m_year. by destruct (m_year_field m). Qed.

(** The loop of the year-only branch returns unless some record holds
    [None] under [year]; what it returns are the records of the year, in
    corpus order. *)
Lemma year_only_scan_spec (y : pystr) (maamarim : corpus) :
  year_only_scan y maamarim
  = if existsb (fun e => year_is_none e.2) maamarim then Raised
    else Returns
           (List.map year_only_candidate
              (List.filter
                 (fun e => str_eqb (normalize_year (default [] (m_year e.2))) y)
                 maamarim)).
Proof.
  induction maamarim as [|e rest IH]; [done|].
  cbn [year_only_scan existsb List.filter]. rewrite IH, m_year_or_empty_spec.
  destruct (year_is_none e.2); [done|]. cbn [orb].
  destruct (existsb _ rest); [done|].
  by destruct (str_eqb _ y).
Qed.

Lemma year_only_scan_returns (y : pystr) (maamarim : corpus) results :
  year_only_scan y maamarim = Returns results ->
  existsb (fun e => year_is_none e.2) maamarim = false
  /\ results
     = List.map year_only_candidate
         (List.filter
            (fun e => str_eqb (normalize_year (default [] (m_year e.2))) y)
            maamarim).
Proof.
  rewrite year_only_scan_spec. destruct (existsb _ maamarim); [done|].
  by intros [= <-].
Qed.

(** Is the query, once prepared, a year without a title? *)
Lemma search_year_only E maamarim name year question L ms us w flag title y :
  prepare name year = (flag, title, Some y) -> y <> [] -> strip title = [] ->
  search_maamar E maamarim name year question L ms us w
  = year_only_branch E maamarim y question L ms us w.
Proof.
  intros Hprep Hy Htitle. unfold search_maamar. rewrite Hprep, Htitle.
  by destruct y.
Qed.

Lemma search_other_branches E maamarim name year question L ms ms' us w flag title yn :
  prepare name year = (flag, title, yn) ->
  strip title <> [] \/ yn = None \/ yn = Some [] ->
  search_maamar E maamarim name year question L ms us w
  = search_maamar E maamarim name year question L ms' us w.
Proof.
  intros Hprep Hshape. unfold search_maamar. rewrite Hprep.
  destruct (strip title) as [|c s] eqn:Hs; simpl.
  - destruct Hshape as [?|[-> | ->]]; done.
  - by destruct yn as [[|]|].
Qed.

(** Where [min_score] is read.  In the year-only branch, for every call
    that returns, the returned list is the ranked list filtered by
    score >= minScore when minScore > 0 and then cut to the limit, so
    every element has score >= minScore, and minScore == 0 applies no
    floor.  The other two branches never read it: their result is the
    same for every minScore. *)
Lemma min_score_floor_in_year_only_branch E maamarim name year question L us w :
  (forall flag title y ms results w',
     prepare name year = (flag, title, Some y) -> y <> [] -> strip title = [] ->
     search_maamar E maamarim name year question L ms us w = (Returns results, w') ->
     (exists ranked,
        forall ms',
          search_maamar E maamarim name year question L ms' us w
          = (Returns
               (slice_to L
                  (if 0 <? ms'
                   then List.filter (fun r => ms' <=? c_score r) ranked
                   else ranked)), w'))
     /\ (0 < ms -> Forall (fun r => ms <= c_score r) results))
  /\ (forall flag title yn ms ms',
        prepare name year = (flag, title, yn) ->
        strip title <> [] \/ yn = None \/ yn = Some [] ->
        search_maamar E maamarim name year question L ms us w
        = search_maamar E maamarim name year question L ms' us w).
Proof.
  split.
  - intros flag title y ms results w' Hprep Hy Htitle Hsearch.
    assert (forall ms', search_maamar E maamarim name year question L ms' us w
                        = year_only_branch E maamarim y question L ms' us w) as Hbranch.
    { intros ms'. by eapply search_year_only. }
    rewrite Hbranch in Hsearch. unfold year_only_branch in Hsearch.
    destruct (year_only_scan y maamarim) as [found|] eqn:Hscan; [|done].
    destruct (if negb (is_empty question) && negb (is_empty _) then _ else _)
      as [[ranked|] w1] eqn:Hranked; [|done].
    injection Hsearch as <- <-.
    split.
    + exists ranked. intros ms'. rewrite Hbranch. unfold year_only_branch.
      by rewrite Hscan, Hranked.
    + intros Hpos. by apply Forall_slice_to, apply_min_score_floor.
  - intros flag title yn ms ms' Hprep Hshape. by eapply search_other_branches.
Qed.

(** C4, at inputs of the three branches.  The docstring of
    [search_maamar] gives [min_score] as the minimal score to return.
    Title branch: a query of three words, one of them in two titles, and
    minScore = 90 returns both partial matches with score 33.
    Question-only branch: scores 50, 33 and 33 are returned under
    minScore = 60.  The year-only branch does filter: three records of
    one year are ranked by a question to the scores 100 and 40, and
    under minScore = 50 the record with score 40 is dropped; so is the
    filter on the scores 80, 40 and 10. *)
Theorem min_score_ignored_outside_year_only_branch :
  (exists results,
     (search_maamar Examples.E_plain Examples.three_titles (u "באתי דוד משה")
        None [] 5 90 true Examples.w0).1 = Returns results
     /\ List.map (fun r => (c_key r, c_score r)) results
        = [(u "c", 33); (u "a", 33)])
  /\ (exists results,
        (search_maamar Examples.E_service Examples.three_texts []
           None (u "מה זה שכינה") 5 60 false Examples.w0).1 = Returns results
        /\ List.map (fun r => (c_key r, c_score r)) results
           = [(u "b", 50); (u "a", 33); (u "c", 33)])
  /\ (exists results,
        (search_maamar Examples.E_service Examples.three_texts_of_year []
           (Some (u "תשי״א")) (u "מה זה שכינה") 5 0 true Examples.w0).1
        = Returns results
        /\ List.map (fun r => (c_key r, c_score r)) results
           = [(u "b", 100); (u "a", 40)])
  /\ (exists results,
        (search_maamar Examples.E_service Examples.three_texts_of_year []
           (Some (u "תשי״א")) (u "מה זה שכינה") 5 50 true Examples.w0).1
        = Returns results
        /\ List.map (fun r => (c_key r, c_score r)) results = [(u "b", 100)])
  /\ List.map c_score
       (apply_min_score 50
          [Examples.scored 80 0 [] []; Examples.scored 40 0 [] [];
           Examples.scored 10 0 [] []]) = [80].
Proof.
  split; [eexists; split; vm_compute; reflexivity|].
  split; [eexists; split; vm_compute; reflexivity|].
  split; [eexists; split; vm_compute; reflexivity|].
  split; [eexists; split; vm_compute; reflexivity|].
  vm_compute. reflexivity.
Qed.

(** ** C7 *)

(** C7, counterexample: in the question-only flow the record that
    matches no keyword keeps its flat score 50 although its keywordScore
    is 0; and a candidate that enters with score 60 and matches one of
    three keywords (keywordScore 33) leaves with 66, where
    min(100, 60 + round(33 * 0.2)) is 67. *)
Lemma keyword_rerank_not_rounded :
  match (search_maamar Examples.E_service Examples.three_texts []
           None (u "מה זה שכינה") 5 0 false Examples.w0).1 with
  | Returns results =>
      List.map (fun r => (c_key r, c_score r, c_keyword_score r)) results
  | Raised => []
  end = [(u "b", 50, 0); (u "a", 33, 33); (u "c", 33, 33)]
  /\ option_map (fun r => (c_score r, c_keyword_score r))
       (rerank_candidate Examples.E_plain
          (AiKeywords [u "שכינה"; u "דוד"; u "מלך"])
          (Examples.scored 60 60 [] [u "שכינה"]))
     = Some (66, 33)
  /\ Z.min 100 (60 + round_half_even (33 * 2) 10) = 67.
Proof. repeat split; vm_compute; reflexivity. Qed.

(** C7, as amended: in keyword reranking a candidate that matches no
    keyword (neither in its keyword table nor, in AI-keyword mode, in its
    text) is left as it was.  A candidate that matches at least one gets
    keywordScore = int(matched / total * 100), and then: if it entered
    with score 50 and fuzzy score 0 its score is replaced by
    keywordScore; otherwise its score becomes
    min(100, score + int(keywordScore / 100 * 20)), a bonus that for a
    keywordScore within 0..100 is keywordScore div 5, truncated and at
    most 20. *)
Theorem keyword_rerank_score E mode c c' :
  rerank_candidate E mode c = Some c' ->
  (exists matching,
     matching_words_of E mode c = Some matching
     /\ (matching = [] -> c' = c)
     /\ (matching <> [] ->
         c_keyword_score c'
         = percent (Z.of_nat (length matching)) (keyword_total mode)
         /\ c_score c'
            = if (c_fuzzy_score c =? 0) && (c_score c =? 50)
              then c_keyword_score c'
              else Z.min 100 (c_score c + keyword_bonus (c_keyword_score c'))))
  /\ (forall ks, 0 <= ks <= 100 ->
        keyword_bonus ks = ks / 5 /\ keyword_bonus ks <= 20).
Proof.
  intros Hrerank. split.
  - destruct mode as [ai|qw|]; simpl in Hrerank.
    + unfold rerank_ai in Hrerank. simpl.
      destruct (ai_table E ai c) as [table|]; [|done].
      exists (ai_matching_words E ai c table). split; [done|].
      destruct (ai_matching_words E ai c table) as [|kw rest] eqn:Hm.
      * simpl in Hrerank. injection Hrerank as <-. by split.
      * simpl in Hrerank. injection Hrerank as <-. split; [done|]. intros _.
        by split.
    + unfold rerank_fallback in Hrerank. injection Hrerank as <-.
      exists (fallback_matching_words qw c). split; [done|].
      destruct (fallback_matching_words qw c) as [|kw rest] eqn:Hm; simpl.
      * by split.
      * split; [done|]. intros _. by split.
    + simpl. destruct (is_empty (c_keywords_all c)); [|done].
      exists []. injection Hrerank as <-. by repeat split.
  - intros ks Hks. rewrite keyword_bonus_fifth by done.
    split; [done|]. apply Z.div_le_upper_bound; lia.
Qed.

(** C7, witness: one of three keywords in the keyword table of a
    candidate that enters with score 60. *)
Lemma keyword_rerank_score_witness :
  option_map c_score
    (rerank_candidate Examples.E_plain
       (AiKeywords [u "שכינה"; u "דוד"; u "מלך"])
       (Examples.scored 60 60 [] [u "שכינה"]))
  = Some 66.
Proof.
  destruct (rerank_candidate Examples.E_plain
              (AiKeywords [u "שכינה"; u "דוד"; u "מלך"])
              (Examples.scored 60 60 [] [u "שכינה"])) as [c'|] eqn:Hc'.
  - pose proof (keyword_rerank_score Examples.E_plain
                  (AiKeywords [u "שכינה"; u "דוד"; u "מלך"])
                  (Examples.scored 60 60 [] [u "שכינה"]) c' Hc') as H.
    destruct H as ((matching & Hm & _ & H) & _).
    vm_compute in Hm. injection Hm as <-.
    destruct H as (Hks & Hs); [done|].
    simpl. f_equal. rewrite Hs, Hks. vm_compute. reflexivity.
  - vm_compute in Hc'. discriminate.
Defined.

(** ** C6 *)







(** ** C2 *)

(** A hit of the bounded pattern is an occurrence of the query. *)
Lemma bounded_search_contains is_word prev s q :
  bounded_search is_word prev s q = true -> contains s q = true.
Proof.
  revert prev. induction s as [|c s IH]; intros prev; simpl.
  - rewrite !orb_false_r. intros H. by apply andb_true_iff in H as [[_ ->]%andb_true_iff _].
  - intros [H|H]%orb_true_iff.
    + by apply andb_true_iff in H as [[_ ->]%andb_true_iff _].
    + apply IH in H. rewrite H. apply orb_true_r.
Qed.

Lemma exact_search_name_needs_substring is_word maamar_name maamarim top_n r :
  r ∈ exact_search_name is_word maamar_name maamarim top_n ->
  exists key m, (key, m) ∈ maamarim /\ c_name r = m_name m /\ c_score r = 100
    /\ contains (normalize_text (m_name m) 0) (normalize_text maamar_name 0) = true.
Proof.
  unfold exact_search_name. destruct (strip _); [by intros ?%elem_of_nil|].
  intros Hr%elem_of_slice_to. rewrite sort_asc_perm in Hr.
  apply list_elem_of_omap in Hr as ([key m] & Hin & Hc).
  exists key, m. split; [done|]. unfold exact_candidate in Hc.
  destruct (m_name m) as [|ch name] eqn:Hname; [done|].
  destruct (bounded_search _ _ _ _) eqn:Hb; [|done].
  injection Hc as <-. simpl. repeat split.
  by eapply bounded_search_contains.
Qed.

(** C2, the code at a quoted title: the quotes are stripped and the
    flag is set, but the query is answered by the word-set matcher (the
    title that holds both query words in the other order comes back with
    score 100), where exact title mode, whatever the word class, matches
    no title. *)
Lemma quoted_title_runs_word_set_matching :
  prepare ([DQUOTE] ++ u "לגני באתי" ++ [DQUOTE]) None
  = (true, u "לגני באתי", None)
  /\ match (search_maamar Examples.E_plain Examples.three_titles
              ([DQUOTE] ++ u "לגני באתי" ++ [DQUOTE]) None [] 5 0 true
              Examples.w0).1 with
     | Returns results => List.map (fun r => (c_name r, c_score r)) results
     | Raised => []
     end = [(u "באתי לגני תשי״א", 100)]
  /\ forall is_word,
       exact_search_name is_word (u "לגני באתי") Examples.three_titles 5 = [].
Proof.
  split; [vm_compute; reflexivity|]. split; [vm_compute; reflexivity|].
  intros is_word.
  destruct (exact_search_name is_word _ _ _) as [|r rest] eqn:Hres; [done|].
  assert (r ∈ exact_search_name is_word (u "לגני באתי") Examples.three_titles 5)
    as Hr by (rewrite Hres; constructor).
  apply exact_search_name_needs_substring in Hr as (key & m & Hin & _ & _ & Hsub).
  exfalso. revert Hsub. unfold Examples.three_titles in Hin.
  repeat (apply elem_of_cons in Hin as [[= -> ->]|Hin];
          [vm_compute; discriminate|]).
  by apply elem_of_nil in Hin.
Qed.

(** ** C5 *)

(** C5, the code at a word with two inner vavs: one pass at level 1
    removes the first, a second pass removes the other. *)
Lemma normalize_text_level1_twice :
  normalize_text (u "קולות") 1 = u "קלות"
  /\ normalize_text (normalize_text (u "קולות") 1) 1 = u "קלת"
  /\ normalize_text (normalize_text (u "קולות") 1) 1
     <> normalize_text (u "קולות") 1.
Proof. repeat split; vm_compute; (reflexivity || discriminate). Qed.

(** ** C9 *)

(** C9, the code at an embedding opposite to that of the question: the
    record that matches one keyword of three enters the blend with score
    33 and leaves it with score -6. *)
Lemma semantic_blend_negative_score :
  match (search_maamar Examples.E_service Examples.three_texts [] None
           (u "מה זה שכינה") 5 0 true Examples.w0).1 with
  | Returns results =>
      List.map (fun r => (c_key r, c_score r, c_keyword_score r, c_semantic_score r))
        results
  | Raised => []
  end = [(u "b", 65, 0, 100); (u "a", -6, 33, -100)].
Proof. vm_compute. reflexivity. Qed.

(** ** normalize_text at level 0 *)

Lemma split_ws_from_words (cur s : pystr) :
  Forall (fun c => is_space c = false) cur ->
  Forall (fun w => is_word_of_split w /\ forall c, c ∈ w -> c ∈ cur \/ c ∈ s)
    (split_ws_from cur s).
Proof.
  revert cur. induction s as [|c s IH]; intros cur Hcur; simpl.
  - destruct cur as [|x cur]; [constructor|].
    constructor; [|constructor]. split.
    + split.
      * intros Hnil. apply (f_equal length) in Hnil.
        rewrite length_rev in Hnil. done.
      * by apply Forall_rev.
    + intros c Hc. left. by apply list_elem_of_In, in_rev, list_elem_of_In in Hc.
  - destruct (is_space c) eqn:Hsp.
    + assert (Forall (fun w => is_word_of_split w
                /\ forall c0, c0 ∈ w -> c0 ∈ cur \/ c0 ∈ c :: s)
                (split_ws_from [] s)) as Hrest.
      { eapply Forall_impl; [apply IH; constructor|].
        intros w [Hw Hchars]. split; [done|].
        intros c0 Hc0. destruct (Hchars c0 Hc0) as [Habs|Hin].
        - by apply elem_of_nil in Habs.
        - right. by constructor. }
      destruct cur as [|x cur]; [done|].
      constructor; [|done]. split.
      * split.
        -- intros Hnil. apply (f_equal length) in Hnil.
           rewrite length_rev in Hnil. done.
        -- by apply Forall_rev.
      * intros c0 Hc0. left. by apply list_elem_of_In, in_rev, list_elem_of_In in Hc0.
    + eapply Forall_impl; [apply IH; by constructor|].
      intros w [Hw Hchars]. split; [done|].
      intros c0 Hc0. destruct (Hchars c0 Hc0) as [Hin|Hin].
      * apply elem_of_cons in Hin as [->|Hin]; [right; constructor|by left].
      * right. by constructor.
Qed.

(** Reading a blank-free run moves it to the word being read. *)
Lemma split_ws_from_run (cur w s : pystr) :
  Forall (fun c => is_space c = false) w ->
  split_ws_from cur (w ++ s) = split_ws_from (rev w ++ cur) s.
Proof.
  revert cur. induction w as [|c w IH]; intros cur Hw; simpl; [done|].
  apply Forall_cons in Hw as [-> Hw]. rewrite IH by done.
  by rewrite <- app_assoc.
Qed.

(** Splitting what [join] built gives the words back. *)
Lemma split_ws_join (ws : list pystr) :
  Forall is_word_of_split ws -> split_ws (join [SPACE] ws) = ws.
Proof.
  unfold split_ws. induction ws as [|w ws IH]; intros Hws; [done|].
  apply Forall_cons in Hws as [[Hne Hw] Hws].
  assert (rev w <> []) as Hrev.
  { intros Hnil. apply (f_equal length) in Hnil.
    rewrite length_rev in Hnil. by destruct w. }
  destruct ws as [|w' ws].
  - simpl. rewrite <- (app_nil_r w) at 1. rewrite split_ws_from_run by done.
    simpl. rewrite app_nil_r. destruct (rev w) eqn:Hr; [done|].
    by rewrite <- Hr, rev_involutive.
  - change (join [SPACE] (w :: w' :: ws))
      with (w ++ SPACE :: join [SPACE] (w' :: ws)).
    rewrite split_ws_from_run by done. rewrite app_nil_r.
    change (split_ws_from (rev w) (SPACE :: join [SPACE] (w' :: ws)))
      with (match rev w with
            | [] => split_ws_from [] (join [SPACE] (w' :: ws))
            | _ => rev (rev w) :: split_ws_from [] (join [SPACE] (w' :: ws))
            end).
    destruct (rev w) eqn:Hr; [done|].
    rewrite <- Hr, rev_involutive. f_equal. by apply IH.
Qed.

Lemma join_chars (ws : list pystr) (c : Z) :
  c ∈ join [SPACE] ws -> c = SPACE \/ exists w, w ∈ ws /\ c ∈ w.
Proof.
  induction ws as [|w ws IH]; [by intros ?%elem_of_nil|].
  destruct ws as [|w' ws].
  - intros Hc. right. exists w. split; [constructor|done].
  - change (join [SPACE] (w :: w' :: ws))
      with (w ++ SPACE :: join [SPACE] (w' :: ws)).
    rewrite elem_of_app, elem_of_cons. intros [Hc|[->|Hc]].
    + right. exists w. split; [constructor|done].
    + by left.
    + destruct (IH Hc) as [->|(w0 & Hw0 & Hc0)]; [by left|].
      right. exists w0. split; [by constructor|done].
Qed.

Lemma lstrip_id (s : pystr) :
  match s with c :: _ => is_space c = false | [] => True end -> lstrip s = s.
Proof. destruct s as [|c s]; [done|]. simpl. by intros ->. Qed.

(** [join] of words starts and ends with a character of a word. *)
Lemma join_ends (ws : list pystr) :
  Forall is_word_of_split ws ->
  match join [SPACE] ws with c :: _ => is_space c = false | [] => True end
  /\ match rev (join [SPACE] ws) with c :: _ => is_space c = false | [] => True end.
Proof.
  induction ws as [|w ws IH]; intros Hws; [done|].
  apply Forall_cons in Hws as [[Hne Hw] Hws].
  assert (match rev w with c :: _ => is_space c = false | [] => True end) as Hlast.
  { apply Forall_rev in Hw. destruct (rev w); [done|]. by apply Forall_cons in Hw as [? _]. }
  destruct ws as [|w' ws].
  - simpl. split; [|done]. destruct w; [done|]. by apply Forall_cons in Hw as [? _].
  - change (join [SPACE] (w :: w' :: ws))
      with (w ++ SPACE :: join [SPACE] (w' :: ws)).
    split.
    + destruct w; [done|]. by apply Forall_cons in Hw as [? _].
    + destruct (IH Hws) as [_ Hend].
      assert (join [SPACE] (w' :: ws) <> []) as Hjoin.
      { apply Forall_cons in Hws as [[Hne' _] _].
        destruct w'; [done|]. by destruct ws. }
      set (J := join [SPACE] (w' :: ws)) in *.
      rewrite rev_app_distr.
      change (rev (SPACE :: J)) with (rev J ++ [SPACE]). rewrite <- app_assoc.
      destruct (rev J) as [|c r] eqn:Hr; [|done].
      apply (f_equal (@rev Z)) in Hr. rewrite rev_involutive in Hr. done.
Qed.

Lemma strip_join (ws : list pystr) :
  Forall is_word_of_split ws -> strip (join [SPACE] ws) = join [SPACE] ws.
Proof.
  intros Hws. destruct (join_ends ws Hws) as [Hhead Hlast].
  unfold strip, rstrip. rewrite (lstrip_id _ Hhead), (lstrip_id _ Hlast).
  apply rev_involutive.
Qed.

Lemma filter_all {A} (p : A -> bool) (l : list A) :
  (forall x, x ∈ l -> p x = true) -> List.filter p l = l.
Proof.
  induction l as [|x l IH]; intros Hall; [done|]. simpl.
  rewrite (Hall x) by constructor. f_equal. apply IH.
  intros y Hy. apply Hall. by constructor.
Qed.

Lemma map_all_id {A} (f : A -> A) (l : list A) :
  (forall x, x ∈ l -> f x = x) -> List.map f l = l.
Proof.
  induction l as [|x l IH]; intros Hall; [done|]. simpl.
  rewrite (Hall x) by constructor. f_equal. apply IH.
  intros y Hy. apply Hall. by constructor.
Qed.

(** The words level 0 produces hold no mark, quote, punctuation or
    blank. *)
Lemma level0_words (text : pystr) :
  let ws :=
    split_ws
      (List.map (fun c => if is_punct c then SPACE else c)
         (List.filter (fun c => negb (is_quote c))
            (List.filter (fun c => negb (is_nikud c)) text))) in
  Forall is_word_of_split ws
  /\ forall c, c ∈ join [SPACE] ws ->
       is_nikud c = false /\ is_quote c = false /\ is_punct c = false.
Proof.
  intros ws.
  pose proof (split_ws_from_words [] _ (Forall_nil_2 _) : Forall _ ws) as Hws.
  split.
  - eapply Forall_impl; [exact Hws|]. by intros w [Hw _].
  - intros c Hc. apply join_chars in Hc as [->|(w & Hw & Hc)]; [done|].
    rewrite Forall_forall in Hws. destruct (Hws w Hw) as [[_ Hsp] Hchars].
    rewrite Forall_forall in Hsp. specialize (Hsp c Hc).
    destruct (Hchars c Hc) as [Habs|Hin]; [by apply elem_of_nil in Habs|].
    apply list_elem_of_fmap in Hin as (c0 & Hc0 & Hin).
    destruct (is_punct c0) eqn:Hp; [by subst c|]. subst c0.
    apply list_elem_of_In, filter_In in Hin as [Hin Hq].
    apply filter_In in Hin as [_ Hn].
    apply negb_true_iff in Hq, Hn. done.
Qed.

(** Level 0 is idempotent. *)
Theorem normalize_text_level0_idempotent (text : pystr) :
  normalize_text (normalize_text text 0) 0 = normalize_text text 0.
Proof.
  destruct text as [|ch text]; [done|].
  destruct (level0_words (ch :: text)) as [Hws Hchars].
  set (ws := split_ws _) in Hws, Hchars.
  assert (normalize_text (ch :: text) 0 = join [SPACE] ws) as ->.
  { unfold normalize_text. cbn [Z.leb Z.compare]. fold ws. by apply strip_join. }
  destruct (join [SPACE] ws) as [|c r] eqn:Hr; [done|].
  unfold normalize_text. cbn [Z.leb Z.compare]. rewrite <- Hr in *.
  rewrite !filter_all, map_all_id.
  - by rewrite split_ws_join, strip_join.
  - intros x Hx. by destruct (Hchars x Hx) as (_ & _ & ->).
  - intros x Hx. by destruct (Hchars x Hx) as (-> & _ & _).
  - intros x Hx. rewrite filter_all in Hx.
    + by destruct (Hchars x Hx) as (_ & -> & _).
    + intros y Hy. by destruct (Hchars y Hy) as (-> & _ & _).
Qed.

(** ** Further properties of the matchers *)

(** The positional score is clamped: every result of the positional
    matcher has a score within 1..100, which is also its fuzzy score. *)
Theorem fuzzy_scores_clamped E maamar_name maamarim top_n :
  Forall (fun r => 0 < c_score r <= 100 /\ c_fuzzy_score r = c_score r)
    (fuzzy_search_name E maamar_name maamarim top_n).
Proof.
  unfold fuzzy_search_name.
  destruct (split_ws (normalize_text (expand_abbreviations E maamar_name) 0))
    as [|q0 q0s]; [constructor|].
  apply Forall_slice_to. rewrite sort_desc_perm.
  apply Forall_forall. intros r Hr.
  apply list_elem_of_omap in Hr as ([key m] & _ & Hc).
  unfold fuzzy_candidate in Hc.
  destruct (m_name m); [done|].
  destruct (split_ws (normalize_text (expand_abbreviations E _) 0)); [done|].
  destruct (match_query_words _ _ _ _ _ _ _) as [[found in_order] penalty].
  destruct (found =? 0); [done|].
  set (score := Z.max 0 (Z.min 100 _)) in Hc.
  assert (score <= 100) as Hmax by (subst score; lia).
  destruct (0 <? score) eqn:Hpos; [|done].
  injection Hc as <-. cbn [c_score c_fuzzy_score].
  apply Z.ltb_lt in Hpos. by repeat split.
Qed.

(** wordsFound <= totalWords: every result of the word-set matcher
    found at least one and at most all of the query words. *)
Theorem mara_makom_words_found_bounded E maamar_name maamarim top_n :
  Forall (fun r => 0 < words_found_of r <= total_words_of r)
    (mara_makom_word_match_search E maamar_name maamarim top_n).
Proof.
  apply Forall_forall. intros r Hr.
  apply elem_of_slice_to, mara_makom_ranked_elem in Hr
    as (_ & Hqw & key & m & _ & Hc).
  apply mara_makom_candidate_spec in Hc
    as (_ & _ & _ & _ & Hpos & Hwf & Htw & _); [|done].
  unfold words_found_of, total_words_of. rewrite Hwf, Htw. simpl.
  split; [done|]. apply count_words_found_bounds.
Qed.

Lemma length_omap_le {A B} (f : A -> option B) (l : list A) :
  (length (omap f l) <= length l)%nat.
Proof.
  induction l as [|x l IH]; simpl; [lia|].
  unfold omap in IH. destruct (f x); simpl; lia.
Qed.

Lemma query_words_of_empty E : mara_makom_query_words E [] = [].
Proof.
  unfold mara_makom_query_words, title_words, expand_abbreviations. simpl.
  by destruct (ABBREVIATIONS E).
Qed.

(** With a non-positive limit, no year and at most 1000 records, every
    record whose normalized name holds every normalized query word is
    returned by the title branch. *)
Theorem title_branch_returns_every_perfect_match E maamarim name question L w key m :
  L <= 0 -> (length maamarim <= 1000)%nat ->
  (key, m) ∈ maamarim -> m_name m <> [] ->
  mara_makom_query_words E (clean_name_of name) <> [] ->
  Forall (fun w => w ∈ title_words E (m_name m))
    (mara_makom_query_words E (clean_name_of name)) ->
  exists r, r ∈ (title_branch E maamarim name None question L w).1
            /\ c_key r = key /\ c_name r = m_name m.
Proof.
  intros HL Hlen Hin Hname Hqw Hall.
  set (qw := mara_makom_query_words E (clean_name_of name)) in *.
  set (tw := Z.of_nat (length qw)).
  assert (clean_name_of name <> []) as Hclean.
  { intros Hnil. apply Hqw. subst qw. rewrite Hnil. apply query_words_of_empty. }
  assert (count_words_found qw (title_words E (m_name m)) = tw) as Hfull
    by (by apply count_words_found_full).
  assert (0 < tw) as Htw by (subst tw; destruct qw; [done|simpl; lia]).
  destruct (mara_makom_candidate_complete E qw key m Hname ltac:(lia)) as [r0 Hr0].
  pose proof (mara_makom_ranked_perm E (clean_name_of name) maamarim Hclean Hqw)
    as Hperm.
  assert (title_candidates E maamarim name None L
          = mara_makom_ranked E (clean_name_of name) maamarim) as Hcands.
  { unfold title_candidates, filter_by_year, mara_makom_word_match_search.
    replace (0 <? L) with false by (symmetry; apply Z.ltb_ge; lia).
    unfold slice_to. simpl. apply take_ge.
    rewrite Hperm. etrans; [apply length_omap_le|]. lia. }
  assert (r0 ∈ title_candidates E maamarim name None L) as Hcand.
  { rewrite Hcands, Hperm. apply list_elem_of_omap. by exists (key, m). }
  apply mara_makom_candidate_spec in Hr0
    as (_ & Hk & Hn & _ & _ & Hwf & Htotal & _); [|done].
  assert (words_found_of r0 = tw) as Hwf0.
  { unfold words_found_of. rewrite Hwf. simpl. done. }
  destruct (rank_title_by_question_perm E question
              (title_candidates E maamarim name None L) w)
    as (annotate & Hann & Hranked).
  destruct (forget_words_found _ _ (Hann r0)) as (Hw & _ & Hkey & Hnm & _).
  exists (annotate r0). split; [|split; congruence].
  rewrite title_branch_cases.
  - fold qw tw.
    replace (existsb _ _) with true.
    + replace (L <=? 0) with true by (symmetry; apply Z.leb_le; lia).
      apply list_elem_of_In, filter_In. split.
      * apply list_elem_of_In. rewrite Hranked.
        apply list_elem_of_fmap. by exists r0.
      * unfold is_perfect_match. apply Z.leb_le. lia.
    + symmetry. apply existsb_exists. exists r0.
      split; [by apply list_elem_of_In|]. apply Z.leb_le. lia.
  - intros Hnil. rewrite Hnil in Hcand. by apply elem_of_nil in Hcand.
Qed.

(** The witness of the previous theorem: the first of three titles. *)
Lemma title_branch_returns_every_perfect_match_witness :
  exists r,
    r ∈ (title_branch Examples.E_plain Examples.three_titles (u "באתי לגני")
           None [] 0 Examples.w0).1
    /\ c_key r = u "a".
Proof.
  destruct (title_branch_returns_every_perfect_match Examples.E_plain
              Examples.three_titles (u "באתי לגני") [] 0 Examples.w0
              (u "a") (Examples.titled (u "באתי לגני תשי״א")))
    as (r & Hr & Hk & _).
  - lia.
  - vm_compute. lia.
  - constructor.
  - discriminate.
  - vm_compute. discriminate.
  - apply (bool_decide_unpack _). vm_compute. exact I.
  - exists r. split; [exact Hr|exact Hk].
Defined.

(** ** The semantic blend *)

Lemma blend_all_length E qe cs :
  length (blend_all E qe cs).1 = length cs.
Proof.
  induction cs as [|c cs IH]; [done|]. simpl.
  destruct (has_embedding c).
  - destruct (blend E qe c); [|done].
    destruct (blend_all E qe cs). simpl in *. by rewrite IH.
  - destruct (blend_all E qe cs). simpl in *. by rewrite IH.
Qed.

(** When the blend runs to its end, only the candidates that carry an
    embedding are returned: the others are dropped from the list. *)
Theorem semantic_search_drops_unembedded E question candidates qe :
  question <> [] ->
  ENABLE_SEMANTIC_SEARCH E = true -> HAS_OPENAI E = true -> HAS_NUMPY E = true ->
  existsb has_embedding candidates = true ->
  embeddings_create E question = Some qe ->
  (blend_all E qe candidates).2 = false ->
  Forall (fun r => has_embedding r = true) (semantic_search E question candidates)
  /\ (length (semantic_search E question candidates)
      <= length candidates)%nat.
Proof.
  intros Hq Hon Hopenai Hnumpy Hany Hqe Hok.
  unfold semantic_search.
  destruct question; [done|]. destruct candidates as [|c cs]; [done|].
  cbn [is_empty orb]. rewrite Hon, Hany, Hopenai, Hnumpy, Hqe. cbn [negb orb].
  pose proof (blend_all_length E qe (c :: cs)) as Hlen.
  destruct (blend_all E qe (c :: cs)) as [blended raised].
  simpl in Hok, Hlen. subst raised. split.
  - rewrite sort_desc_perm. apply Forall_forall. intros r Hr.
    by apply list_elem_of_In, filter_In in Hr as [_ ?].
  - rewrite sort_desc_perm. etrans; [apply List.filter_length_le|]. by rewrite Hlen.
Qed.

(** The witness of the previous theorem: three records, one of them
    without an embedding. *)
Lemma semantic_search_drops_unembedded_witness :
  Forall (fun r => has_embedding r = true)
    (semantic_search Examples.E_service (u "מה זה שכינה")
       (List.map general_candidate Examples.three_texts))
  /\ (length (semantic_search Examples.E_service (u "מה זה שכינה")
                (List.map general_candidate Examples.three_texts))
      <= length (List.map general_candidate Examples.three_texts))%nat.
Proof.
  apply (semantic_search_drops_unembedded Examples.E_service
           (u "מה זה שכינה")
           (List.map general_candidate Examples.three_texts)
           [1%float; 0%float]).
  - discriminate.
  - reflexivity.
  - reflexivity.
  - reflexivity.
  - vm_compute. reflexivity.
  - reflexivity.
  - vm_compute. reflexivity.
Defined.

(** ** Quote glyphs and monotonicity *)

Lemma quote_is_not_nikud (c : Z) : is_quote c = true -> is_nikud c = false.
Proof.
  unfold is_quote, is_nikud, GERSHAYIM, DQUOTE, GERESH, SQUOTE, BACKTICK,
    PRIME, DPRIME, TPRIME.
  rewrite !orb_true_iff, !Z.eqb_eq. intros H.
  apply andb_false_iff. rewrite Z.leb_gt, Z.leb_gt. lia.
Qed.

Lemma unquoted_replace_char (q1 q2 : Z) (s : pystr) :
  is_quote q1 = true -> is_quote q2 = true ->
  List.filter (fun c => negb (is_quote c))
    (List.filter (fun c => negb (is_nikud c)) (replace_char q1 q2 s))
  = List.filter (fun c => negb (is_quote c))
      (List.filter (fun c => negb (is_nikud c)) s).
Proof.
  intros Hq1 Hq2. unfold replace_char.
  induction s as [|c s IH]; [done|]. simpl.
  destruct (Z.eqb_spec c q1) as [->|Hne].
  - rewrite (quote_is_not_nikud q1 Hq1), (quote_is_not_nikud q2 Hq2). simpl.
    by rewrite Hq1, Hq2.
  - destruct (is_nikud c); simpl; [done|]. by rewrite IH.
Qed.

(** At every level, writing one quote glyph for another does not change
    the normalized text. *)
Theorem normalize_text_quote_glyphs (q1 q2 : Z) (s : pystr) (level : Z) :
  is_quote q1 = true -> is_quote q2 = true ->
  normalize_text (replace_char q1 q2 s) level = normalize_text s level.
Proof.
  intros Hq1 Hq2. destruct s as [|c s]; [done|].
  unfold normalize_text.
  change (replace_char q1 q2 (c :: s))
    with ((if c =? q1 then q2 else c) :: replace_char q1 q2 s).
  cbv zeta.
  change ((if c =? q1 then q2 else c) :: replace_char q1 q2 s)
    with (replace_char q1 q2 (c :: s)).
  by rewrite unquoted_replace_char.
Qed.

(** The witness of the previous theorem: a year written with gershayim
    and with an ASCII double quote. *)
Lemma normalize_text_quote_glyphs_witness :
  normalize_text (replace_char GERSHAYIM DQUOTE (u "תשל״ו")) 0
  = normalize_text (u "תשל״ו") 0.
Proof.
  apply (normalize_text_quote_glyphs GERSHAYIM DQUOTE (u "תשל״ו") 0);
    reflexivity.
Defined.

(** For up to 49 query words the word-set score is monotonic in
    wordsFound. *)
Theorem percent_monotonic (wf wf' tw : Z) :
  1 <= tw <= 49 -> 0 <= wf <= wf' -> wf' <= tw ->
  percent wf tw <= percent wf' tw.
Proof.
  intros Htw Hwf Hwf'.
  rewrite !percent_floor_upto_49 by lia.
  apply Z.div_le_mono; lia.
Qed.

(** The witness of the previous theorem: one and two of three words. *)
Lemma percent_monotonic_witness : percent 1 3 <= percent 2 3.
Proof. apply (percent_monotonic 1 2 3); lia. Defined.

(* ===================================================================== *)
(** ** Sorting puts the elements in order *)

Section SortOrder.
Context {A : Type} (before : A -> A -> bool).
Hypothesis before_asym : forall x y, before x y = true -> before y x = false.
Hypothesis before_negtrans :
  forall x y z, before y x = false -> before z y = false -> before z x = false.

Lemma insert_stable_elem (x y : A) (l : list A) :
  y ∈ insert_stable before x l -> y = x \/ y ∈ l.
Proof.
  induction l as [|z l IH]; simpl.
  - intros ->%list_elem_of_singleton. now left.
  - destruct (before z x).
    + intros [->|H]%elem_of_cons.
      * right. left.
      * destruct (IH H) as [->|H']; [now left|right; now right].
    + intros [->|H]%elem_of_cons; [now left|now right].
Qed.

Lemma insert_stable_sorted (x : A) (l : list A) :
  StronglySorted (fun a b => before b a = false) l ->
  StronglySorted (fun a b => before b a = false) (insert_stable before x l).
Proof.
  induction 1 as [|y l Hs IH Hy]; simpl.
  - repeat constructor.
  - destruct (before y x) eqn:Hyx.
    + constructor; [exact IH|].
      apply Forall_forall. intros b [->|Hb]%insert_stable_elem.
      * now apply before_asym.
      * rewrite Forall_forall in Hy. now apply Hy.
    + constructor; [now constructor|].
      constructor; [exact Hyx|].
      rewrite Forall_forall in Hy |- *. intros b Hb.
      eapply before_negtrans; [exact Hyx|now apply Hy].
Qed.

Lemma sort_stable_sorted (l : list A) :
  StronglySorted (fun a b => before b a = false) (sort_stable before l).
Proof.
  induction l as [|x l IH]; simpl; [constructor|].
  now apply insert_stable_sorted.
Qed.

(** A list that is already in order is left as it is. *)
Lemma sort_stable_id (l : list A) :
  StronglySorted (fun a b => before b a = false) l -> sort_stable before l = l.
Proof.
  induction 1 as [|x l Hs IH Hx]; simpl; [reflexivity|].
  rewrite IH. destruct l as [|y l']; simpl; [reflexivity|].
  apply Forall_cons in Hx as [-> _]. reflexivity.
Qed.
End SortOrder.

Lemma StronglySorted_take {A} (R : A -> A -> Prop) (n : nat) (l : list A) :
  StronglySorted R l -> StronglySorted R (take n l).
Proof.
  intros H. revert n. induction H as [|x l Hs IH Hx]; intros [|n]; simpl;
    try constructor; auto.
  apply Forall_take. exact Hx.
Qed.

Lemma StronglySorted_slice_to {A} (R : A -> A -> Prop) (n : Z) (l : list A) :
  StronglySorted R l -> StronglySorted R (slice_to n l).
Proof. intros H. unfold slice_to. destruct (0 <=? n); now apply StronglySorted_take. Qed.

Lemma StronglySorted_filter {A} (R : A -> A -> Prop) (p : A -> bool) (l : list A) :
  StronglySorted R l -> StronglySorted R (List.filter p l).
Proof.
  induction 1 as [|x l Hs IH Hx]; simpl; [constructor|].
  destruct (p x); [|exact IH].
  constructor; [exact IH|].
  rewrite Forall_forall in Hx |- *. intros b Hb.
  apply Hx. apply list_elem_of_In in Hb. apply filter_In in Hb as [Hb _].
  now apply list_elem_of_In.
Qed.

Lemma StronglySorted_map_key {A B} (R : B -> B -> Prop) (f : A -> A)
    (key : A -> B) (l : list A) :
  (forall a, key (f a) = key a) ->
  StronglySorted (fun a b => R (key a) (key b)) l ->
  StronglySorted (fun a b => R (key a) (key b)) (List.map f l).
Proof.
  intros Hk. induction 1 as [|x l Hs IH Hx]; simpl; constructor; auto.
  rewrite Forall_forall in Hx |- *. intros b Hb.
  apply list_elem_of_In, in_map_iff in Hb as (b0 & <- & Hb0).
  rewrite !Hk. apply Hx. now apply list_elem_of_In.
Qed.

Lemma StronglySorted_weaken {A} (R R' : A -> A -> Prop) (l : list A) :
  (forall a b, R a b -> R' a b) -> StronglySorted R l -> StronglySorted R' l.
Proof.
  intros HR. induction 1 as [|x l Hs IH Hx]; constructor; auto.
  eapply Forall_impl; [exact Hx|]. intros b. apply HR.
Qed.

Lemma lt_pair_false (a b : Z * Z) :
  lt_pair a b = false <-> b.1 < a.1 \/ (b.1 = a.1 /\ b.2 <= a.2).
Proof. unfold lt_pair. destruct a, b; simpl. split; intros; lia. Qed.

Lemma lt_triple_false (a b : Z * Z * Z) :
  lt_triple a b = false
  <-> b.1.1 < a.1.1
      \/ (b.1.1 = a.1.1
          /\ (b.1.2 < a.1.2 \/ (b.1.2 = a.1.2 /\ b.2 <= a.2))).
Proof.
  unfold lt_triple, lt_pair. destruct a as [[a1 a2] a3], b as [[b1 b2] b3]; simpl.
  case_bool_decide as Hd; [injection Hd as -> ->|]; split; intros H; try lia.
  destruct (Z.eq_dec a1 b1), (Z.eq_dec a2 b2); subst; try lia. congruence.
Qed.


Lemma lt_str_asym (a b : pystr) : lt_str a b = true -> lt_str b a = false.
Proof.
  revert b. induction a as [|x a IH]; intros [|y b]; simpl; try congruence.
  intros H. destruct (lt_str a b) eqn:Hab.
  - rewrite (IH _ Hab). lia.
  - destruct (lt_str b a); lia.
Qed.

Lemma lt_str_negtrans (a b c : pystr) :
  lt_str a b = false -> lt_str b c = false -> lt_str a c = false.
Proof.
  revert b c. induction a as [|x a IH]; intros [|y b] [|z c]; simpl;
    try congruence.
  intros H1 H2.
  destruct (lt_str a b) eqn:Hab, (lt_str b c) eqn:Hbc; try lia.
  rewrite (IH _ _ Hab Hbc). lia.
Qed.

Lemma lt_pair_asym (a b : Z * Z) : lt_pair a b = true -> lt_pair b a = false.
Proof. unfold lt_pair. destruct a, b; simpl. lia. Qed.

Lemma lt_pair_negtrans (a b c : Z * Z) :
  lt_pair a b = false -> lt_pair b c = false -> lt_pair a c = false.
Proof. unfold lt_pair. destruct a, b, c; simpl. lia. Qed.

Lemma lt_triple_asym (a b : Z * Z * Z) :
  lt_triple a b = true -> lt_triple b a = false.
Proof.
  intros H. apply lt_triple_false.
  destruct (lt_triple b a) eqn:Hba; [|now apply lt_triple_false].
  exfalso. revert H Hba. unfold lt_triple, lt_pair.
  destruct a as [[a1 a2] a3], b as [[b1 b2] b3]; simpl.
  repeat case_bool_decide; simplify_eq; lia.
Qed.

Lemma lt_triple_negtrans (a b c : Z * Z * Z) :
  lt_triple a b = false -> lt_triple b c = false -> lt_triple a c = false.
Proof. rewrite !lt_triple_false. lia. Qed.

Lemma sort_desc_Z_sorted {A} (key : A -> Z) (l : list A) :
  StronglySorted (fun a b => key b <= key a) (sort_desc Z.ltb key l).
Proof.
  eapply StronglySorted_weaken; [|apply sort_stable_sorted]; simpl; intros; lia.
Qed.

Lemma sort_asc_Z_sorted {A} (key : A -> Z) (l : list A) :
  StronglySorted (fun a b => key a <= key b) (sort_asc Z.ltb key l).
Proof.
  eapply StronglySorted_weaken; [|apply sort_stable_sorted]; simpl; intros; lia.
Qed.

Lemma sort_desc_pair_sorted {A} (key : A -> Z * Z) (l : list A) :
  StronglySorted (fun a b => lt_pair (key a) (key b) = false)
    (sort_desc lt_pair key l).
Proof.
  apply sort_stable_sorted; intros.
  - now apply lt_pair_asym.
  - eapply lt_pair_negtrans; eauto.
Qed.

Lemma sort_desc_triple_sorted {A} (key : A -> Z * Z * Z) (l : list A) :
  StronglySorted (fun a b => lt_triple (key a) (key b) = false)
    (sort_desc lt_triple key l).
Proof.
  apply sort_stable_sorted; intros.
  - now apply lt_triple_asym.
  - eapply lt_triple_negtrans; eauto.
Qed.

Lemma sort_asc_str_sorted {A} (key : A -> pystr) (l : list A) :
  StronglySorted (fun a b => lt_str (key b) (key a) = false)
    (sort_asc lt_str key l).
Proof.
  apply sort_stable_sorted; intros.
  - now apply lt_str_asym.
  - eapply lt_str_negtrans; eauto.
Qed.

Lemma length_slice_to {A} (n : Z) (l : list A) :
  0 <= n -> (length (slice_to n l) <= Z.to_nat n)%nat.
Proof.
  intros Hn. unfold slice_to. destruct (0 <=? n) eqn:H; [|lia].
  rewrite length_take. lia.
Qed.



(** The word-set matcher ranks its results by the number of query
    words found, then by score, then shorter title first, and returns
    at most [top_n] of them. *)
Lemma mara_makom_ordered E maamar_name maamarim top_n :
  StronglySorted
    (fun a b =>
       words_found_of b < words_found_of a
       \/ (words_found_of b = words_found_of a
           /\ (c_score b < c_score a
               \/ (c_score b = c_score a
                   /\ (length (c_name a) <= length (c_name b))%nat))))
    (mara_makom_word_match_search E maamar_name maamarim top_n)
  /\ (0 <= top_n ->
      (length (mara_makom_word_match_search E maamar_name maamarim top_n)
       <= Z.to_nat top_n)%nat).
Proof.
  split; [|apply length_slice_to].
  unfold mara_makom_word_match_search. apply StronglySorted_slice_to.
  unfold mara_makom_ranked.
  destruct maamar_name as [|c0 name0]; [constructor|].
  destruct (mara_makom_query_words E (c0 :: name0)) as [|q qs]; [constructor|].
  eapply StronglySorted_weaken; [|apply sort_desc_triple_sorted].
  intros a b H. apply lt_triple_false in H. unfold mara_makom_key in H.
  simpl in H. lia.
Qed.

(** The whole-phrase matcher returns only records whose normalized
    title holds the normalized query between word boundaries, each with
    score 100, the shortest title first. *)
Lemma exact_search_name_ordered is_word maamar_name maamarim top_n :
  StronglySorted (fun a b => (length (c_name a) <= length (c_name b))%nat)
    (exact_search_name is_word maamar_name maamarim top_n)
  /\ Forall
       (fun r =>
          c_score r = 100 /\ c_fuzzy_score r = 100
          /\ bounded_search is_word None (normalize_text (c_name r) 0)
               (normalize_text maamar_name 0) = true)
       (exact_search_name is_word maamar_name maamarim top_n).
Proof.
  unfold exact_search_name.
  destruct (strip (normalize_text maamar_name 0)) as [|c0 s0];
    [split; constructor|].
  split.
  - apply StronglySorted_slice_to.
    eapply StronglySorted_weaken; [|apply sort_asc_Z_sorted].
    simpl. intros; lia.
  - apply Forall_slice_to.
    rewrite (sort_asc_perm _ _ _). apply Forall_forall. intros r Hr.
    apply list_elem_of_omap in Hr as ([key m] & _ & Hc).
    unfold exact_candidate in Hc. destruct (m_name m) as [|n0 ns] eqn:Hn; [discriminate|].
    destruct (bounded_search _ _ _ _) eqn:Hb; [|discriminate].
    injection Hc as <-. simpl. auto.
Qed.

(** The positional matcher returns its results best score first,
    at most [top_n] of them. *)
Lemma fuzzy_search_name_ordered E maamar_name maamarim top_n :
  score_descending (fuzzy_search_name E maamar_name maamarim top_n)
  /\ (0 <= top_n ->
      (length (fuzzy_search_name E maamar_name maamarim top_n)
       <= Z.to_nat top_n)%nat).
Proof.
  unfold fuzzy_search_name, score_descending.
  destruct (split_ws (normalize_text (expand_abbreviations E maamar_name) 0));
    [split; [constructor|simpl; lia]|].
  split; [|apply length_slice_to].
  apply StronglySorted_slice_to, sort_desc_Z_sorted.
Qed.

(** Each of the three title matchers returns its results in its own
    order, cut at [top_n]: the word-set matcher by the number of query
    words found, then by score, then shorter title first; the
    whole-phrase matcher, whose results all score 100 and hold the
    normalized query between word boundaries, shortest title first; the
    positional matcher best score first. *)
Theorem title_matchers_ordered E is_word maamar_name maamarim top_n :
  (StronglySorted
     (fun a b =>
        words_found_of b < words_found_of a
        \/ (words_found_of b = words_found_of a
            /\ (c_score b < c_score a
                \/ (c_score b = c_score a
                    /\ (length (c_name a) <= length (c_name b))%nat))))
     (mara_makom_word_match_search E maamar_name maamarim top_n)
   /\ (0 <= top_n ->
       (length (mara_makom_word_match_search E maamar_name maamarim top_n)
        <= Z.to_nat top_n)%nat))
  /\ (StronglySorted (fun a b => (length (c_name a) <= length (c_name b))%nat)
        (exact_search_name is_word maamar_name maamarim top_n)
      /\ Forall
           (fun r =>
              c_score r = 100 /\ c_fuzzy_score r = 100
              /\ bounded_search is_word None (normalize_text (c_name r) 0)
                   (normalize_text maamar_name 0) = true)
           (exact_search_name is_word maamar_name maamarim top_n))
  /\ (score_descending (fuzzy_search_name E maamar_name maamarim top_n)
      /\ (0 <= top_n ->
          (length (fuzzy_search_name E maamar_name maamarim top_n)
           <= Z.to_nat top_n)%nat)).
Proof.
  split; [apply mara_makom_ordered|].
  split; [apply exact_search_name_ordered|apply fuzzy_search_name_ordered].
Qed.

(** Breaking ties by mentions reorders the results and nothing
    else; with tokens to count, the results come out best score first,
    equal scores by the number of mentions of the tokens in the text;
    and a list already in that order is returned as it is. *)
Theorem rank_ties_orders_by_score_then_mentions results tokens :
  _rank_ties_by_keyword_mentions results tokens ≡ₚ results
  /\ (tokens <> [] ->
      StronglySorted
        (fun a b =>
           c_score b < c_score a
           \/ (c_score b = c_score a
               /\ _count_keyword_mentions_in_text (c_text b) tokens
                  <= _count_keyword_mentions_in_text (c_text a) tokens))
        (_rank_ties_by_keyword_mentions results tokens))
  /\ (StronglySorted
        (fun a b =>
           c_score b < c_score a
           \/ (c_score b = c_score a
               /\ _count_keyword_mentions_in_text (c_text b) tokens
                  <= _count_keyword_mentions_in_text (c_text a) tokens))
        results ->
      _rank_ties_by_keyword_mentions results tokens = results).
Proof.
  unfold _rank_ties_by_keyword_mentions.
  destruct results as [|r rs];
    [split; [reflexivity|split; [intros _; constructor|reflexivity]]|].
  destruct tokens as [|t ts];
    [split; [reflexivity|split; [congruence|reflexivity]]|].
  set (key := fun r0 => (c_score r0, _count_keyword_mentions_in_text (c_text r0) (t :: ts))).
  split; [apply sort_desc_perm|]. split.
  - intros _. eapply StronglySorted_weaken; [|apply (sort_desc_pair_sorted key)].
    intros a b H. apply lt_pair_false in H. exact H.
  - intros Hs. apply sort_stable_id.
    eapply StronglySorted_weaken; [|exact Hs].
    intros a b H. apply lt_pair_false. exact H.
Qed.

(** ** Re-ranking keeps the records *)

Lemma same_record_refl r : same_record r r.
Proof. repeat split. Qed.

Lemma same_record_trans r1 r2 r3 :
  same_record r1 r2 -> same_record r2 r3 -> same_record r1 r3.
Proof.
  unfold same_record. intros (?&?&?&?&?&?&?) (?&?&?&?&?&?&?).
  repeat split; congruence.
Qed.

Lemma rerank_candidate_same_record E mode c c' :
  rerank_candidate E mode c = Some c' -> same_record c' c.
Proof.
  destruct mode as [ai|qw|]; simpl.
  - unfold rerank_ai. destruct (ai_table E ai c) as [table|]; [|discriminate].
    destruct (is_empty _); intros [= <-]; repeat split.
  - unfold rerank_fallback. destruct (is_empty _); intros [= <-]; repeat split.
  - destruct (is_empty _); intros [= <-]; repeat split.
Qed.

Lemma keyword_resort_perm mode cs :
  exists annotate,
    (forall c, same_record (annotate c) c /\ c_score (annotate c) = c_score c)
    /\ keyword_resort mode cs ≡ₚ List.map annotate cs.
Proof.
  destruct mode as [ai|qw|]; simpl.
  - exists (fun c => set_kw_counts c None None). split; [intros; repeat split|].
    apply Permutation_map, sort_desc_perm.
  - exists (fun c => c). split; [intros; repeat split|].
    rewrite map_id. apply sort_desc_perm.
  - exists (fun c => c). split; [intros; repeat split|].
    rewrite map_id. apply sort_desc_perm.
Qed.

Lemma keyword_resort_sorted mode cs : score_descending (keyword_resort mode cs).
Proof.
  unfold score_descending. destruct mode as [ai|qw|]; simpl;
    try apply sort_desc_Z_sorted.
  apply (StronglySorted_map_key (fun x y => y <= x) _ c_score); [reflexivity|].
  eapply StronglySorted_weaken; [|apply sort_desc_triple_sorted].
  intros a b H. apply lt_triple_false in H. unfold keyword_sort_key in H.
  simpl in H. lia.
Qed.

Lemma keyword_search_cases E question candidates req forced w :
  keyword_search E question candidates req forced w
    = (Returns (candidates, None), w) /\ (question = [] \/ candidates = [])
  \/ question <> [] /\ candidates <> []
     /\ exists ai w',
          (match forced with
           | Some ((_ :: _) as kws) => (Some kws, w)
           | _ => extract_keywords_from_question E question w
           end) = (ai, w')
          /\ ((keyword_search E question candidates req forced w = (Raised, w'))
              \/ exists cs,
                   mapM (rerank_candidate E (keyword_mode_of ai question)) candidates
                     = Some cs
                   /\ keyword_search E question candidates req forced w
                      = (Returns (keyword_resort (keyword_mode_of ai question) cs,
                                  Some (reported_keywords ai question)), w')).
Proof.
  unfold keyword_search.
  destruct question as [|q0 qs]; [left; auto|].
  destruct candidates as [|c0 cs0]; [left; auto|].
  right. split; [discriminate|]. split; [discriminate|].
  cbn [is_empty orb].
  destruct (match forced with Some ((_ :: _) as kws) => (Some kws, w) | _ => _ end)
    as [ai w'] eqn:Hx.
  exists ai, w'. split; [reflexivity|].
  destruct (negb _ && req); [now left|].
  destruct (mapM _ _) as [cs|]; [right; eauto|now left].
Qed.

Lemma keyword_search_annotated E question candidates req forced w cs kws w' :
  keyword_search E question candidates req forced w = (Returns (cs, kws), w') ->
  (exists annotated,
     cs ≡ₚ annotated /\ Forall2 same_record annotated candidates)
  /\ length cs = length candidates
  /\ (question <> [] -> candidates <> [] -> score_descending cs).
Proof.
  intros H.
  destruct (keyword_search_cases E question candidates req forced w)
    as [[H0 Hem]|(Hq & Hc & ai & w1 & _ & [Hr|(cs0 & Hm & H1)])].
  - rewrite H0 in H. injection H as <- <- <-.
    split; [|split; [reflexivity|intros; destruct Hem; contradiction]].
    exists candidates. split; [reflexivity|].
    apply Forall2_same_length_lookup_2; [reflexivity|].
    intros i x y Hx Hy. rewrite Hx in Hy. injection Hy as <-. apply same_record_refl.
  - rewrite Hr in H. discriminate.
  - rewrite H1 in H. injection H as <- <- <-.
    apply mapM_Some in Hm.
    destruct (keyword_resort_perm (keyword_mode_of ai question) cs0)
      as (annotate & Hann & Hperm).
    split; [|split].
    + exists (List.map annotate cs0). split; [exact Hperm|].
      apply Forall2_fmap_l. apply Forall2_flip.
      eapply Forall2_impl; [exact Hm|].
      intros c c' Hcc. simpl in Hcc |- *.
      eapply same_record_trans; [apply Hann|].
      eapply rerank_candidate_same_record; exact Hcc.
    + rewrite Hperm, length_map. symmetry. eapply Forall2_length; eauto.
    + intros _ _. apply keyword_resort_sorted.
Qed.

(** What [keyword_search] returns is the list of candidates it was
    given, each possibly re-scored, in a new order: no candidate is
    dropped, added or turned into another record; and unless the question
    or the list is empty the order is best score first. *)
Theorem keyword_search_keeps_candidates E question candidates req forced w cs kws w' :
  keyword_search E question candidates req forced w = (Returns (cs, kws), w') ->
  (exists annotated,
     cs ≡ₚ annotated /\ Forall2 same_record annotated candidates)
  /\ length cs = length candidates
  /\ (question <> [] -> candidates <> [] -> score_descending cs).
Proof. apply keyword_search_annotated. Qed.



(** ** Tables checked by evaluation *)

Lemma percent_bounds_checked :
  ltac:(let t := eval unfold percent_bounds_table in (percent_bounds_table = true) in
        exact t).
Proof. vm_compute; reflexivity. Qed.

Lemma blend_bounds_checked :
  ltac:(let t := eval unfold blend_bounds_table in (blend_bounds_table = true) in
        exact t).
Proof. vm_compute; reflexivity. Qed.

Lemma percent_bounds_upto_200 (wf tw : Z) :
  1 <= tw <= 200 -> 0 <= wf <= tw -> 0 <= percent wf tw <= 100.
Proof.
  intros Htw Hwf.
  pose proof percent_bounds_checked as Ht. rewrite forallb_forall in Ht.
  specialize (Ht tw (Zrange_In 1 200 tw ltac:(lia))). cbv beta in Ht.
  rewrite forallb_forall in Ht.
  specialize (Ht wf (Zrange_In 0 (Z.to_nat tw + 1) wf ltac:(lia))).
  cbv beta in Ht. lia.
Qed.

Lemma resolve_all_keys E c kws l :
  resolve_all E c kws = Some l -> forall e, e ∈ l -> e.1 ∈ kws.
Proof.
  revert l. induction kws as [|kw rest IH]; simpl; intros l H e He.
  - injection H as <-. inversion He.
  - destruct (resolve_keyword E c kw).
    + discriminate.
    + right. eapply IH; eauto.
    + destruct (resolve_all E c rest) as [l'|]; [|discriminate].
      injection H as <-. apply elem_of_cons in He as [->|He]; [left|right].
      eapply IH; eauto.
Qed.

Lemma NoDup_subset_length (l k : list pystr) :
  NoDup l -> (forall x, x ∈ l -> x ∈ k) -> (length l <= length k)%nat.
Proof.
  intros Hn Hs. apply submseteq_length, NoDup_submseteq; assumption.
Qed.

Lemma NoDup_list_filter {A} (p : A -> bool) (l : list A) :
  NoDup l -> NoDup (List.filter p l).
Proof.
  induction 1 as [|x l Hx Hn IH]; simpl; [constructor|].
  destruct (p x); [|exact IH]. constructor; [|exact IH].
  intros Hin. apply Hx. apply list_elem_of_In in Hin.
  apply filter_In in Hin as [Hin _]. now apply list_elem_of_In.
Qed.

Lemma ai_matching_words_length E ai c table :
  ai_table E ai c = Some table ->
  (length (ai_matching_words E ai c table) <= length ai)%nat.
Proof.
  intros Ht.
  assert (Hk : forall x, x ∈ remove_dups (List.map fst table) -> x ∈ ai).
  { intros x Hx. rewrite elem_of_remove_dups in Hx.
    apply list_elem_of_fmap in Hx as (e & -> & He).
    unfold ai_table in Ht. destruct (is_empty (c_keywords_all c)).
    - injection Ht as <-. inversion He.
    - eapply resolve_all_keys; eauto. }
  unfold ai_matching_words. destruct (c_text c) as [|t0 ts].
  - apply NoDup_subset_length; [apply NoDup_remove_dups|exact Hk].
  - unfold add_all. apply NoDup_subset_length; [apply NoDup_remove_dups|].
    intros x Hx. rewrite elem_of_remove_dups, elem_of_app in Hx.
    destruct Hx as [Hx|Hx].
    + now apply Hk.
    + apply list_elem_of_In, filter_In in Hx as [Hx _]. now apply list_elem_of_In.
Qed.

Lemma fallback_matching_words_length qw c :
  (length (fallback_matching_words qw c) <= length qw)%nat.
Proof.
  unfold fallback_matching_words. destruct (c_keywords_all c); [simpl; lia|].
  apply NoDup_subset_length.
  - apply NoDup_list_filter, NoDup_remove_dups.
  - intros x Hx. apply list_elem_of_In, filter_In in Hx as [Hx _].
    apply list_elem_of_In in Hx. now rewrite elem_of_remove_dups in Hx.
Qed.

Lemma rescored_range c ks :
  0 <= c_score c <= 100 -> 0 <= ks <= 100 ->
  0 <= rescored c ks <= 100
  /\ (c_fuzzy_score c <> 0 \/ c_score c <> 50 -> c_score c <= rescored c ks).
Proof.
  intros Hs Hk. unfold rescored.
  rewrite (keyword_bonus_fifth ks Hk).
  assert (0 <= ks / 5 <= 20).
  { split; [apply Z.div_pos; lia|]. apply Z.div_le_upper_bound; lia. }
  destruct ((c_fuzzy_score c =? 0) && (c_score c =? 50)) eqn:Hg; lia.
Qed.

(** With at most 200 keywords to score against, re-ranking a
    candidate whose score is within 0..100 leaves it within 0..100, gives
    a keyword score within 0..100 when it sets one, and never lowers the
    score of a candidate that came from a title or a year match. *)
Theorem keyword_rerank_score_range E mode c c' :
  keyword_total mode <= 200 ->
  0 <= c_score c <= 100 ->
  rerank_candidate E mode c = Some c' ->
  0 <= c_score c' <= 100
  /\ (c' = c \/ 0 <= c_keyword_score c' <= 100)
  /\ (c_fuzzy_score c <> 0 \/ c_score c <> 50 -> c_score c <= c_score c').
Proof.
  intros Ht Hs Hr. destruct mode as [ai|qw|];
    cbn [rerank_candidate keyword_total] in Hr, Ht.
  - unfold rerank_ai in Hr.
    destruct (ai_table E ai c) as [table|] eqn:Htab; [|discriminate].
    pose proof (ai_matching_words_length E ai c table Htab) as Hlen.
    destruct (ai_matching_words E ai c table) as [|m0 ms] eqn:Hm.
    + injection Hr as <-. split; [exact Hs|]. split; [now left|lia].
    + cbn [is_empty] in Hr. injection Hr as <-. cbn [c_score c_keyword_score set_score set_kw_counts set_matched set_keyword_score].
      set (ks := percent _ _).
      assert (Hk : 0 <= ks <= 100).
      { subst ks. cbn [length] in Hlen.
        destruct ai as [|a0 ai']; [cbn [length] in Hlen; lia|].
        cbn [length Nat.eqb] in Ht, Hlen |- *.
        apply percent_bounds_upto_200; lia. }
      assert (Hrs : rescored
                 (set_kw_counts
                    (set_matched (set_keyword_score c ks)
                       (List.filter (fun kw => str_in kw (m0 :: ms)) ai)
                       (list_to_map
                          (List.map (fun kw => (kw, count_of (ai_counts E ai c table) kw)) ai)))
                    (Some (fold_right Z.min
                             (default 0 (head (List.map (count_of (ai_counts E ai c table)) ai)))
                             (List.map (count_of (ai_counts E ai c table)) ai)))
                    (Some (fold_right Z.add 0
                             (List.map (count_of (ai_counts E ai c table)) ai))))
                 ks = rescored c ks) by reflexivity.
      rewrite Hrs. destruct (rescored_range c ks Hs Hk) as [H1 H2].
      split; [exact H1|]. split; [now right|exact H2].
  - injection Hr as <-. unfold rerank_fallback.
    pose proof (fallback_matching_words_length qw c) as Hlen.
    destruct (fallback_matching_words qw c) as [|m0 ms] eqn:Hm.
    + cbn [is_empty]. split; [exact Hs|]. split; [now left|lia].
    + cbn [is_empty c_score c_keyword_score set_score set_matched set_keyword_score].
      set (ks := percent _ _).
      assert (Hk : 0 <= ks <= 100).
      { subst ks. cbn [length] in Hlen |- *.
        apply percent_bounds_upto_200; lia. }
      match goal with |- context [rescored ?x ks] =>
        change (rescored x ks) with (rescored c ks) end.
      destruct (rescored_range c ks Hs Hk) as [H1 H2].
      split; [exact H1|]. split; [now right|exact H2].
  - destruct (is_empty _); [|discriminate]. injection Hr as <-.
    split; [exact Hs|]. split; [now left|lia].
Qed.

Lemma keyword_rerank_score_range_witness :
  match rerank_candidate Examples.E_plain
          (AiKeywords [u "שכינה"; u "דוד"; u "מלך"])
          (Examples.scored 60 60 [] [u "שכינה"]) with
  | Some c' => 0 <= c_score c' <= 100
  | None => False
  end.
Proof.
  destruct (rerank_candidate Examples.E_plain
              (AiKeywords [u "שכינה"; u "דוד"; u "מלך"])
              (Examples.scored 60 60 [] [u "שכינה"])) as [c'|] eqn:H.
  - refine (proj1 (keyword_rerank_score_range _ _ _ _ _ _ H)).
    + vm_compute. intros Hc. discriminate Hc.
    + vm_compute. split; intros Hc; discriminate Hc.
  - vm_compute in H. discriminate H.
Defined.

Lemma keyword_search_keeps_candidates_witness :
  match (keyword_search Examples.E_plain (u "שכינה")
           [Examples.scored 60 60 [] [u "שכינה"]; Examples.scored 70 70 [] []]
           false None Examples.w0).1 with
  | Returns (cs, _) => length cs = 2%nat
  | Raised => False
  end.
Proof.
  destruct (keyword_search Examples.E_plain (u "שכינה")
              [Examples.scored 60 60 [] [u "שכינה"]; Examples.scored 70 70 [] []]
              false None Examples.w0) as [[[cs kws]|] w'] eqn:H; simpl.
  - exact (proj1 (proj2 (keyword_search_keeps_candidates _ _ _ _ _ _ _ _ _ H))).
  - vm_compute in H. discriminate H.
Defined.

(** ** The semantic blend *)

Lemma blended_score_range (s sem : Z) :
  0 <= s <= 100 -> -100 <= sem <= 100 ->
  exists v, blended_score s sem = Some v
            /\ -30 <= v <= 100 /\ (0 <= sem -> 0 <= v).
Proof.
  intros Hs Hsem.
  pose proof blend_bounds_checked as Ht. rewrite forallb_forall in Ht.
  specialize (Ht s (Zrange_In 0 101 s ltac:(lia))). cbv beta in Ht.
  rewrite forallb_forall in Ht.
  specialize (Ht sem (Zrange_In (-100) 201 sem ltac:(lia))). cbv beta in Ht.
  destruct (blended_score s sem) as [v|]; [|discriminate].
  exists v. split; [reflexivity|]. lia.
Qed.

(** Blending a score within 0..100 with a semantic score within
    -100..100 gives a score between -30 and 100, and one that is not
    negative whenever the semantic score is not. *)
Theorem blend_score_range E question_embedding c c' :
  blend E question_embedding c = Some c' ->
  0 <= c_score c <= 100 ->
  -100 <= c_semantic_score c' <= 100 ->
  -30 <= c_score c' <= 100
  /\ (0 <= c_semantic_score c' -> 0 <= c_score c')
  /\ same_record c' c.
Proof.
  unfold blend. intros H Hs Hsem.
  destruct (cosine_similarity E question_embedding (default [] (c_embedding c)))
    as [similarity|]; [|discriminate].
  cbn [mbind option_bind] in H.
  destruct (int_of_float_opt (PrimFloat.mul similarity (float_of_Z 100)))
    as [semantic_score|]; [|discriminate].
  cbn [mbind option_bind] in H.
  destruct (blended_score (c_score c) semantic_score) as [score|] eqn:Hb;
    [|discriminate].
  cbn [mbind option_bind] in H. injection H as <-.
  cbn [c_score c_semantic_score set_semantic_score set_score] in *.
  destruct (blended_score_range (c_score c) semantic_score Hs Hsem)
    as (v & Hv & Hr & Hn).
  rewrite Hb in Hv. injection Hv as <-.
  split; [exact Hr|]. split; [exact Hn|]. repeat split.
Qed.

Lemma blend_score_range_witness :
  match blend Examples.E_service [1%float; 0%float]
          (general_candidate
             (u "a", Maamar (u "א") YearMissing [] (u "שכינה בתחתונים") [u "שכינה"]
                       (Some [(-1)%float; 0%float]))) with
  | Some c' => -30 <= c_score c' <= 100
  | None => False
  end.
Proof.
  destruct (blend Examples.E_service [1%float; 0%float]
              (general_candidate
                 (u "a", Maamar (u "א") YearMissing [] (u "שכינה בתחתונים") [u "שכינה"]
                           (Some [(-1)%float; 0%float])))) as [c'|] eqn:H.
  - pose proof H as H'. vm_compute in H'. injection H' as Hc.
    refine (proj1 (blend_score_range _ _ _ _ H _ _)).
    + vm_compute. split; intros Hx; discriminate Hx.
    + rewrite <- Hc. vm_compute. split; intros Hx; discriminate Hx.
  - vm_compute in H. discriminate H.
Defined.

(** ** What a search does to the world *)

Lemma extract_world E question w :
  at_most_one_request question w (extract_keywords_from_question E question w).2
  /\ (HAS_REQUESTS E = false \/ KIMI_API_KEY E = [] ->
      (extract_keywords_from_question E question w).2 = w).
Proof.
  unfold extract_keywords_from_question, at_most_one_request.
  destruct (if is_empty (strip question) then None else cache w !! strip question)
    as [kws|]; [split; [now left|reflexivity]|].
  destruct (HAS_REQUESTS E); cbn [negb]; [|split; [now left|reflexivity]].
  destruct (KIMI_API_KEY E) as [|k0 ks]; cbn [is_empty];
    [split; [now left|reflexivity]|].
  split; [|intros [?|?]; discriminate].
  right.
  destruct (chat_completions E (length (posted w)) question) as [|status content];
    [split; [reflexivity|now left]|].
  destruct (status =? 200); [|split; [reflexivity|now left]].
  destruct content as [body|]; [|split; [reflexivity|now left]].
  destruct (str_eqb (lower (strip body)) NONE_ANSWER).
  - split; [reflexivity|]. right. eexists. reflexivity.
  - destruct (is_empty (strip question)); cbn [snd].
    + split; [reflexivity|now left].
    + split; [reflexivity|]. right. eexists. reflexivity.
Qed.

Lemma keyword_search_world E question candidates req forced w :
  at_most_one_request question w
    (keyword_search E question candidates req forced w).2
  /\ (question = [] \/ HAS_REQUESTS E = false \/ KIMI_API_KEY E = [] ->
      (keyword_search E question candidates req forced w).2 = w).
Proof.
  destruct (keyword_search_cases E question candidates req forced w)
    as [[H0 Hem]|(Hq & Hc & ai & w1 & Hx & Hk)].
  - rewrite H0. split; [now left|reflexivity].
  - assert (Hw : (keyword_search E question candidates req forced w).2 = w1).
    { destruct Hk as [->|(cs & _ & ->)]; reflexivity. }
    rewrite Hw.
    assert (Hw1 : w1 = w \/ w1 = (extract_keywords_from_question E question w).2).
    { destruct forced as [[|k0 ks]|].
      - right. now rewrite Hx.
      - left. now injection Hx as _ <-.
      - right. now rewrite Hx. }
    destruct Hw1 as [->| ->].
    + split; [now left|reflexivity].
    + split; [apply extract_world|].
      intros [?|H]; [contradiction|]. now apply extract_world.
Qed.

Lemma rank_by_question_world E question use_semantic results w :
  at_most_one_request question w
    (rank_by_question E question use_semantic results w).2
  /\ (question = [] \/ HAS_REQUESTS E = false \/ KIMI_API_KEY E = [] ->
      (rank_by_question E question use_semantic results w).2 = w).
Proof.
  unfold rank_by_question.
  pose proof (keyword_search_world E question results false None w) as H.
  destruct (keyword_search E question results false None w) as [[[rs kws]|] w1];
    exact H.
Qed.

Lemma rank_title_by_question_world E question results w :
  at_most_one_request question w (rank_title_by_question E question results w).2
  /\ (question = [] \/ HAS_REQUESTS E = false \/ KIMI_API_KEY E = [] ->
      (rank_title_by_question E question results w).2 = w).
Proof.
  unfold rank_title_by_question.
  destruct question as [|q0 qs]; [split; [now left|reflexivity]|].
  destruct results as [|r0 rs]; [split; [now left|reflexivity]|].
  cbn [is_empty negb andb].
  pose proof (extract_world E (q0 :: qs) w) as [H1 H2].
  destruct (extract_keywords_from_question E (q0 :: qs) w) as [[[|k0 ks]|] w1];
    (split; [exact H1|intros [?|H]; [discriminate|now apply H2]]).
Qed.

Lemma title_branch_world E maamarim name yn question L w :
  (title_branch E maamarim name yn question L w).2
  = (rank_title_by_question E question
       (title_candidates E maamarim name yn L) w).2
  \/ (title_branch E maamarim name yn question L w).2 = w.
Proof.
  unfold title_branch.
  destruct (title_candidates E maamarim name yn L) as [|first rest]; [now right|].
  left.
  destruct (rank_title_by_question E question (first :: rest) w) as [rs w1].
  destruct (negb _ && _); [destruct (L <=? 0)|]; reflexivity.
Qed.

Lemma year_only_branch_world E maamarim y question L ms us w :
  at_most_one_request question w
    (year_only_branch E maamarim y question L ms us w).2
  /\ (question = [] \/ HAS_REQUESTS E = false \/ KIMI_API_KEY E = [] ->
      (year_only_branch E maamarim y question L ms us w).2 = w).
Proof.
  unfold year_only_branch.
  destruct (year_only_scan y maamarim) as [results|];
    [|split; [now left|reflexivity]].
  destruct (negb (is_empty question) && negb (is_empty results)) eqn:Hg.
  - pose proof (rank_by_question_world E question us results w) as H.
    destruct (rank_by_question E question us results w) as [[rs|] w1]; exact H.
  - split; [now left|reflexivity].
Qed.

Lemma question_only_branch_world E maamarim question L us w :
  at_most_one_request question w
    (question_only_branch E maamarim question L us w).2
  /\ (question = [] \/ HAS_REQUESTS E = false \/ KIMI_API_KEY E = [] ->
      (question_only_branch E maamarim question L us w).2 = w).
Proof.
  unfold question_only_branch.
  destruct question as [|q0 qs]; [split; [now left|reflexivity]|].
  pose proof (rank_by_question_world E (q0 :: qs) us
                (List.map general_candidate maamarim) w) as H.
  destruct (rank_by_question E (q0 :: qs) us _ w) as [[rs|] w1]; exact H.
Qed.

(** The three branches of [search_maamar]. *)
Lemma search_maamar_cases E maamarim name year question L ms us w :
  exists flag title yn,
    prepare name year = (flag, title, yn)
    /\ ((exists y, yn = Some y /\ y <> [] /\ strip title = []
         /\ search_maamar E maamarim name year question L ms us w
            = year_only_branch E maamarim y question L ms us w)
        \/ (strip title <> []
            /\ search_maamar E maamarim name year question L ms us w
               = (Returns (title_branch E maamarim title yn question L w).1,
                  (title_branch E maamarim title yn question L w).2))
        \/ ((yn = None \/ yn = Some []) /\ strip title = []
            /\ search_maamar E maamarim name year question L ms us w
               = question_only_branch E maamarim question L us w)).
Proof.
  unfold search_maamar.
  destruct (prepare name year) as [[flag title] yn].
  exists flag, title, yn. split; [reflexivity|].
  destruct (strip title) as [|t0 ts] eqn:Ht; cbn [is_empty negb].
  - destruct yn as [[|y0 ys]|].
    + right. right. auto.
    + left. exists (y0 :: ys). auto.
    + right. right. auto.
  - right. left. split; [discriminate|].
    destruct (title_branch E maamarim title yn question L w) as [rs w1].
    destruct yn as [[|y0 ys]|]; reflexivity.
Qed.

Lemma search_maamar_world E maamarim name year question L ms us w :
  at_most_one_request question w
    (search_maamar E maamarim name year question L ms us w).2
  /\ (question = [] \/ HAS_REQUESTS E = false \/ KIMI_API_KEY E = [] ->
      (search_maamar E maamarim name year question L ms us w).2 = w)
  /\ (question = [] ->
      existsb (fun e => year_is_none e.2) maamarim = false ->
      exists results,
        (search_maamar E maamarim name year question L ms us w).1 = Returns results)
  /\ (question = [] ->
      (search_maamar E maamarim name year question L ms us w).1 = Raised ->
      existsb (fun e => year_is_none e.2) maamarim = true
      /\ exists flag title y,
           prepare name year = (flag, title, Some y) /\ y <> []
           /\ strip title = [])
  /\ (forall flag title y,
        prepare name year = (flag, title, Some y) -> y <> [] -> strip title = [] ->
        existsb (fun e => year_is_none e.2) maamarim = true ->
        search_maamar E maamarim name year question L ms us w = (Raised, w)).
Proof.
  assert (Hq : question = [] ->
            (search_maamar E maamarim name year question L ms us w).1 = Raised ->
            existsb (fun e => year_is_none e.2) maamarim = true
            /\ exists flag title y,
                 prepare name year = (flag, title, Some y) /\ y <> []
                 /\ strip title = []).
  { intros ->.
    destruct (search_maamar_cases E maamarim name year [] L ms us w)
      as (flag & title & yn & Hp & [(y & -> & Hy & Ht & ->)|[(_ & ->)|(_ & _ & ->)]]).
    - unfold year_only_branch. rewrite year_only_scan_spec.
      destruct (existsb _ maamarim); [|discriminate].
      intros _. split; [reflexivity|]. by exists flag, title, y.
    - discriminate.
    - discriminate. }
  split; [|split; [|split; [|split; [exact Hq|]]]].
  - destruct (search_maamar_cases E maamarim name year question L ms us w)
      as (flag & title & yn & _ & [(y & _ & _ & _ & ->)|[(_ & ->)|(_ & _ & ->)]]).
    + apply year_only_branch_world.
    + cbn [snd].
      destruct (title_branch_world E maamarim title yn question L w) as [-> | ->];
        [|now left].
      apply rank_title_by_question_world.
    + apply question_only_branch_world.
  - destruct (search_maamar_cases E maamarim name year question L ms us w)
      as (flag & title & yn & _ & [(y & _ & _ & _ & ->)|[(_ & ->)|(_ & _ & ->)]]).
    + apply year_only_branch_world.
    + cbn [snd].
      destruct (title_branch_world E maamarim title yn question L w) as [-> | ->];
        [|reflexivity].
      apply rank_title_by_question_world.
    + apply question_only_branch_world.
  - intros Hquestion Hnone.
    destruct (search_maamar E maamarim name year question L ms us w).1
      as [results|] eqn:Hs; [eauto|].
    destruct (Hq Hquestion eq_refl) as [Hex _]. congruence.
  - intros flag title y Hp Hy Ht Hex.
    rewrite (search_year_only _ _ _ _ _ _ _ _ _ _ _ _ Hp Hy Ht).
    unfold year_only_branch. by rewrite year_only_scan_spec, Hex.
Qed.

(** One search sends at most one request to the chat service, and
    then only the cache entry of its question can change; with an empty
    question, or without the HTTP library or an API key, it sends none
    and leaves the cache as it is.  With an empty question it returns
    when no record holds [None] under [year], and fails only when the
    query is a year without a title and some record does; such a query
    over such a corpus fails whatever the question, before anything is
    sent. *)
Theorem search_maamar_one_request E maamarim name year question L ms us w :
  at_most_one_request question w
    (search_maamar E maamarim name year question L ms us w).2
  /\ (question = [] \/ HAS_REQUESTS E = false \/ KIMI_API_KEY E = [] ->
      (search_maamar E maamarim name year question L ms us w).2 = w)
  /\ (question = [] ->
      existsb (fun e => year_is_none e.2) maamarim = false ->
      exists results,
        (search_maamar E maamarim name year question L ms us w).1 = Returns results)
  /\ (question = [] ->
      (search_maamar E maamarim name year question L ms us w).1 = Raised ->
      existsb (fun e => year_is_none e.2) maamarim = true
      /\ exists flag title y,
           prepare name year = (flag, title, Some y) /\ y <> []
           /\ strip title = [])
  /\ (forall flag title y,
        prepare name year = (flag, title, Some y) -> y <> [] -> strip title = [] ->
        existsb (fun e => year_is_none e.2) maamarim = true ->
        search_maamar E maamarim name year question L ms us w = (Raised, w)).
Proof. apply search_maamar_world. Qed.

(** A year without a title, over a corpus whose second record holds
    [None] under [year]: the search fails and nothing is sent. *)
Lemma search_maamar_one_request_witness :
  search_maamar Examples.E_plain Examples.one_year_none (u "תשל״ו") None []
    5 0 true Examples.w0 = (Raised, Examples.w0).
Proof.
  refine (proj2 (proj2 (proj2 (proj2
            (search_maamar_one_request Examples.E_plain Examples.one_year_none
               (u "תשל״ו") None [] 5 0 true Examples.w0))))
            false [] (u "תשלו") _ _ _ _).
  - vm_compute. reflexivity.
  - discriminate.
  - reflexivity.
  - vm_compute. reflexivity.
Defined.

(** ** Where the results come from *)

Lemma blend_same_record E qe c c' : blend E qe c = Some c' -> same_record c' c.
Proof.
  unfold blend. intros H.
  destruct (cosine_similarity E qe (default [] (c_embedding c))) as [sim|];
    [|discriminate].
  cbn [mbind option_bind] in H.
  destruct (int_of_float_opt _) as [sem|]; [|discriminate].
  cbn [mbind option_bind] in H.
  destruct (blended_score _ _) as [score|]; [|discriminate].
  cbn [mbind option_bind] in H. injection H as <-. repeat split.
Qed.

Lemma blend_all_records E qe cs :
  Forall2 same_record (blend_all E qe cs).1 cs.
Proof.
  induction cs as [|c rest IH]; simpl; [constructor|].
  destruct (has_embedding c).
  - destruct (blend E qe c) as [c'|] eqn:Hb.
    + destruct (blend_all E qe rest) as [rest' raised]. simpl in *.
      constructor; [eapply blend_same_record; eauto|exact IH].
    + simpl. constructor; [apply same_record_refl|].
      clear. induction rest; constructor; auto using same_record_refl.
  - destruct (blend_all E qe rest) as [rest' raised]. simpl in *.
    constructor; [apply same_record_refl|exact IH].
Qed.

Lemma Forall2_same_record_elem (l k : list candidate) r :
  Forall2 same_record l k -> r ∈ l -> exists r0, r0 ∈ k /\ same_record r r0.
Proof.
  intros H Hr. apply list_elem_of_lookup in Hr as [i Hi].
  destruct (Forall2_lookup_l _ _ _ _ _ H Hi) as (r0 & Hk & Hs).
  exists r0. split; [eapply list_elem_of_lookup_2; eauto|exact Hs].
Qed.

Lemma semantic_search_origin E question cs r :
  r ∈ semantic_search E question cs -> exists r0, r0 ∈ cs /\ same_record r r0.
Proof.
  assert (Hid : r ∈ cs -> exists r0, r0 ∈ cs /\ same_record r r0).
  { intros Hr. exists r. split; [exact Hr|apply same_record_refl]. }
  unfold semantic_search.
  destruct (is_empty question || is_empty cs); [exact Hid|].
  destruct (negb (ENABLE_SEMANTIC_SEARCH E)); [exact Hid|].
  destruct (negb (existsb has_embedding cs)); [exact Hid|].
  destruct (negb (HAS_OPENAI E) || negb (HAS_NUMPY E)); [exact Hid|].
  destruct (embeddings_create E question) as [qe|]; [|exact Hid].
  pose proof (blend_all_records E qe cs) as Hb.
  destruct (blend_all E qe cs) as [cs' raised]. simpl in Hb.
  destruct raised.
  - intros Hr. eapply Forall2_same_record_elem; eauto.
  - intros Hr. rewrite (sort_desc_perm _ _ _) in Hr.
    apply list_elem_of_In, filter_In in Hr as [Hr _]. apply list_elem_of_In in Hr.
    eapply Forall2_same_record_elem; eauto.
Qed.

Lemma semantic_search_length E question cs :
  (length (semantic_search E question cs) <= length cs)%nat.
Proof.
  unfold semantic_search.
  destruct (is_empty question || is_empty cs); [lia|].
  destruct (negb (ENABLE_SEMANTIC_SEARCH E)); [lia|].
  destruct (negb (existsb has_embedding cs)); [lia|].
  destruct (negb (HAS_OPENAI E) || negb (HAS_NUMPY E)); [lia|].
  destruct (embeddings_create E question) as [qe|]; [|lia].
  pose proof (blend_all_length E qe cs) as Hl.
  destruct (blend_all E qe cs) as [cs' raised]. simpl in Hl.
  destruct raised; [lia|].
  rewrite (sort_desc_perm _ _ _), <- Hl. apply filter_length_le.
Qed.

Lemma rank_ties_perm results tokens :
  _rank_ties_by_keyword_mentions results tokens ≡ₚ results.
Proof.
  unfold _rank_ties_by_keyword_mentions.
  destruct results; [reflexivity|]. destruct tokens; [reflexivity|].
  apply sort_desc_perm.
Qed.

Lemma rank_by_question_origin E question us results w rs w' :
  rank_by_question E question us results w = (Returns rs, w') ->
  (forall r, r ∈ rs -> exists r0, r0 ∈ results /\ same_record r r0)
  /\ (length rs <= length results)%nat.
Proof.
  unfold rank_by_question.
  destruct (keyword_search E question results false None w)
    as [[[cs kws]|] w1] eqn:Hk; [|discriminate].
  intros [= <- <-].
  destruct (keyword_search_annotated _ _ _ _ _ _ _ _ _ Hk) as ((ann & Hp & Hf) & Hl & _).
  assert (Hcs : forall r, r ∈ cs -> exists r0, r0 ∈ results /\ same_record r r0).
  { intros r Hr. rewrite Hp in Hr. eapply Forall2_same_record_elem; eauto. }
  split.
  - intros r Hr. rewrite rank_ties_perm in Hr.
    destruct (us && existsb has_embedding cs); [|now apply Hcs].
    apply semantic_search_origin in Hr as (r1 & Hr1 & Hs1).
    destruct (Hcs r1 Hr1) as (r0 & Hr0 & Hs0).
    exists r0. split; [exact Hr0|eapply same_record_trans; eauto].
  - rewrite rank_ties_perm.
    destruct (us && existsb has_embedding cs); [|lia].
    pose proof (semantic_search_length E question cs). lia.
Qed.

Lemma from_record_same r r0 entry :
  same_record r r0 -> from_record entry r0 -> from_record entry r.
Proof.
  unfold same_record, from_record. intros (?&?&?&?&?&?&?) (?&?&?&?&?&?).
  repeat split; congruence.
Qed.

Lemma existsb_false_elem {A} (f : A -> bool) (l : list A) (x : A) :
  existsb f l = false -> x ∈ l -> f x = false.
Proof.
  intros Hex Hx. destruct (f x) eqn:Hf; [|reflexivity].
  rewrite <- Hex. symmetry. apply existsb_exists. exists x.
  split; [now apply list_elem_of_In|exact Hf].
Qed.

Lemma year_only_branch_origin E maamarim y question L ms us w rs w' :
  year_only_branch E maamarim y question L ms us w = (Returns rs, w') ->
  forall r, r ∈ rs ->
    exists entry, entry ∈ maamarim
      /\ year_is_none entry.2 = false
      /\ normalize_year (default [] (m_year entry.2)) = y
      /\ same_record r (year_only_candidate entry).
Proof.
  unfold year_only_branch. rewrite year_only_scan_spec.
  destruct (existsb _ maamarim) eqn:Hnone; [discriminate|].
  set (matching := List.filter _ maamarim).
  assert (Hm : forall r0, r0 ∈ List.map year_only_candidate matching ->
            exists entry, entry ∈ maamarim
              /\ year_is_none entry.2 = false
              /\ normalize_year (default [] (m_year entry.2)) = y
              /\ r0 = year_only_candidate entry).
  { intros r0 Hr0. apply list_elem_of_In, in_map_iff in Hr0 as (entry & <- & He).
    apply filter_In in He as [He Hy]. exists entry.
    apply list_elem_of_In in He.
    split; [exact He|].
    split; [exact (existsb_false_elem _ _ _ Hnone He)|]. split; [|reflexivity].
    unfold str_eqb in Hy. now apply bool_decide_eq_true in Hy. }
  destruct (negb (is_empty question) && negb (is_empty _)).
  - destruct (rank_by_question E question us _ w) as [[ranked|] w1] eqn:Hr;
      [|discriminate].
    intros [= <- <-] r Hin.
    apply elem_of_slice_to in Hin.
    assert (Hin' : r ∈ ranked).
    { unfold apply_min_score in Hin. destruct (0 <? ms); [|exact Hin].
      apply list_elem_of_In, filter_In in Hin as [Hin _]. now apply list_elem_of_In. }
    destruct (rank_by_question_origin _ _ _ _ _ _ _ Hr) as [Ho _].
    destruct (Ho r Hin') as (r0 & Hr0 & Hs).
    destruct (Hm r0 Hr0) as (entry & He & Hn & Hy & ->). eauto.
  - intros [= <- <-] r Hin.
    apply elem_of_slice_to in Hin.
    assert (Hin' : r ∈ List.map year_only_candidate matching).
    { unfold apply_min_score in Hin. destruct (0 <? ms); [|exact Hin].
      apply list_elem_of_In, filter_In in Hin as [Hin _]. now apply list_elem_of_In. }
    destruct (Hm r Hin') as (entry & He & Hn & Hy & ->).
    exists entry. split; [exact He|]. split; [exact Hn|].
    split; [exact Hy|apply same_record_refl].
Qed.

Lemma question_only_branch_origin E maamarim question L us w rs w' :
  question_only_branch E maamarim question L us w = (Returns rs, w') ->
  forall r, r ∈ rs ->
    exists entry, entry ∈ maamarim /\ same_record r (general_candidate entry).
Proof.
  unfold question_only_branch. destruct question as [|q0 qs].
  - intros [= <- <-] r Hr. inversion Hr.
  - destruct (rank_by_question E (q0 :: qs) us _ w) as [[ranked|] w1] eqn:Hr;
      [|discriminate].
    intros [= <- <-] r Hin. apply elem_of_slice_to in Hin.
    destruct (rank_by_question_origin _ _ _ _ _ _ _ Hr) as [Ho _].
    destruct (Ho r Hin) as (r0 & Hr0 & Hs).
    apply list_elem_of_In, in_map_iff in Hr0 as (entry & <- & He).
    exists entry. split; [now apply list_elem_of_In|exact Hs].
Qed.

Lemma mara_makom_candidate_record E qw entry r :
  mara_makom_candidate E qw entry = Some r -> from_record entry r.
Proof.
  destruct entry as [key m]. unfold mara_makom_candidate.
  destruct (m_name m) as [|n0 ns] eqn:Hn; [discriminate|].
  destruct (_ <=? 0); [discriminate|]. intros [= <-].
  unfold from_record. simpl. rewrite Hn. repeat split.
Qed.

Lemma title_branch_elem E maamarim name yn question L w r :
  r ∈ (title_branch E maamarim name yn question L w).1 ->
  exists r0, r0 ∈ title_candidates E maamarim name yn L
             /\ forget_title_rank r = forget_title_rank r0.
Proof.
  unfold title_branch.
  destruct (title_candidates E maamarim name yn L) as [|first rest] eqn:Hc;
    [intros H; inversion H|].
  pose proof (ranked_elem E question (first :: rest) w) as Hre.
  destruct (rank_title_by_question E question (first :: rest) w) as [rs w1].
  simpl in Hre. intros Hr. apply Hre.
  destruct (negb _ && _).
  - assert (Hf : r ∈ List.filter (is_perfect_match (total_words_of first)) rs).
    { destruct (L <=? 0); [exact Hr|]. simpl in Hr. now apply elem_of_slice_to in Hr. }
    apply list_elem_of_In, filter_In in Hf as [Hf _]. now apply list_elem_of_In.
  - simpl in Hr. now apply elem_of_slice_to in Hr.
Qed.

Lemma forget_same_record r r0 :
  forget_title_rank r = forget_title_rank r0 -> same_record r r0.
Proof.
  intros H. unfold same_record.
  assert (Hf : forall (f : candidate -> pystr),
            (forall x, f (forget_title_rank x) = f x) -> f r = f r0).
  { intros f Hf. rewrite <- (Hf r), <- (Hf r0), H. reflexivity. }
  repeat split.
  - now apply (Hf c_key).
  - now apply (Hf c_name).
  - change (c_year r) with (c_year (forget_title_rank r)). now rewrite H.
  - now apply (Hf c_filename).
  - now apply (Hf c_text).
  - change (c_keywords_all r) with (c_keywords_all (forget_title_rank r)).
    now rewrite H.
  - change (c_embedding r) with (c_embedding (forget_title_rank r)). now rewrite H.
Qed.

Lemma title_candidates_record E maamarim name yn L r :
  r ∈ title_candidates E maamarim name yn L ->
  exists entry, entry ∈ maamarim /\ from_record entry r.
Proof.
  unfold title_candidates, mara_makom_word_match_search. intros Hr.
  apply filter_by_year_elem, elem_of_slice_to, mara_makom_ranked_elem in Hr
    as (_ & _ & key & m & Hin & Hc).
  exists (key, m). split; [exact Hin|].
  eapply mara_makom_candidate_record; eauto.
Qed.

Lemma search_maamar_origin
    E maamarim name year question L ms us w results w' :
  search_maamar E maamarim name year question L ms us w = (Returns results, w') ->
  Forall (fun r => exists entry, entry ∈ maamarim /\ from_record entry r) results.
Proof.
  intros H. apply Forall_forall. intros r Hr.
  destruct (search_maamar_cases E maamarim name year question L ms us w)
    as (flag & title & yn & _ & [(y & _ & _ & _ & Hs)|[(_ & Hs)|(_ & _ & Hs)]]);
    rewrite Hs in H.
  - destruct (year_only_branch_origin _ _ _ _ _ _ _ _ _ _ H r Hr)
      as (entry & He & _ & _ & Hsame).
    exists entry. split; [exact He|]. eapply from_record_same; [exact Hsame|].
    destruct entry. repeat split.
  - injection H as <- <-.
    apply title_branch_elem in Hr as (r0 & Hr0 & Hf).
    apply title_candidates_record in Hr0 as (entry & He & Hfrom).
    exists entry. split; [exact He|].
    eapply from_record_same; [apply forget_same_record, Hf|exact Hfrom].
  - destruct (question_only_branch_origin _ _ _ _ _ _ _ _ H r Hr)
      as (entry & He & Hsame).
    exists entry. split; [exact He|]. eapply from_record_same; [exact Hsame|].
    destruct entry. repeat split.
Qed.

(** Every result of a search describes a record of the corpus: its
    key, title, file name, text, keyword table and embedding are those
    of one record. *)
Theorem search_maamar_results_from_corpus
    E maamarim name year question L ms us w results w' :
  search_maamar E maamarim name year question L ms us w = (Returns results, w') ->
  Forall (fun r => exists entry, entry ∈ maamarim /\ from_record entry r) results.
Proof. apply search_maamar_origin. Qed.

Lemma search_maamar_results_from_corpus_witness :
  match search_maamar Examples.E_plain Examples.three_titles (u "באתי לגני")
          None [] 5 0 true Examples.w0 with
  | (Returns results, _) =>
      Forall (fun r => exists entry, entry ∈ Examples.three_titles
                                     /\ from_record entry r) results
  | (Raised, _) => False
  end.
Proof.
  destruct (search_maamar Examples.E_plain Examples.three_titles (u "באתי לגני")
              None [] 5 0 true Examples.w0) as [[results|] w'] eqn:H.
  - exact (search_maamar_results_from_corpus _ _ _ _ _ _ _ _ _ _ _ H).
  - vm_compute in H. discriminate H.
Defined.

(** ** The size and the order of the result list *)

Lemma title_branch_limit E maamarim name yn question L w :
  0 < L ->
  (length (title_branch E maamarim name yn question L w).1 <= Z.to_nat L)%nat.
Proof.
  intros HL. unfold title_branch.
  destruct (title_candidates E maamarim name yn L) as [|first rest];
    [simpl; lia|].
  destruct (rank_title_by_question E question (first :: rest) w) as [rs w1].
  assert (HL1 : (L <=? 0) = false) by lia.
  assert (HL2 : (0 <? L) = true) by lia.
  rewrite HL1, HL2.
  destruct (negb _ && _); simpl; apply length_slice_to; lia.
Qed.

Lemma search_maamar_length E maamarim name year question L ms us w results w' :
  0 < L ->
  search_maamar E maamarim name year question L ms us w = (Returns results, w') ->
  (length results <= Z.to_nat L)%nat.
Proof.
  intros HL H.
  destruct (search_maamar_cases E maamarim name year question L ms us w)
    as (flag & title & yn & _ & [(y & _ & _ & _ & Hs)|[(_ & Hs)|(_ & _ & Hs)]]);
    rewrite Hs in H.
  - unfold year_only_branch in H.
    destruct (year_only_scan y maamarim) as [found|]; [|discriminate].
    destruct (negb (is_empty question) && negb (is_empty _)).
    + destruct (rank_by_question E question us _ w) as [[ranked|] w1];
        [|discriminate].
      injection H as <- <-. apply length_slice_to. lia.
    + injection H as <- <-. apply length_slice_to. lia.
  - injection H as <- <-. now apply title_branch_limit.
  - unfold question_only_branch in H. destruct question as [|q0 qs].
    + injection H as <- <-. simpl. lia.
    + destruct (rank_by_question E (q0 :: qs) us _ w) as [[ranked|] w1];
        [|discriminate].
      injection H as <- <-. apply length_slice_to. lia.
Qed.

(** With a positive [max_results] a search never returns more than
    [max_results] results, whichever branch serves it. *)
Theorem search_maamar_limit E maamarim name year question L ms us w results w' :
  0 < L ->
  search_maamar E maamarim name year question L ms us w = (Returns results, w') ->
  (length results <= Z.to_nat L)%nat.
Proof. apply search_maamar_length. Qed.

Lemma search_maamar_limit_witness :
  match search_maamar Examples.E_plain Examples.four_partial (u "באתי לגני היום")
          None [] 2 0 true Examples.w0 with
  | (Returns results, _) => (length results <= 2)%nat
  | (Raised, _) => False
  end.
Proof.
  destruct (search_maamar Examples.E_plain Examples.four_partial
              (u "באתי לגני היום") None [] 2 0 true Examples.w0)
    as [[results|] w'] eqn:H.
  - exact (search_maamar_limit _ _ _ _ _ 2 _ _ _ _ _ ltac:(lia) H).
  - vm_compute in H. discriminate H.
Defined.

Lemma matches_year_same y r r0 :
  same_record r r0 -> matches_year y r = matches_year y r0.
Proof.
  intros (_ & Hn & Hy & _). unfold matches_year. now rewrite Hn, Hy.
Qed.

(** When a search carries a year, given or read off the title,
    every result is a record of that year: the year field of the record,
    or the year token of its title when the field is missing, normalizes
    to the normalized year of the query. *)
Theorem search_maamar_year_filter
    E maamarim name year question L ms us w flag title y results w' :
  prepare name year = (flag, title, Some y) -> y <> [] ->
  search_maamar E maamarim name year question L ms us w = (Returns results, w') ->
  Forall (fun r => matches_year y r = true) results.
Proof.
  intros Hp Hy H. apply Forall_forall. intros r Hr.
  destruct (search_maamar_cases E maamarim name year question L ms us w)
    as (flag' & title' & yn & Hp' & Hc).
  rewrite Hp in Hp'. injection Hp' as <- <- <-.
  destruct Hc as [(y' & [= <-] & _ & _ & Hs)|[(_ & Hs)|([?|?] & _)]];
    try congruence; rewrite Hs in H.
  - destruct (year_only_branch_origin _ _ _ _ _ _ _ _ _ _ H r Hr)
      as ([key m] & _ & Hnone & Hny & Hsame).
    rewrite (matches_year_same y _ _ Hsame). unfold matches_year.
    cbn [year_only_candidate c_year c_name snd] in *.
    rewrite m_year_or_empty_spec, Hnone.
    destruct (m_year m) as [[|y0 ys]|]; simpl in *.
    + now rewrite <- Hny in Hy.
    + unfold str_eqb. now apply bool_decide_eq_true.
    + now rewrite <- Hny in Hy.
  - injection H as <- <-.
    apply title_branch_elem in Hr as (r0 & Hr0 & Hf).
    rewrite (matches_year_same y _ _ (forget_same_record _ _ Hf)).
    unfold title_candidates, filter_by_year in Hr0.
    destruct y as [|y0 ys]; [congruence|].
    destruct (mara_makom_word_match_search _ _ _ _) as [|c0 cs];
      [inversion Hr0|].
    apply list_elem_of_In, filter_In in Hr0 as [_ Hm]. exact Hm.
Qed.

Lemma search_maamar_year_filter_witness :
  match search_maamar Examples.E_plain Examples.two_years [] (Some (u "תשל״ו"))
          [] 5 0 true Examples.w0 with
  | (Returns results, _) =>
      Forall (fun r => matches_year (u "תשלו") r = true) results
  | (Raised, _) => False
  end.
Proof.
  destruct (search_maamar Examples.E_plain Examples.two_years []
              (Some (u "תשל״ו")) [] 5 0 true Examples.w0)
    as [[results|] w'] eqn:H.
  - refine (search_maamar_year_filter _ _ _ _ _ _ _ _ _ false [] _ _ _ _ _ H).
    + vm_compute. reflexivity.
    + vm_compute. discriminate.
  - vm_compute in H. discriminate H.
Defined.

Lemma semantic_search_off E question cs :
  ENABLE_SEMANTIC_SEARCH E = false -> semantic_search E question cs = cs.
Proof.
  intros H. unfold semantic_search. rewrite H.
  destruct (is_empty question || is_empty cs); reflexivity.
Qed.

Lemma rank_ties_sorted results tokens :
  score_descending results ->
  score_descending (_rank_ties_by_keyword_mentions results tokens).
Proof.
  intros Hs. unfold _rank_ties_by_keyword_mentions.
  destruct results as [|r rs]; [exact Hs|]. destruct tokens as [|t ts]; [exact Hs|].
  unfold score_descending.
  eapply StronglySorted_weaken;
    [|apply (sort_desc_pair_sorted
               (fun r0 => (c_score r0,
                           _count_keyword_mentions_in_text (c_text r0) (t :: ts))))].
  intros a b H. apply lt_pair_false in H. simpl in H. lia.
Qed.

Lemma rank_by_question_sorted E question us results w rs w' :
  question <> [] ->
  us = false \/ ENABLE_SEMANTIC_SEARCH E = false ->
  rank_by_question E question us results w = (Returns rs, w') ->
  score_descending rs.
Proof.
  intros Hq Hoff. unfold rank_by_question.
  destruct (keyword_search E question results false None w)
    as [[[cs kws]|] w1] eqn:Hk; [|discriminate].
  intros [= <- <-].
  destruct (keyword_search_annotated _ _ _ _ _ _ _ _ _ Hk) as (_ & Hl & Hsorted).
  assert (Hcs : score_descending cs).
  { destruct results as [|r0 rest].
    - destruct cs; [constructor|discriminate].
    - apply Hsorted; [exact Hq|discriminate]. }
  apply rank_ties_sorted.
  destruct Hoff as [-> | Hoff]; [exact Hcs|].
  rewrite (semantic_search_off _ _ _ Hoff). now destruct (us && _).
Qed.

Lemma constant_score_sorted (s : Z) (l : list candidate) :
  Forall (fun r => c_score r = s) l -> score_descending l.
Proof.
  induction 1 as [|r l Hr Hl IH]; constructor; [exact IH|].
  eapply Forall_impl; [exact Hl|]. simpl. intros; lia.
Qed.

Lemma apply_min_score_sorted ms l :
  score_descending l -> score_descending (apply_min_score ms l).
Proof.
  intros H. unfold apply_min_score. destruct (0 <? ms); [|exact H].
  now apply StronglySorted_filter.
Qed.

(** A search without a title -- by year, by question, or both --
    returns its results best score first, as long as the semantic blend
    is not applied. *)
Theorem search_maamar_best_first
    E maamarim name year question L ms us w flag title yn results w' :
  prepare name year = (flag, title, yn) -> strip title = [] ->
  us = false \/ ENABLE_SEMANTIC_SEARCH E = false ->
  search_maamar E maamarim name year question L ms us w = (Returns results, w') ->
  score_descending results.
Proof.
  intros Hp Ht Hoff H.
  destruct (search_maamar_cases E maamarim name year question L ms us w)
    as (flag' & title' & yn' & Hp' & Hc).
  rewrite Hp in Hp'. injection Hp' as <- <- <-.
  destruct Hc as [(y & _ & _ & _ & Hs)|[(Hne & _)|(_ & _ & Hs)]];
    [|contradiction|]; rewrite Hs in H.
  - unfold year_only_branch in H. rewrite year_only_scan_spec in H.
    destruct (existsb _ maamarim); [discriminate|].
    set (found := List.map year_only_candidate _) in H.
    assert (Hfound : score_descending found).
    { apply (constant_score_sorted 100). apply Forall_forall. intros r Hr.
      apply list_elem_of_In, in_map_iff in Hr as ([key m] & <- & _). reflexivity. }
    destruct question as [|q0 qs].
    + injection H as <- <-.
      apply StronglySorted_slice_to, apply_min_score_sorted, Hfound.
    + destruct (negb (is_empty (q0 :: qs)) && negb (is_empty found)).
      * destruct (rank_by_question E (q0 :: qs) us found w) as [[ranked|] w1] eqn:Hr;
          [|discriminate].
        injection H as <- <-.
        apply StronglySorted_slice_to, apply_min_score_sorted.
        eapply rank_by_question_sorted; [|exact Hoff|exact Hr]. discriminate.
      * injection H as <- <-.
        apply StronglySorted_slice_to, apply_min_score_sorted, Hfound.
  - unfold question_only_branch in H. destruct question as [|q0 qs].
    + injection H as <- <-. constructor.
    + destruct (rank_by_question E (q0 :: qs) us _ w) as [[ranked|] w1] eqn:Hr;
        [|discriminate].
      injection H as <- <-. apply StronglySorted_slice_to.
      eapply rank_by_question_sorted; [|exact Hoff|exact Hr]. discriminate.
Qed.

Lemma search_maamar_best_first_witness :
  match search_maamar Examples.E_service Examples.three_texts [] None
          (u "מה זה שכינה") 5 0 false Examples.w0 with
  | (Returns results, _) => score_descending results
  | (Raised, _) => False
  end.
Proof.
  destruct (search_maamar Examples.E_service Examples.three_texts [] None
              (u "מה זה שכינה") 5 0 false Examples.w0)
    as [[results|] w'] eqn:H.
  - refine (search_maamar_best_first _ _ _ _ _ _ _ _ _ false [] None _ _ _ _ _ H).
    + vm_compute. reflexivity.
    + vm_compute. reflexivity.
    + left. reflexivity.
  - vm_compute in H. discriminate H.
Defined.

Lemma prepare_blank name year :
  strip name = [] -> year = None \/ year = Some [] ->
  prepare name year = (false, [], None).
Proof.
  intros Hn Hy. unfold prepare, is_quoted. rewrite Hn.
  cbn [startswith andb]. rewrite andb_false_r. cbn [andb].
  destruct name as [|n0 ns]; cbn [is_empty negb andb]; rewrite ?Hn;
    destruct Hy as [-> | ->]; reflexivity.
Qed.

(** A search with a blank title, no year and no question returns
    the empty list, sends nothing and writes nothing. *)
Theorem search_maamar_blank_input E maamarim name year L ms us w :
  strip name = [] -> year = None \/ year = Some [] ->
  search_maamar E maamarim name year [] L ms us w = (Returns [], w).
Proof.
  intros Hn Hy. unfold search_maamar. rewrite (prepare_blank name year Hn Hy).
  reflexivity.
Qed.

Lemma search_maamar_blank_input_witness :
  search_maamar Examples.E_service Examples.three_texts (u "  ") None [] 5 0 true
    Examples.w0 = (Returns [], Examples.w0).
Proof.
  apply search_maamar_blank_input.
  - vm_compute. reflexivity.
  - left. reflexivity.
Defined.

(** ** Keyword extraction *)

Lemma extract_caches E question w kws w1 :
  extract_keywords_from_question E question w = (Some kws, w1) ->
  strip question <> [] ->
  cache w1 !! strip question = Some kws.
Proof.
  intros H Hq.
  destruct (hit_or_miss w question) as [(_ & kws0 & Hhit)|Hmiss].
  - rewrite (extract_hit E question w kws0 Hq Hhit) in H.
    injection H as <- <-. exact Hhit.
  - destruct (credentials_cases E) as [Hno|[Hr Hk]].
    + rewrite (extract_unavailable E question w Hmiss Hno) in H. discriminate.
    + rewrite (extract_posts E question w Hmiss Hr Hk) in H. cbv zeta in H.
      destruct (chat_completions E (length (posted w)) question)
        as [|status content]; [discriminate|].
      destruct (status =? 200); [|discriminate].
      destruct content as [body|]; [|discriminate].
      destruct (str_eqb (lower (strip body)) NONE_ANSWER).
      * injection H as <- <-. simpl. apply lookup_insert_eq.
      * destruct (strip question) as [|q0 qs] eqn:Hs; [contradiction|].
        cbn [is_empty] in H. injection H as <- <-. simpl. apply lookup_insert_eq.
Qed.

(** Keywords once extracted for a question are answered from the
    cache from then on: the same question, also with other blanks
    around it, gets the same keywords without a request, whatever the
    state of the chat service. *)
Theorem extract_keywords_cached E E' question question' w kws w1 :
  extract_keywords_from_question E question w = (Some kws, w1) ->
  strip question <> [] -> strip question' = strip question ->
  extract_keywords_from_question E' question' w1 = (Some kws, w1).
Proof.
  intros H Hq Hq'. apply extract_hit; rewrite Hq'; [exact Hq|].
  eapply extract_caches; eauto.
Qed.

Lemma extract_keywords_cached_witness :
  extract_keywords_from_question Examples.E_plain (u " מה זה שכינה ")
    (extract_keywords_from_question Examples.E_service (u "מה זה שכינה")
       Examples.w0).2
  = ((extract_keywords_from_question Examples.E_service (u "מה זה שכינה")
        Examples.w0).1,
     (extract_keywords_from_question Examples.E_service (u "מה זה שכינה")
        Examples.w0).2).
Proof.
  destruct (extract_keywords_from_question Examples.E_service (u "מה זה שכינה")
              Examples.w0) as [[kws|] w1] eqn:H.
  - apply (extract_keywords_cached _ _ _ _ _ _ _ H).
    + vm_compute. discriminate.
    + vm_compute. reflexivity.
  - vm_compute in H. discriminate H.
Defined.

Lemma split_ws_words (s : pystr) : Forall is_word_of_split (split_ws s).
Proof.
  eapply Forall_impl; [apply (split_ws_from_words [] s); constructor|].
  intros w [Hw _]. exact Hw.
Qed.

Lemma Forall_list_filter {A} (P : A -> Prop) (p : A -> bool) (l : list A) :
  Forall P l -> Forall P (List.filter p l).
Proof.
  intros H. apply Forall_forall. intros x Hx.
  apply list_elem_of_In, filter_In in Hx as [Hx _].
  rewrite Forall_forall in H. now apply H, list_elem_of_In.
Qed.

(** Stripping the number words from a keyword never leaves it
    empty: the answer is the keyword itself, or what is left of it, and
    in what is left no word is a number word and the words are
    separated by single blanks. *)
Theorem remove_numbers_keeps_a_keyword (keyword : pystr) :
  keyword <> [] ->
  _remove_numbers_from_keyword keyword <> []
  /\ (_remove_numbers_from_keyword keyword = keyword
      \/ (Forall (fun w => w ∉ number_words)
            (split_ws (_remove_numbers_from_keyword keyword))
          /\ join [SPACE] (split_ws (_remove_numbers_from_keyword keyword))
             = _remove_numbers_from_keyword keyword)).
Proof.
  intros Hk. unfold _remove_numbers_from_keyword.
  destruct keyword as [|k0 ks]; [contradiction|].
  set (result := fold_left remove_number_phrase _ _).
  set (kept := List.filter (fun w => negb (str_in w number_words)) (split_ws result)).
  assert (Hw : Forall is_word_of_split kept)
    by apply Forall_list_filter, split_ws_words.
  rewrite (strip_join kept Hw).
  destruct (join [SPACE] kept) as [|j0 js] eqn:Hj; [split; [discriminate|now left]|].
  destruct (str_eqb (j0 :: js) (k0 :: ks)); [split; [discriminate|now left]|].
  split; [discriminate|]. right. rewrite <- Hj, (split_ws_join kept Hw).
  split; [|reflexivity].
  apply Forall_forall. intros w Hin.
  apply list_elem_of_In, filter_In in Hin as [_ Hn].
  unfold str_in in Hn. apply negb_true_iff, bool_decide_eq_false in Hn. exact Hn.
Qed.

Lemma remove_numbers_keeps_a_keyword_witness :
  _remove_numbers_from_keyword (u "שלוש עשרה מדות") <> [].
Proof.
  apply (remove_numbers_keeps_a_keyword (u "שלוש עשרה מדות")).
  vm_compute. discriminate.
Defined.

Lemma dedup_keywords_spec (seen kws : list pystr) :
  let norm (kw : pystr) := strip (normalize_text kw 3) in
  NoDup (List.map norm (dedup_keywords seen kws))
  /\ Forall
       (fun kw => kw <> [] /\ norm kw <> [] /\ (norm kw ∉ seen)
                  /\ exists k0, k0 ∈ kws /\ kw = strip k0)
       (dedup_keywords seen kws).
Proof.
  intros norm. revert seen.
  induction kws as [|kw rest IH]; intros seen; simpl; [split; constructor|].
  destruct (is_empty (strip kw)) eqn:He; simpl.
  { destruct (IH seen) as [H1 H2]. split; [exact H1|].
    eapply Forall_impl; [exact H2|]. intros x (?&?&?&k0&?&?).
    repeat split; auto. exists k0. split; [now right|assumption]. }
  destruct (is_empty (strip (normalize_text (strip kw) 3))) eqn:Hn; simpl.
  { destruct (IH seen) as [H1 H2]. split; [exact H1|].
    eapply Forall_impl; [exact H2|]. intros x (?&?&?&k0&?&?).
    repeat split; auto. exists k0. split; [now right|assumption]. }
  destruct (str_in _ seen) eqn:Hs.
  { destruct (IH seen) as [H1 H2]. split; [exact H1|].
    eapply Forall_impl; [exact H2|]. intros x (?&?&?&k0&?&?).
    repeat split; auto. exists k0. split; [now right|assumption]. }
  destruct (IH (strip (normalize_text (strip kw) 3) :: seen)) as [H1 H2].
  split.
  - simpl. constructor; [|exact H1].
    intros Hin. apply list_elem_of_fmap in Hin as (x & Hx & Hxin).
    rewrite Forall_forall in H2. destruct (H2 x Hxin) as (_ & _ & Hns & _).
    apply Hns. fold (norm x). rewrite <- Hx. left.
  - constructor.
    + split; [now destruct (strip kw)|].
      split; [unfold norm; now destruct (strip (normalize_text (strip kw) 3))|].
      split; [unfold str_in in Hs; now apply bool_decide_eq_false in Hs|].
      exists kw. split; [left|reflexivity].
    + eapply Forall_impl; [exact H2|]. intros x (?&?&Hns&k0&?&?).
      repeat split; auto.
      * intros Hin. apply Hns. now right.
      * exists k0. split; [now right|assumption].
Qed.

(** The extracted keywords the scores are taken over are distinct
    after normalization: the de-duplication keeps, in order, stripped
    keywords that are not blank, whose normalized forms are not blank
    and differ from one another. *)
Theorem dedup_keywords_distinct (kws : list pystr) :
  NoDup (List.map (fun kw => strip (normalize_text kw 3)) (dedup_keywords [] kws))
  /\ Forall
       (fun kw => kw <> [] /\ strip (normalize_text kw 3) <> []
                  /\ exists k0, k0 ∈ kws /\ kw = strip k0)
       (dedup_keywords [] kws).
Proof.
  destruct (dedup_keywords_spec [] kws) as [H1 H2]. split; [exact H1|].
  eapply Forall_impl; [exact H2|]. intros x (?&?&_&?). auto.
Qed.

(** ** Counting mentions *)

Lemma count_from_nonneg (fuel : nat) (s p : pystr) : 0 <= count_from fuel s p.
Proof.
  revert s. induction fuel as [|fuel IH]; intros s; simpl; [lia|].
  destruct s as [|c s']; [lia|].
  destruct (startswith (c :: s') p).
  - specialize (IH (drop (length p) (c :: s'))). lia.
  - apply IH.
Qed.

Lemma count_from_positive (fuel : nat) (s p : pystr) :
  p <> [] -> (length s <= fuel)%nat ->
  (0 < count_from fuel s p <-> contains s p = true).
Proof.
  intros Hp. revert s. induction fuel as [|fuel IH]; intros s Hf.
  - destruct s; [|simpl in Hf; lia]. simpl.
    destruct p; [contradiction|]. simpl. split; [lia|discriminate].
  - destruct s as [|c s'].
    + simpl. destruct p; [contradiction|]. simpl. split; [lia|discriminate].
    + cbn [count_from contains].
      destruct (startswith (c :: s') p) eqn:Hs.
      * pose proof (count_from_nonneg fuel (drop (length p) (c :: s')) p).
        split; [reflexivity|lia].
      * cbn [orb]. apply IH. simpl in Hf. lia.
Qed.

Lemma count_occurrences_nonneg (s p : pystr) : 0 <= count_occurrences s p.
Proof.
  unfold count_occurrences. destruct p; [lia|apply count_from_nonneg].
Qed.

Lemma count_occurrences_positive (s p : pystr) :
  p <> [] -> (0 < count_occurrences s p <-> contains s p = true).
Proof.
  intros Hp. unfold count_occurrences. destruct p as [|p0 ps]; [contradiction|].
  now apply count_from_positive.
Qed.

Lemma fold_count_alias (nt : pystr) (aliases : list pystr) (acc : Z) :
  acc <= fold_left (count_alias nt) aliases acc
  /\ (acc < fold_left (count_alias nt) aliases acc
      <-> Exists (fun a => normalize_text a 3 <> []
                           /\ contains nt (normalize_text a 3) = true) aliases).
Proof.
  revert acc. induction aliases as [|a rest IH]; intros acc; simpl.
  - split; [lia|]. split; [lia|]. intros H. inversion H.
  - destruct (IH (count_alias nt acc a)) as [H1 H2].
    assert (Ha : acc <= count_alias nt acc a
                 /\ (acc < count_alias nt acc a
                     <-> normalize_text a 3 <> []
                         /\ contains nt (normalize_text a 3) = true)).
    { unfold count_alias. destruct (normalize_text a 3) as [|n0 ns] eqn:Hn.
      - split; [lia|]. split; [lia|]. intros [Hc _]. congruence.
      - pose proof (count_occurrences_nonneg nt (n0 :: ns)).
        pose proof (count_occurrences_positive nt (n0 :: ns) ltac:(discriminate)).
        split; [lia|]. split.
        + intros Hlt. split; [discriminate|]. apply H0. lia.
        + intros [_ Hc]. apply H0 in Hc. lia. }
    destruct Ha as [Ha1 Ha2]. split; [lia|]. split.
    + intros Hlt. destruct (Z.eq_dec acc (count_alias nt acc a)) as [He|Hne].
      * apply Exists_cons_tl. apply H2. lia.
      * apply Exists_cons_hd. apply Ha2. lia.
    + intros Hex. apply Exists_cons in Hex as [Hhd|Htl].
      * apply Ha2 in Hhd. lia.
      * apply H2 in Htl. lia.
Qed.

Lemma fold_count_phrase (E : Env) (nt : pystr) (phrases : list pystr)
    (counts : gmap pystr Z) (k : pystr) :
  let value (ph0 : pystr) := fold_left (count_alias nt) (aliases_of E ph0) 0 in
  (counts !! k = None \/ counts !! k = Some (value k)) ->
  (fold_left (count_phrase E nt) phrases counts !! k = Some (value k)
   \/ (fold_left (count_phrase E nt) phrases counts !! k = None
       /\ forall ph, ph ∈ phrases -> ph <> [] -> strip ph <> k)).
Proof.
  intros value. revert counts.
  induction phrases as [|ph rest IH]; intros counts Hc; simpl.
  - destruct Hc as [Hc|Hc]; [right|left; exact Hc].
    split; [exact Hc|]. intros ph H. inversion H.
  - destruct ph as [|p0 ps].
    + destruct (IH counts Hc) as [H|[H1 H2]]; [now left|right].
      split; [exact H1|]. intros ph [->|Hin]%elem_of_cons Hne;
        [contradiction|now apply H2].
    + cbn [count_phrase].
      destruct (decide (strip (p0 :: ps) = k)) as [He|Hne].
      * destruct (IH (<[strip (p0 :: ps) :=
                         fold_left (count_alias nt) (aliases_of E (strip (p0 :: ps))) 0]>
                        counts)) as [H|[H1 H2]].
        { right. rewrite He. apply lookup_insert_eq. }
        { now left. }
        { exfalso. clear IH.
          assert (Hk : forall (l : list pystr) (m : gmap pystr Z),
                     m !! k = Some (value k) ->
                     fold_left (count_phrase E nt) l m !! k = Some (value k)).
          { induction l as [|x l IHl]; intros m Hm; simpl; [exact Hm|].
            apply IHl. destruct x as [|x0 xs]; [exact Hm|]. cbn [count_phrase].
            destruct (decide (strip (x0 :: xs) = k)) as [<-|Hd].
            - apply lookup_insert_eq.
            - rewrite lookup_insert_ne; [exact Hm|exact Hd]. }
          rewrite (Hk rest _) in H1; [discriminate|].
          rewrite He. apply lookup_insert_eq. }
      * destruct (IH (<[strip (p0 :: ps) :=
                         fold_left (count_alias nt) (aliases_of E (strip (p0 :: ps))) 0]>
                        counts)) as [H|[H1 H2]].
        { rewrite lookup_insert_ne; [exact Hc|exact Hne]. }
        { now left. }
        { right. split; [exact H1|].
          intros ph [->|Hin]%elem_of_cons Hph; [exact Hne|now apply H2]. }
Qed.

(** The mention count of a phrase in a text is recorded under the
    stripped phrase, is never negative, and is positive exactly when
    one of the aliases of the phrase -- the phrase itself when it has
    none -- occurs, normalized at level 3, in the text normalized at
    level 3. *)
Theorem count_phrase_mentions_positive (E : Env) (text : pystr) (phrases : list pystr)
    (ph : pystr) :
  text <> [] -> ph ∈ phrases -> ph <> [] ->
  exists n,
    _count_phrase_mentions_in_text E text phrases !! strip ph = Some n
    /\ 0 <= n
    /\ (0 < n <-> mentioned E text ph).
Proof.
  intros Ht Hin Hph. unfold _count_phrase_mentions_in_text.
  destruct text as [|t0 ts]; [contradiction|].
  destruct phrases as [|p0 ps]; [inversion Hin|].
  destruct (fold_count_phrase E (normalize_text (t0 :: ts) 3) (p0 :: ps) ∅
              (strip ph) ltac:(left; apply lookup_empty)) as [H|[_ H]].
  - eexists. split; [exact H|].
    destruct (fold_count_alias (normalize_text (t0 :: ts) 3)
                (aliases_of E (strip ph)) 0) as [H1 H2].
    split; [exact H1|exact H2].
  - exfalso. exact (H ph Hin Hph eq_refl).
Qed.

Lemma count_phrase_mentions_positive_witness :
  exists n,
    _count_phrase_mentions_in_text Examples.E_plain (u "שכינה בתחתונים")
      [u "שכינה"; u "דוד"] !! strip (u "שכינה") = Some n
    /\ 0 < n.
Proof.
  destruct (count_phrase_mentions_positive Examples.E_plain (u "שכינה בתחתונים")
              [u "שכינה"; u "דוד"] (u "שכינה")) as (n & Hn & _ & Hpos).
  - vm_compute. discriminate.
  - left.
  - vm_compute. discriminate.
  - exists n. split; [exact Hn|]. apply Hpos.
    apply Exists_exists. exists (u "שכינה").
    split; [vm_compute; left|].
    split; [vm_compute; discriminate|vm_compute; reflexivity].
Defined.

(** ** The shape of normalized text *)

Lemma elide_internal_chars_bounded (x : Z) (n : nat) (s : pystr) (c : Z) :
  (length s <= n)%nat -> c ∈ elide_internal x s -> c ∈ s.
Proof.
  revert s. induction n as [|n IH]; intros s Hn Hc.
  - destruct s; [exact Hc|simpl in Hn; lia].
  - destruct s as [|a [|v [|b rest]]]; try exact Hc.
    cbn [elide_internal] in Hc.
    destruct (is_heb a && (v =? x) && is_heb b).
    + apply elem_of_cons in Hc as [->|Hc]; [left|].
      apply elem_of_cons in Hc as [->|Hc]; [right; right; left|].
      right. right. right. apply IH; [simpl in Hn |- *; lia|exact Hc].
    + apply elem_of_cons in Hc as [->|Hc]; [left|].
      right. apply IH; [simpl in Hn |- *; lia|exact Hc].
Qed.

Lemma elide_internal_chars (x : Z) (s : pystr) (c : Z) :
  c ∈ elide_internal x s -> c ∈ s.
Proof. apply (elide_internal_chars_bounded x (length s)). lia. Qed.

Lemma punct_words (t : pystr) :
  let ws := split_ws (List.map (fun c => if is_punct c then SPACE else c) t) in
  Forall is_word_of_split ws
  /\ forall c, c ∈ join [SPACE] ws ->
       c = SPACE \/ (c ∈ t /\ is_punct c = false).
Proof.
  intros ws. split; [apply split_ws_words|].
  intros c Hc. apply join_chars in Hc as [->|(w & Hw & Hc)]; [now left|].
  pose proof (split_ws_from_words [] (List.map (fun c => if is_punct c then SPACE else c) t)
                (Forall_nil_2 _)) as Hws.
  rewrite Forall_forall in Hws. destruct (Hws w Hw) as [_ Hchars].
  destruct (Hchars c Hc) as [Habs|Hin]; [now apply elem_of_nil in Habs|].
  apply list_elem_of_fmap in Hin as (c0 & Hc0 & Hin).
  destruct (is_punct c0) eqn:Hp; [now left|]. subst c0. right. auto.
Qed.

(** At every level the normalized text is in canonical form: it
    holds no vowel mark, no quote glyph and no punctuation; its words
    are separated by single blanks; and there is no blank at either end. *)
Theorem normalize_text_canonical (text : pystr) (level : Z) :
  Forall (fun c => is_nikud c = false /\ is_quote c = false /\ is_punct c = false)
    (normalize_text text level)
  /\ join [SPACE] (split_ws (normalize_text text level)) = normalize_text text level
  /\ strip (normalize_text text level) = normalize_text text level.
Proof.
  unfold normalize_text. destruct text as [|ch text]; [repeat split; constructor|].
  set (t0 := List.filter (fun c => negb (is_quote c))
               (List.filter (fun c => negb (is_nikud c)) (ch :: text))).
  set (t1 := if 1 <=? level then elide_internal VAV t0 else t0).
  set (t2 := if 2 <=? level then elide_internal YOD t1 else t1).
  set (t3 := if 3 <=? level then elide_internal HEH t2 else t2).
  assert (H0 : forall c, c ∈ t0 -> is_nikud c = false /\ is_quote c = false).
  { intros c Hc. apply list_elem_of_In, filter_In in Hc as [Hc Hq].
    apply filter_In in Hc as [_ Hn]. apply negb_true_iff in Hq, Hn. auto. }
  assert (H3 : forall c, c ∈ t3 -> c ∈ t0).
  { intros c Hc. subst t3 t2 t1.
    destruct (3 <=? level); [apply elide_internal_chars in Hc|];
      (destruct (2 <=? level); [apply elide_internal_chars in Hc|]);
      (destruct (1 <=? level); [apply elide_internal_chars in Hc|]); exact Hc. }
  destruct (punct_words t3) as [Hws Hchars].
  set (ws := split_ws _) in Hws, Hchars |- *.
  rewrite (strip_join ws Hws). split; [|split].
  - apply Forall_forall. intros c Hc.
    destruct (Hchars c Hc) as [->|[Hin Hp]]; [repeat split|].
    destruct (H0 c (H3 c Hin)) as [Hn Hq]. auto.
  - now rewrite (split_ws_join ws Hws).
  - apply (strip_join ws Hws).
Qed.

(** ** normalize_quotes *)

Lemma replace_from_single (a b : Z) (fuel : nat) (s : pystr) :
  (length s <= fuel)%nat -> replace_from fuel s [a] [b] = replace_char a b s.
Proof.
  revert s. induction fuel as [|fuel IH]; intros s Hf.
  - destruct s; [reflexivity|simpl in Hf; lia].
  - destruct s as [|c s']; [reflexivity|].
    cbn [replace_from startswith].
    assert (Hnil : startswith s' [] = true) by (destruct s'; reflexivity).
    rewrite Hnil, andb_true_r, Z.eqb_sym.
    unfold replace_char. cbn [List.map]. fold (replace_char a b s').
    simpl in Hf. destruct (c =? a).
    + cbn [length drop app]. f_equal. apply IH. lia.
    + f_equal. apply IH. lia.
Qed.

Lemma replace_single (a b : Z) (s : pystr) :
  replace s [a] [b] = replace_char a b s.
Proof. unfold replace. now apply replace_from_single. Qed.

(** The character map of [normalize_quotes]. *)
Lemma normalize_quotes_map (text : pystr) :
  normalize_quotes text
  = List.map
      (fun c => if (c =? GERESH) || (c =? BACKTICK) || (c =? PRIME) then SQUOTE
                else if (c =? GERSHAYIM) || (c =? DPRIME) then DQUOTE else c)
      text.
Proof.
  unfold normalize_quotes. destruct text as [|ch text]; [reflexivity|].
  rewrite !replace_single. unfold replace_char. rewrite !map_map.
  apply map_ext. intros c. unfold GERESH, BACKTICK, PRIME, GERSHAYIM, DPRIME,
    SQUOTE, DQUOTE.
  destruct (c =? 1523) eqn:H1; [assert (c = 1523) as -> by lia; reflexivity|].
  destruct (c =? 96) eqn:H2; [assert (c = 96) as -> by lia; reflexivity|].
  destruct (c =? 8242) eqn:H3; [assert (c = 8242) as -> by lia; reflexivity|].
  destruct (c =? 1524) eqn:H4; [assert (c = 1524) as -> by lia; reflexivity|].
  cbn [orb]. destruct (c =? 8243) eqn:H5; reflexivity.
Qed.

(** [normalize_quotes] maps character by character: the text keeps
    its length, none of the five glyphs it replaces is left, a second
    pass changes nothing, and [normalize_text] gives the same for the
    text before and after. *)
Theorem normalize_quotes_spec (text : pystr) :
  length (normalize_quotes text) = length text
  /\ Forall (fun c => c <> GERESH /\ c <> BACKTICK /\ c <> PRIME
                      /\ c <> GERSHAYIM /\ c <> DPRIME)
       (normalize_quotes text)
  /\ normalize_quotes (normalize_quotes text) = normalize_quotes text
  /\ forall level,
       normalize_text (normalize_quotes text) level = normalize_text text level.
Proof.
  rewrite !normalize_quotes_map.
  set (qm := fun c : Z => _).
  assert (Hqm : forall c, (qm c = c \/ (is_quote c = true /\ is_quote (qm c) = true))
                          /\ qm c <> GERESH /\ qm c <> BACKTICK /\ qm c <> PRIME
                          /\ qm c <> GERSHAYIM /\ qm c <> DPRIME /\ qm (qm c) = qm c).
  { intros c. subst qm. cbv beta. unfold is_quote, GERESH, BACKTICK, PRIME,
      GERSHAYIM, DPRIME, TPRIME, SQUOTE, DQUOTE.
    destruct (c =? 1523) eqn:H1; [cbn; split; [right|]; repeat split; lia|].
    destruct (c =? 96) eqn:H2; [cbn; split; [right|]; repeat split; lia|].
    destruct (c =? 8242) eqn:H3; [cbn; split; [right|]; repeat split; lia|].
    destruct (c =? 1524) eqn:H4; [cbn; split; [right|]; repeat split; lia|].
    destruct (c =? 8243) eqn:H5; [cbn; split; [right|]; repeat split; lia|].
    cbn [orb]. rewrite H1, H2, H3, H4, H5. cbn [orb].
    split; [now left|]. repeat split; lia. }
  split; [apply length_map|]. split; [|split].
  - apply Forall_forall. intros c Hc.
    apply list_elem_of_fmap in Hc as (c0 & -> & _).
    destruct (Hqm c0) as (_ & ? & ? & ? & ? & ? & _). auto.
  - rewrite map_map. apply map_ext. intros c. apply Hqm.
  - intros level. unfold normalize_text.
    assert (Hf : List.filter (fun c => negb (is_quote c))
                   (List.filter (fun c => negb (is_nikud c)) (List.map qm text))
                 = List.filter (fun c => negb (is_quote c))
                     (List.filter (fun c => negb (is_nikud c)) text)).
    { induction text as [|c text IH]; [reflexivity|]. cbn [List.map List.filter].
      destruct (Hqm c) as ([->|[Hq Hq']] & _).
      - destruct (negb (is_nikud c)); cbn [List.filter]; now rewrite IH.
      - rewrite (quote_is_not_nikud c Hq), (quote_is_not_nikud (qm c) Hq').
        cbn [negb List.filter]. rewrite Hq, Hq'. cbn [negb]. exact IH. }
    destruct text as [|c text]; [reflexivity|].
    cbn [List.map]. cbn [List.map] in Hf. now rewrite Hf.
Qed.

(** ** The title before the first reference *)

Lemma name_words_spec (words : list pystr) (w : pystr) :
  w ∈ name_words_until_reference words ->
  w ∈ words /\ Forall (fun c => c <> GERSHAYIM /\ c <> GERESH) w.
Proof.
  induction words as [|x ws IH]; simpl; [intros H; inversion H|].
  destruct (existsb _ x) eqn:Hex.
  - destruct (startswith x [TAV; SHIN]); [|intros H; inversion H].
    intros H. destruct (IH H). split; [now right|assumption].
  - intros [->|H]%elem_of_cons.
    + split; [left|]. apply Forall_forall. intros c Hc.
      assert (Hn : ((c =? GERSHAYIM) || (c =? GERESH)) = false).
      { destruct ((c =? GERSHAYIM) || (c =? GERESH)) eqn:Hb; [|reflexivity].
        rewrite <- Hex. symmetry. apply existsb_exists. exists c.
        split; [now apply list_elem_of_In|exact Hb]. }
      unfold GERSHAYIM, GERESH in *. lia.
    + destruct (IH H). split; [now right|assumption].
Qed.

(** The title cut at its first reference holds neither gershayim
    nor geresh, and each of its words is a word of the text given. *)
Theorem extract_maamar_name_only_no_reference (text : pystr) :
  Forall (fun c => c <> GERSHAYIM /\ c <> GERESH) (extract_maamar_name_only text)
  /\ Forall (fun w => w ∈ split_ws (strip (strip_dibur_hamatchil text)))
       (split_ws (extract_maamar_name_only text)).
Proof.
  unfold extract_maamar_name_only. destruct text as [|ch text];
    [split; constructor|].
  set (words := split_ws _).
  assert (Hw : Forall is_word_of_split (name_words_until_reference words)).
  { apply Forall_forall. intros w Hin. apply name_words_spec in Hin as [Hin _].
    pose proof (split_ws_words (strip (strip_dibur_hamatchil (ch :: text)))) as H.
    rewrite Forall_forall in H. now apply H. }
  rewrite (strip_join _ Hw). split.
  - apply Forall_forall. intros c Hc.
    apply join_chars in Hc as [->|(w & Hin & Hc)]; [split; discriminate|].
    apply name_words_spec in Hin as [_ Hf]. rewrite Forall_forall in Hf. now apply Hf.
  - rewrite (split_ws_join _ Hw). apply Forall_forall. intros w Hin.
    now apply name_words_spec in Hin as [Hin _].
Qed.

(** ** The year token *)

Lemma year_tail_shape (s : pystr) :
  exists post, s = year_tail s ++ post
    /\ (year_tail s = []
        \/ (exists c, year_tail s = [c] /\ is_heb c = true)
        \/ (exists q c, year_tail s = [q; c] /\ is_year_quote q = true
                        /\ is_heb c = true)).
Proof.
  unfold year_tail. destruct s as [|q [|c rest]].
  - exists []. split; [reflexivity|now left].
  - destruct (is_heb q) eqn:Hq.
    + exists []. split; [reflexivity|]. right. left. eauto.
    + exists [q]. split; [reflexivity|now left].
  - destruct (is_year_quote q && is_heb c) eqn:Hqc.
    + apply andb_true_iff in Hqc as [Hq Hc].
      exists rest. split; [reflexivity|]. right. right. eauto.
    + destruct (is_heb q) eqn:Hq.
      * exists (c :: rest). split; [reflexivity|]. right. left. eauto.
      * exists (q :: c :: rest). split; [reflexivity|now left].
Qed.

Lemma year_match_at_shape (s m : pystr) :
  year_match_at s = Some m ->
  (exists post, s = m ++ post)
  /\ startswith m [TAV; SHIN] = true
  /\ (3 <= length m <= 6)%nat
  /\ Forall (fun c => is_heb c = true) (normalize_year m)
  /\ startswith (normalize_year m) [TAV; SHIN] = true
  /\ (3 <= length (normalize_year m) <= 5)%nat.
Proof.
  unfold year_match_at.
  destruct s as [|t [|sh [|a rest]]]; try discriminate.
  destruct ((t =? TAV) && (sh =? SHIN) && is_heb a) eqn:Hh; [|discriminate].
  apply andb_true_iff in Hh as [Hh Ha]. apply andb_true_iff in Hh as [Ht Hsh].
  apply Z.eqb_eq in Ht, Hsh. subst t sh.
  pose (keep := fun c : Z => negb (is_year_quote c || (c =? 47))).
  assert (Hkeep : forall c, is_heb c = true -> keep c = true).
  { intros c. unfold keep, is_heb, is_year_quote, GERSHAYIM, DQUOTE, GERESH, SQUOTE.
    lia. }
  assert (Hdrop : forall q, is_year_quote q = true -> keep q = false).
  { intros q Hq. unfold keep. now rewrite Hq. }
  assert (Hny : forall tl, normalize_year (TAV :: SHIN :: tl)
                 = TAV :: SHIN :: List.filter keep tl).
  { intros tl. reflexivity. }
  assert (Htail : forall tl, exists post, tl = year_tail tl ++ post
            /\ Forall (fun c => is_heb c = true) (List.filter keep (year_tail tl))
            /\ (length (year_tail tl) <= 2)%nat
            /\ (length (List.filter keep (year_tail tl)) <= 1)%nat).
  { intros tl. destruct (year_tail_shape tl) as (post & Hp & Hc).
    exists post. split; [exact Hp|].
    destruct Hc as [->|[(c & -> & Hc)|(q & c & -> & Hq & Hc)]].
    - repeat split; simpl; auto.
    - cbn [List.filter]. rewrite (Hkeep c Hc). repeat split; simpl; auto.
    - cbn [List.filter]. rewrite (Hdrop q Hq), (Hkeep c Hc).
      repeat split; simpl; auto. }
  destruct rest as [|b rest'].
  - intros [= <-]. rewrite Hny. cbn [List.filter]. rewrite (Hkeep a Ha).
    split; [exists []; reflexivity|]. repeat split; simpl; auto; lia.
  - destruct (Htail rest') as (post1 & Hp1 & Hf1 & Hl1 & Hl1').
    destruct (Htail (b :: rest')) as (post2 & Hp2 & Hf2 & Hl2 & Hl2').
    set (yt1 := year_tail rest') in *. set (yt2 := year_tail (b :: rest')) in *.
    clearbody yt1 yt2.
    destruct (is_heb b) eqn:Hb; intros [= <-].
    + change ([TAV; SHIN; a; b] ++ yt1) with (TAV :: SHIN :: a :: b :: yt1).
      rewrite Hny. cbn [List.filter]. rewrite (Hkeep a Ha), (Hkeep b Hb).
      split; [exists post1; cbn [app]; do 4 f_equal; exact Hp1|].
      split; [reflexivity|]. split; [cbn [length]; lia|].
      split; [repeat constructor; auto|]. split; [reflexivity|cbn [length]; lia].
    + change ([TAV; SHIN; a] ++ yt2) with (TAV :: SHIN :: a :: yt2).
      rewrite Hny. cbn [List.filter]. rewrite (Hkeep a Ha).
      split; [exists post2; cbn [app]; do 3 f_equal; exact Hp2|].
      split; [reflexivity|]. split; [cbn [length]; lia|].
      split; [repeat constructor; auto|]. split; [reflexivity|cbn [length]; lia].
Qed.

Lemma year_search_spec (s pre m : pystr) :
  year_search s = Some (pre, m) ->
  year_match_at (drop (length pre) s) = Some m
  /\ (exists post, s = pre ++ m ++ post)
  /\ forall k, (k < length pre)%nat -> year_match_at (drop k s) = None.
Proof.
  revert pre. induction s as [|c s IH]; intros pre.
  - simpl. discriminate.
  - cbn [year_search]. destruct (year_match_at (c :: s)) as [m0|] eqn:Hm.
    + intros [= <- <-]. split; [exact Hm|].
      split; [apply year_match_at_shape in Hm as [Hp _]; exact Hp|].
      intros k Hk. simpl in Hk. lia.
    + destruct (year_search s) as [[pre0 m0]|]; [|discriminate].
      intros [= <- <-]. destruct (IH pre0 eq_refl) as (H1 & (post & H2) & H3).
      split; [exact H1|]. split; [exists post; simpl; now rewrite <- H2|].
      intros [|k] Hk; [exact Hm|]. simpl in Hk |- *. apply H3. lia.
Qed.

(** The year token cut out of a title is the leftmost match of the
    year pattern: tav shin and up to four more characters; normalized
    it is a string of three to five Hebrew letters that starts with tav
    shin; and the cleaned title is what is left before and after it,
    single-spaced. *)
Theorem extract_year_token (text cleaned y : pystr) :
  extract_year_from_text text = (cleaned, Some y) ->
  (exists pre post,
     text = pre ++ y ++ post
     /\ cleaned = join [SPACE] (split_ws (pre ++ post))
     /\ forall k, (k < length pre)%nat -> year_match_at (drop k text) = None)
  /\ startswith y [TAV; SHIN] = true /\ (3 <= length y <= 6)%nat
  /\ Forall (fun c => is_heb c = true) (normalize_year y)
  /\ startswith (normalize_year y) [TAV; SHIN] = true
  /\ (3 <= length (normalize_year y) <= 5)%nat.
Proof.
  unfold extract_year_from_text. destruct text as [|ch text]; [discriminate|].
  destruct (year_search (ch :: text)) as [[pre m]|] eqn:Hs; [|discriminate].
  intros [= <- <-].
  destruct (year_search_spec _ _ _ Hs) as (Hm & (post & Hp) & Hleft).
  destruct (year_match_at_shape _ _ Hm) as (_ & H1 & H2 & H3 & H4 & H5).
  split; [|auto].
  exists pre, post. split; [exact Hp|]. split; [|exact Hleft].
  rewrite Hp at 1. rewrite drop_app_length, drop_app_length. reflexivity.
Qed.

Lemma extract_year_token_witness :
  Forall (fun c => is_heb c = true) (normalize_year (u "תשל״ו")).
Proof.
  assert (H : extract_year_from_text (u "ואברהם זקן תשל״ו סה״מ")
              = (u "ואברהם זקן סה״מ", Some (u "תשל״ו")))
    by (vm_compute; reflexivity).
  exact (proj1 (proj2 (proj2 (proj2 (extract_year_token _ _ _ H))))).
Defined.

(** ** The chat-completions URL *)

Lemma startswith_app (p r : pystr) : startswith (p ++ r) p = true.
Proof. induction p as [|c p IH]; simpl; [now destruct r|]. now rewrite Z.eqb_refl. Qed.

Lemma startswith_prefix (s p : pystr) :
  startswith s p = true -> exists r, s = p ++ r.
Proof.
  revert s. induction p as [|c p IH]; intros s H; [exists s; reflexivity|].
  destruct s as [|x s]; [discriminate|]. simpl in H.
  apply andb_true_iff in H as [Hc Hs]. apply Z.eqb_eq in Hc. subst x.
  destruct (IH s Hs) as (r & ->). exists r. reflexivity.
Qed.

Lemma endswith_app (b p : pystr) : endswith (b ++ p) p = true.
Proof. unfold endswith. rewrite rev_app_distr. apply startswith_app. Qed.

Lemma endswith_suffix (s p : pystr) :
  endswith s p = true -> exists b, s = b ++ p.
Proof.
  unfold endswith. intros H. apply startswith_prefix in H as (r & Hr).
  exists (rev r). apply (f_equal (@rev Z)) in Hr.
  rewrite rev_involutive, rev_app_distr, rev_involutive in Hr. exact Hr.
Qed.

Lemma lstrip_char_head (c : Z) (s : pystr) :
  match lstrip_char c s with x :: _ => x <> c | [] => True end.
Proof.
  induction s as [|x s IH]; simpl; [exact I|].
  destruct (x =? c) eqn:Hx; [exact IH|]. simpl. lia.
Qed.

(** Whatever the base URL -- with or without the version segment,
    with trailing slashes or blanks around it -- the chat URL built
    from it starts with the base, trimmed of them, and ends with the
    path of the chat-completions endpoint under version 1. *)
Theorem chat_completions_url_path (base_url : pystr) :
  startswith (_build_kimi_chat_completions_url base_url)
    (rstrip_char SLASH (strip base_url)) = true
  /\ endswith (_build_kimi_chat_completions_url base_url)
       (u "/v1/chat/completions") = true
  /\ endswith (rstrip_char SLASH (strip base_url)) [SLASH] = false.
Proof.
  unfold _build_kimi_chat_completions_url.
  set (base := rstrip_char SLASH (strip base_url)).
  assert (Hsplit : u "/v1/chat/completions" = u "/v1" ++ u "/chat/completions")
    by (vm_compute; reflexivity).
  assert (Ho : endswith base (u "/openai/v1") = true -> endswith base (u "/v1") = true).
  { intros H. apply endswith_suffix in H as (b & ->).
    assert (Hs : u "/openai/v1" = u "/openai" ++ u "/v1") by (vm_compute; reflexivity).
    rewrite Hs, app_assoc. apply endswith_app. }
  split; [|split].
  - destruct (endswith base (u "/openai/v1") || endswith base (u "/v1"));
      apply startswith_app.
  - destruct (endswith base (u "/v1")) eqn:Hv.
    + rewrite orb_true_r. apply endswith_suffix in Hv as (b & ->).
      rewrite Hsplit, <- app_assoc. apply endswith_app.
    + destruct (endswith base (u "/openai/v1")) eqn:Hov;
        [specialize (Ho eq_refl); congruence|].
      cbn [orb]. apply endswith_app.
  - destruct (endswith base [SLASH]) eqn:Hs; [|reflexivity]. exfalso.
    apply endswith_suffix in Hs as (b & Hb). subst base. unfold rstrip_char in Hb.
    apply (f_equal (@rev Z)) in Hb. rewrite rev_involutive, rev_app_distr in Hb.
    simpl in Hb. pose proof (lstrip_char_head SLASH (rev (strip base_url))) as Hh.
    rewrite Hb in Hh. now apply Hh.
Qed.

(** ** search_by_year *)

Lemma search_by_year_candidate_spec (yn : pystr) (entry : pystr * maamar)
    (r : candidate) :
  search_by_year_candidate yn entry = Some r ->
  m_name entry.2 <> []
  /\ c_key r = entry.1 /\ c_filename r = entry.1 /\ c_name r = m_name entry.2
  /\ c_text r = m_text entry.2 /\ c_score r = 100
  /\ exists y, c_year r = Some y /\ normalize_year y = yn
       /\ (match m_year entry.2 with
           | Some (_ :: _) => m_year entry.2 = Some y
           | _ => year_pattern_in (m_name entry.2) = Some y
           end).
Proof.
  destruct entry as [key m]. unfold search_by_year_candidate. cbn [fst snd].
  destruct (m_name m) as [|n0 ns] eqn:Hn; [discriminate|].
  assert (Hgen : forall my : option pystr,
            match my with
            | Some y =>
                if str_eqb (normalize_year y) yn
                then Some {| c_key := key; c_name := n0 :: ns; c_year := Some y;
                             c_filename := key; c_text := m_text m;
                             c_keywords_all := m_keywords_all m;
                             c_keywords_all_normalized := [];
                             c_embedding := None;
                             c_score := 100; c_fuzzy_score := 0;
                             c_keyword_score := 0; c_semantic_score := 0;
                             c_words_found := None; c_total_words := None;
                             c_matched_keywords := None;
                             c_matched_keyword_counts := None;
                             c_min_kw_count := None; c_sum_kw_count := None;
                             c_title_rank := None |}
                else None
            | None => None
            end = Some r ->
            c_key r = key /\ c_filename r = key /\ c_name r = n0 :: ns
            /\ c_text r = m_text m /\ c_score r = 100
            /\ exists y, c_year r = Some y /\ normalize_year y = yn /\ my = Some y).
  { intros [y|]; [|discriminate].
    destruct (str_eqb (normalize_year y) yn) eqn:Hy; [|discriminate].
    intros [= <-]. cbn. repeat split. exists y. split; [reflexivity|].
    split; [unfold str_eqb in Hy; now apply bool_decide_eq_true in Hy|reflexivity]. }
  intros H. split; [discriminate|].
  apply Hgen in H as (H1 & H2 & H3 & H4 & H5 & y & Hy & Hny & Hmy).
  split; [exact H1|]. split; [exact H2|]. split; [exact H3|].
  split; [exact H4|]. split; [exact H5|].
  exists y. split; [exact Hy|]. split; [exact Hny|].
  destruct (m_year m) as [[|y0 ys]|]; exact Hmy.
Qed.

Lemma search_by_year_candidate_complete (yn : pystr) (entry : pystr * maamar)
    (y : pystr) :
  m_name entry.2 <> [] ->
  match m_year entry.2 with
  | Some (_ :: _) => m_year entry.2 = Some y
  | _ => year_pattern_in (m_name entry.2) = Some y
  end ->
  normalize_year y = yn ->
  exists r, search_by_year_candidate yn entry = Some r.
Proof.
  destruct entry as [key m]. unfold search_by_year_candidate. cbn [fst snd].
  intros Hn Hy Hyn. destruct (m_name m) as [|n0 ns]; [contradiction|].
  destruct (m_year m) as [[|y0 ys]|].
  - rewrite Hy. unfold str_eqb. rewrite bool_decide_eq_true_2 by exact Hyn. eauto.
  - injection Hy as <-. unfold str_eqb.
    rewrite bool_decide_eq_true_2 by exact Hyn. eauto.
  - rewrite Hy. unfold str_eqb. rewrite bool_decide_eq_true_2 by exact Hyn. eauto.
Qed.

(** [search_by_year] returns records with a title whose year -- the
    year field, or the year token of the title when the field is
    missing -- normalizes to the normalized year asked for, each with
    score 100, in alphabetical order of the titles, at most
    [max_results] of them; and when [max_results] is not below the size
    of the corpus every such record is returned. *)
Theorem search_by_year_spec (maamarim : corpus) (year : pystr) (max_results : Z) :
  Forall
    (fun r =>
       c_score r = 100
       /\ exists entry y,
            entry ∈ maamarim /\ m_name entry.2 <> []
            /\ c_filename r = entry.1 /\ c_name r = m_name entry.2
            /\ c_text r = m_text entry.2
            /\ c_year r = Some y /\ normalize_year y = normalize_year year)
    (search_by_year maamarim year max_results)
  /\ StronglySorted (fun a b => lt_str (c_name b) (c_name a) = false)
       (search_by_year maamarim year max_results)
  /\ (0 <= max_results ->
      (length (search_by_year maamarim year max_results) <= Z.to_nat max_results)%nat)
  /\ (Z.of_nat (length maamarim) <= max_results ->
      forall entry y,
        entry ∈ maamarim -> m_name entry.2 <> [] ->
        match m_year entry.2 with
        | Some (_ :: _) => m_year entry.2 = Some y
        | _ => year_pattern_in (m_name entry.2) = Some y
        end ->
        normalize_year y = normalize_year year ->
        exists r, r ∈ search_by_year maamarim year max_results
                  /\ c_filename r = entry.1 /\ c_name r = m_name entry.2).
Proof.
  unfold search_by_year. destruct maamarim as [|e0 rest].
  { repeat split; try constructor. - simpl; lia. - intros _ entry y H. inversion H. }
  set (maamarim := e0 :: rest).
  set (found := omap (search_by_year_candidate (normalize_year year)) maamarim).
  set (sorted := sort_asc lt_str c_name found).
  assert (Hperm : sorted ≡ₚ found) by apply sort_asc_perm.
  assert (Hsound : Forall
            (fun r =>
               c_score r = 100
               /\ exists entry y,
                    entry ∈ maamarim /\ m_name entry.2 <> []
                    /\ c_filename r = entry.1 /\ c_name r = m_name entry.2
                    /\ c_text r = m_text entry.2
                    /\ c_year r = Some y /\ normalize_year y = normalize_year year)
            sorted).
  { rewrite Hperm. apply Forall_forall. intros r Hr.
    apply list_elem_of_omap in Hr as (entry & Hin & Hc).
    apply search_by_year_candidate_spec in Hc
      as (Hn & _ & Hf & Hname & Ht & Hs & y & Hy & Hny & _).
    split; [exact Hs|]. exists entry, y. auto 10. }
  assert (Hsorted : StronglySorted (fun a b => lt_str (c_name b) (c_name a) = false)
                      sorted) by apply sort_asc_str_sorted.
  assert (Hlen : (length sorted <= length maamarim)%nat).
  { rewrite Hperm. apply length_omap_le. }
  destruct (max_results <? Z.of_nat (length sorted)) eqn:Hcut.
  - split; [now apply Forall_slice_to|].
    split; [now apply StronglySorted_slice_to|].
    split; [apply length_slice_to|]. lia.
  - split; [exact Hsound|]. split; [exact Hsorted|]. split; [lia|].
    intros _ entry y Hin Hn Hy Hyn.
    destruct (search_by_year_candidate_complete _ entry y Hn Hy Hyn) as (r & Hr).
    exists r. split.
    + rewrite Hperm. apply list_elem_of_omap. eauto.
    + apply search_by_year_candidate_spec in Hr as (_ & _ & Hf & Hname & _). auto.
Qed.

(** ** The query as the search reads it *)

Lemma join_split_chars (s : pystr) (c : Z) :
  c ∈ join [SPACE] (split_ws s) -> c = SPACE \/ c ∈ s.
Proof.
  intros Hc. apply join_chars in Hc as [->|(w & Hw & Hc)]; [now left|].
  pose proof (split_ws_from_words [] s (Forall_nil_2 _)) as Hws.
  rewrite Forall_forall in Hws. destruct (Hws w Hw) as [_ Hchars].
  destruct (Hchars c Hc) as [Habs|Hin]; [now apply elem_of_nil in Habs|now right].
Qed.

Lemma join_split_canonical (s : pystr) :
  join [SPACE] (split_ws (join [SPACE] (split_ws s))) = join [SPACE] (split_ws s).
Proof. now rewrite (split_ws_join _ (split_ws_words s)). Qed.

Lemma clean_maamar_name_clean (text : pystr) :
  Forall (fun c => is_digit c = false) (clean_maamar_name text)
  /\ join [SPACE] (split_ws (clean_maamar_name text)) = clean_maamar_name text.
Proof.
  unfold clean_maamar_name. destruct text as [|ch text]; [split; [constructor|reflexivity]|].
  split; [|apply join_split_canonical].
  apply Forall_forall. intros c Hc.
  apply join_split_chars in Hc as [->|Hc]; [reflexivity|].
  apply list_elem_of_In, filter_In in Hc as [_ Hd]. now apply negb_true_iff in Hd.
Qed.

Lemma extract_year_cleaned (text cleaned : pystr) (y : option pystr) :
  extract_year_from_text text = (cleaned, y) ->
  (forall c, c ∈ cleaned -> c = SPACE \/ c ∈ text)
  /\ (join [SPACE] (split_ws text) = text ->
      join [SPACE] (split_ws cleaned) = cleaned).
Proof.
  unfold extract_year_from_text. destruct text as [|ch text].
  { intros [= <- <-]. split; [intros c H; inversion H|auto]. }
  destruct (year_search (ch :: text)) as [[pre m]|] eqn:Hs.
  - intros [= <- <-]. split; [|intros _; apply join_split_canonical].
    destruct (year_search_spec _ _ _ Hs) as (_ & (post & Hp) & _).
    intros c Hc. apply join_split_chars in Hc as [->|Hc]; [now left|right].
    rewrite Hp in Hc at 1. rewrite drop_app_length, drop_app_length in Hc.
    rewrite Hp. rewrite !elem_of_app. apply elem_of_app in Hc as [?|?]; auto.
  - intros [= <- <-]. split; [intros c Hc; now right|auto].
Qed.

Lemma normalize_year_no_quote (y : pystr) :
  Forall (fun c => is_year_quote c = false /\ c <> 47) (normalize_year y).
Proof.
  unfold normalize_year. apply Forall_forall. intros c Hc.
  apply list_elem_of_In, filter_In in Hc as [_ Hk].
  apply negb_true_iff, orb_false_iff in Hk as [Hq Hs]. split; [exact Hq|lia].
Qed.

(** The first block of [search_maamar] hands on a title without
    digits, its words separated by single blanks, and a year without
    quote glyph or slash; a year that was read off the title is a
    string of three to five Hebrew letters that starts with tav shin. *)
Theorem prepare_clean (name : pystr) (year : option pystr) (flag : bool)
    (title : pystr) (yn : option pystr) :
  prepare name year = (flag, title, yn) ->
  Forall (fun c => is_digit c = false) title
  /\ join [SPACE] (split_ws title) = title
  /\ (forall y, yn = Some y ->
        Forall (fun c => is_year_quote c = false /\ c <> 47) y
        /\ (year = None \/ year = Some [] ->
            Forall (fun c => is_heb c = true) y
            /\ startswith y [TAV; SHIN] = true
            /\ (3 <= length y <= 5)%nat)).
Proof.
  unfold prepare.
  set (name0 := if is_quoted name then strip_ends (strip name) else name).
  set (name1 := if is_empty name0 then name0 else clean_maamar_name (strip name0)).
  assert (H1 : Forall (fun c => is_digit c = false) name1
               /\ join [SPACE] (split_ws name1) = name1).
  { subst name1. destruct name0 as [|n0 ns]; [split; [constructor|reflexivity]|].
    apply clean_maamar_name_clean. }
  destruct H1 as [Hd Hc].
  set (given := match year with Some (_ :: _) => true | _ => false end).
  destruct (negb (is_empty name1) && negb given) eqn:Hg.
  - destruct (extract_year_from_text name1) as [cleaned [[|y0 ys]|]] eqn:He.
    + intros [= <- <- <-].
      split; [exact Hd|]. split; [exact Hc|]. intros y Hy.
      destruct year as [[|? ?]|]; try discriminate.
      apply andb_true_iff in Hg as [_ Hg]. discriminate.
    + intros [= <- <- <-].
      destruct (extract_year_cleaned _ _ _ He) as [Hch Hcan].
      split; [|split; [now apply Hcan|]].
      * apply Forall_forall. intros c Hin.
        destruct (Hch c Hin) as [->|Hin']; [reflexivity|].
        rewrite Forall_forall in Hd. now apply Hd.
      * intros y [= <-]. split; [apply normalize_year_no_quote|]. intros _.
        unfold extract_year_from_text in He. destruct name1 as [|c1 cs1];
          [discriminate|].
        destruct (year_search (c1 :: cs1)) as [[pre m]|] eqn:Hs; [|discriminate].
        injection He as _ <-.
        destruct (year_search_spec _ _ _ Hs) as (Hm & _ & _).
        destruct (year_match_at_shape _ _ Hm) as (_ & _ & _ & H3 & H4 & H5). auto.
    + intros [= <- <- <-].
      split; [exact Hd|]. split; [exact Hc|]. intros y Hy.
      destruct year as [[|? ?]|]; try discriminate.
      apply andb_true_iff in Hg as [_ Hg]. discriminate.
  - intros [= <- <- <-].
    split; [exact Hd|]. split; [exact Hc|]. intros y Hy.
    destruct year as [[|y0 ys]|]; try discriminate.
    injection Hy as <-. split; [apply normalize_year_no_quote|].
    intros [?|?]; discriminate.
Qed.

Lemma prepare_clean_witness :
  Forall (fun c => is_digit c = false) (u "ואברהם זקן")
  /\ join [SPACE] (split_ws (u "ואברהם זקן")) = u "ואברהם זקן".
Proof.
  assert (H : prepare (u "במאמר 5 ואברהם  זקן תשל״ו") None
              = (false, u "ואברהם זקן", Some (u "תשלו")))
    by (vm_compute; reflexivity).
  destruct (prepare_clean _ _ _ _ _ H) as (H1 & H2 & _). split; assumption.
Defined.

(** ** The search endpoint *)


